(** * A UTXO block indexer: validation, ledger and rollback

    Shallow embedding of [src/validation.ts], [src/utxo.ts],
    [src/database.ts] and the handlers of [src/index.ts].

    Conventions of the embedding.
    - The PostgreSQL store is a record of four tables, each a list of rows in
      insertion order.  [INSERT] appends a row, [UPDATE] rewrites rows in
      place, [DELETE] filters rows, and the declared keys ([PRIMARY KEY],
      [UNIQUE], [NOT NULL], [REFERENCES ... ON DELETE CASCADE]) are checked
      where the statements run.
    - The parameters of a statement are converted to the types of their
      columns as the server does it: a number sent for an [INTEGER] or a
      [BIGINT] column is refused outside the range of the type, and a string
      stored in a [VARCHAR(n)] column is refused beyond [n] characters.
      Two things are taken in [Z] without a bound: the sum kept in
      [address_balances.balance] with the amount added to it, and the target
      of [rollbackToHeight].
    - [BEGIN] / [COMMIT] / [ROLLBACK]: the body of an operation runs on a
      working copy and the caller keeps the old store when the body raises.
    - A JavaScript number is a double.  An integer of a request is written
      in [Z] by the digits that [Number::toString] prints for it: the text
      the driver sends to the server and, up to [2 ^ 53] in magnitude, the
      number itself; [Number.ofInteger] of it is the double.  Where the
      program adds numbers ([validateTransaction]) or reads a [BIGINT] as a
      number ([getAddressBalance]) the result is the double [Number.t],
      rounded as IEEE 754 rounds.  The value of a row of [utxos] was written
      from a number, so the text sent for [parseFloat] of it is the value
      again.
    - A string is a text, held as the bytes of its UTF-8 encoding (a
      [string] with one byte per [ascii]), the form in which it is hashed,
      sent and stored.  Its length in a column is counted in code points and
      the default order of [Array.prototype.sort] compares its UTF-16 code
      units.  [ORDER BY id] compares the bytes, as the collation [C] does.
      A string longer than its column is refused; PostgreSQL stores it cut
      when all that exceeds the width is blanks, which is left out here.
    - The [height] parameter of a rollback request is a string of characters
      below 256.
    - A thrown exception is the [Err] branch of [result]. *)

From Stdlib Require Import ZArith List String Ascii Bool Lia.
From Stdlib Require Import Permutation Sorted DecimalString DecimalZ DecimalPos.
Import ListNotations.

Open Scope string_scope.
Open Scope list_scope.
Open Scope Z_scope.

(** ** Strings *)

Module Text.

(** The bytes of the string. *)
Definition utf8 (s : string) : list Z :=
  map (fun c => Z.of_N (N_of_ascii c)) (list_ascii_of_string s).

(** The code points a sequence of bytes decodes to; [pending] continuation
    bytes are still due for the code point that has the bits [acc] so far. *)
Fixpoint decode (pending : nat) (acc : Z) (bytes : list Z) : list Z :=
  match bytes with
  | [] => []
  | b :: rest =>
      if b <? 128 then b :: decode 0 0 rest
      else if b <? 192 then
        match pending with
        | O => decode 0 0 rest
        | S O => (acc * 64 + (b - 128)) :: decode 0 0 rest
        | S n => decode n (acc * 64 + (b - 128)) rest
        end
      else if b <? 224 then decode 1 (b - 192) rest
      else if b <? 240 then decode 2 (b - 224) rest
      else decode 3 (b - 240) rest
  end.

Definition codePoints (s : string) : list Z := decode 0 0 (utf8 s).

(** A code point in UTF-16: itself, or a surrogate pair from U+10000 on. *)
Definition utf16 (c : Z) : list Z :=
  if c <? 65536 then [c]
  else [55296 + (c - 65536) / 1024; 56320 + (c - 65536) mod 1024].

(** The code units of the JavaScript string. *)
Definition codeUnits (s : string) : list Z := flat_map utf16 (codePoints s).

(** The number of characters, which is what [VARCHAR(n)] bounds. *)
Definition length (s : string) : nat := List.length (codePoints s).

End Text.

(** ** SHA-256 ([createHash("sha256").update(s).digest("hex")]) *)

Module SHA256.

Definition wrap32 (x : Z) : Z := x mod 4294967296.

Definition rotr (n x : Z) : Z :=
  Z.lor (Z.shiftr x n) (wrap32 (Z.shiftl x (32 - n))).

Definition xor3 (a b c : Z) : Z := Z.lxor (Z.lxor a b) c.

Definition Ch (x y z : Z) : Z :=
  Z.lxor (Z.land x y) (Z.land (Z.lxor x 4294967295) z).

Definition Maj (x y z : Z) : Z :=
  xor3 (Z.land x y) (Z.land x z) (Z.land y z).

Definition bigSigma0 (x : Z) : Z := xor3 (rotr 2 x) (rotr 13 x) (rotr 22 x).
Definition bigSigma1 (x : Z) : Z := xor3 (rotr 6 x) (rotr 11 x) (rotr 25 x).
Definition smallSigma0 (x : Z) : Z := xor3 (rotr 7 x) (rotr 18 x) (Z.shiftr x 3).
Definition smallSigma1 (x : Z) : Z := xor3 (rotr 17 x) (rotr 19 x) (Z.shiftr x 10).

Definition hexDigit (c : ascii) : Z :=
  let n := Z.of_N (N_of_ascii c) in
  if n <? 58 then n - 48 else n - 87.

(** Words written in hexadecimal and separated by one blank. *)
Fixpoint parseHexWords (s : string) (cur : Z) (acc : list Z) : list Z :=
  match s with
  | EmptyString => rev (cur :: acc)
  | String c s' =>
      if Ascii.eqb c " "%char then parseHexWords s' 0 (cur :: acc)
      else parseHexWords s' (cur * 16 + hexDigit c) acc
  end.

Definition roundConstants : list Z :=
  Eval cbv in parseHexWords
    ("428a2f98 71374491 b5c0fbcf e9b5dba5 3956c25b 59f111f1 923f82a4 ab1c5ed5 " ++
     "d807aa98 12835b01 243185be 550c7dc3 72be5d74 80deb1fe 9bdc06a7 c19bf174 " ++
     "e49b69c1 efbe4786 0fc19dc6 240ca1cc 2de92c6f 4a7484aa 5cb0a9dc 76f988da " ++
     "983e5152 a831c66d b00327c8 bf597fc7 c6e00bf3 d5a79147 06ca6351 14292967 " ++
     "27b70a85 2e1b2138 4d2c6dfc 53380d13 650a7354 766a0abb 81c2c92e 92722c85 " ++
     "a2bfe8a1 a81a664b c24b8b70 c76c51a3 d192e819 d6990624 f40e3585 106aa070 " ++
     "19a4c116 1e376c08 2748774c 34b0bcb5 391c0cb3 4ed8aa4a 5b9cca4f 682e6ff3 " ++
     "748f82ee 78a5636f 84c87814 8cc70208 90befffa a4506ceb bef9a3f7 c67178f2")%string
    0 [].

Definition initialHash : list Z :=
  Eval cbv in parseHexWords
    "6a09e667 bb67ae85 3c6ef372 a54ff53a 510e527f 9b05688c 1f83d9ab 5be0cd19"
    0 [].

(** Message padding: one [0x80] byte, zero bytes up to 56 modulo 64, then
    the bit length on eight bytes, most significant first. *)
Definition bytesOfLength (bits : Z) : list Z :=
  map (fun i => Z.shiftr bits (8 * (7 - Z.of_nat i)) mod 256) (seq 0 8).

Definition pad (msg : list Z) : list Z :=
  let len := Z.of_nat (List.length msg) in
  msg ++ [128] ++ repeat 0 (Z.to_nat ((55 - len) mod 64)) ++ bytesOfLength (8 * len).

Fixpoint wordsOfBytes (bs : list Z) : list Z :=
  match bs with
  | b0 :: b1 :: b2 :: b3 :: rest =>
      (((b0 * 256 + b1) * 256 + b2) * 256 + b3) :: wordsOfBytes rest
  | _ => []
  end.

Fixpoint chunks (fuel : nat) (ws : list Z) : list (list Z) :=
  match fuel, ws with
  | S fuel', _ :: _ => firstn 16 ws :: chunks fuel' (skipn 16 ws)
  | _, _ => []
  end.

Fixpoint schedule (fuel : nat) (w : list Z) : list Z :=
  match fuel with
  | O => w
  | S fuel' =>
      let t := List.length w in
      let at_ (k : nat) := nth (t - k) w 0 in
      schedule fuel'
        (w ++ [wrap32 (smallSigma1 (at_ 2%nat) + at_ 7%nat
                       + smallSigma0 (at_ 15%nat) + at_ 16%nat)])
  end.

Definition round (st : list Z) (kw : Z * Z) : list Z :=
  match st with
  | [a; b; c; d; e; f; g; h] =>
      let t1 := h + bigSigma1 e + Ch e f g + fst kw + snd kw in
      let t2 := bigSigma0 a + Maj a b c in
      [wrap32 (t1 + t2); a; b; c; wrap32 (d + t1); e; f; g]
  | _ => st
  end.

Definition compress (hash block : list Z) : list Z :=
  let w := schedule 48 block in
  let st := fold_left round (combine roundConstants w) hash in
  map (fun p => wrap32 (fst p + snd p)) (combine hash st).

Definition digest (msg : list Z) : list Z :=
  let ws := wordsOfBytes (pad msg) in
  fold_left compress (chunks (List.length ws) ws) initialHash.

Definition hexChar (n : Z) : ascii :=
  ascii_of_N (Z.to_N (if n <? 10 then n + 48 else n + 87)).

Fixpoint hexOfWord (digits : nat) (w : Z) (acc : string) : string :=
  match digits with
  | O => acc
  | S d => hexOfWord d (w / 16) (String (hexChar (w mod 16)) acc)
  end.

(** The lowercase hexadecimal digest of a string: [update(s)] hashes the
    UTF-8 encoding of [s]. *)
Definition hex (s : string) : string :=
  String.concat "" (map (fun w => hexOfWord 8 w "") (digest (Text.utf8 s))).

End SHA256.

(** ** Errors and the exception monad *)

(** The messages of [ValidationError], by the template that builds them. *)
Inductive ValidationMessage : Type :=
| InvalidHeight          (* "Invalid block height. Expected ..., got ..." *)
| InvalidBlockId         (* "Invalid block ID. Expected ..., got ..." *)
| InputNotFound          (* "Referenced input ...:... not found or already spent" *)
| ValueMismatch          (* "Transaction ... is invalid: input sum (...) does not equal output sum (...)" *)
| NegativeRollbackHeight (* "Rollback height cannot be negative" *)
| RollbackAboveCurrent   (* "Cannot rollback to height ... which is higher than current height ..." *).

(** The declared keys of [createTables] an [INSERT] can violate. *)
Inductive Constraint : Type :=
| blocks_pkey
| blocks_height_key
| transactions_pkey
| transactions_block_id_not_null
| utxos_pkey
| utxos_tx_id_fkey.

(** What the server refuses when it converts a parameter to the type of its
    column. *)
Inductive DataException : Type :=
| character_not_in_repertoire   (* 22021: a string with the character NUL *)
| numeric_value_out_of_range    (* 22003: outside [INTEGER] or [BIGINT] *)
| invalid_text_representation   (* 22P02: the text of the number is no integer *)
| string_data_right_truncation  (* 22001: too long for [VARCHAR(n)] *).

Inductive error : Type :=
| ValidationError (m : ValidationMessage)
| SpendError                 (* [new Error("UTXO ...:... not found or already spent")] *)
| DatabaseError (c : Constraint)
| DataError (d : DataException).

Inductive result (A : Type) : Type :=
| Ok (a : A)
| Err (e : error).

Arguments Ok {A} a.
Arguments Err {A} e.

Definition bind {A B : Type} (r : result A) (k : A -> result B) : result B :=
  match r with
  | Ok a => k a
  | Err e => Err e
  end.

Notation "x <- r ;; k" := (bind r (fun x => k))
  (at level 61, r at next level, right associativity).
Notation "r ;;; k" := (bind r (fun _ => k))
  (at level 61, right associativity).

(** [for (const x of xs) { await f(x) }] threading the store. *)
Fixpoint forEach {S A : Type} (f : S -> A -> result S) (xs : list A) (s : S) : result S :=
  match xs with
  | [] => Ok s
  | x :: xs' => s' <- f s x ;; forEach f xs' s'
  end.

(** A loop whose body only reads: the first exception ends it. *)
Fixpoint forAll {A : Type} (f : A -> result unit) (xs : list A) : result unit :=
  match xs with
  | [] => Ok tt
  | x :: xs' => f x ;;; forAll f xs'
  end.

Fixpoint mapM {A B : Type} (f : A -> result B) (xs : list A) : result (list B) :=
  match xs with
  | [] => Ok []
  | x :: xs' => y <- f x ;; ys <- mapM f xs' ;; Ok (y :: ys)
  end.

(** ** JavaScript numbers *)

Module Number.

(** The doubles the program can compute from integers: the integers a double
    holds, the two infinities and [NaN]. *)
Inductive t : Type :=
| Finite (z : Z)
| PosInfinity
| NegInfinity
| NaN.

(** [n / 2 ^ shift] rounded to the nearest integer, a tie to the even one. *)
Definition roundNearestEven (n shift : Z) : Z :=
  let q := n / 2 ^ shift in
  let r := n mod 2 ^ shift in
  let half := 2 ^ (shift - 1) in
  if r <? half then q
  else if half <? r then q + 1
  else if Z.even q then q else q + 1.

(** The nearest natural number with a significand of 53 bits. *)
Definition round53 (n : Z) : Z :=
  let shift := Z.log2 n - 52 in
  if shift <=? 0 then n else roundNearestEven n shift * 2 ^ shift.

(** The first power of two no double reaches: what rounds to it overflows. *)
Definition overflow : Z := 2 ^ 1024.

(** The double nearest to an integer. *)
Definition ofInteger (z : Z) : t :=
  let m := round53 (Z.abs z) in
  if overflow <=? m then (if z <? 0 then NegInfinity else PosInfinity)
  else Finite (Z.sgn z * m).

(** [a + b]: the exact sum, rounded. *)
Definition add (a b : t) : t :=
  match a, b with
  | NaN, _ | _, NaN => NaN
  | PosInfinity, NegInfinity | NegInfinity, PosInfinity => NaN
  | PosInfinity, _ | _, PosInfinity => PosInfinity
  | NegInfinity, _ | _, NegInfinity => NegInfinity
  | Finite x, Finite y => ofInteger (x + y)
  end.

(** [a === b]. *)
Definition strictEquals (a b : t) : bool :=
  match a, b with
  | Finite x, Finite y => x =? y
  | PosInfinity, PosInfinity => true
  | NegInfinity, NegInfinity => true
  | _, _ => false
  end.

(** [parseFloat] of the text the driver returns for a [BIGINT]. *)
Definition parseFloat (bigint : Z) : t := ofInteger bigint.

(** [values.reduce((sum, value) => sum + value, 0)] over the numbers the
    integers [values] write. *)
Definition sum (values : list Z) : t :=
  fold_left (fun sum value => add sum (ofInteger value)) values (Finite 0).

End Number.

(** ** Parameters of the statements *)

(** A string sent as a parameter: the server takes no character NUL. *)
Definition textParameter (s : string) : result unit :=
  if existsb (Z.eqb 0) (Text.utf8 s) then Err (DataError character_not_in_repertoire)
  else Ok tt.

Definition isInteger (n : Z) : bool := (-2147483648 <=? n) && (n <=? 2147483647).

Definition isBigint (n : Z) : bool :=
  (-9223372036854775808 <=? n) && (n <=? 9223372036854775807).

(** A number sent for a column of integers.  The driver sends its text; from
    1e21 on the text has an exponent, which is no integer to the server. *)
Definition numericParameter (fits : Z -> bool) (n : Z) : result unit :=
  if 1000000000000000000000 <=? Z.abs n then Err (DataError invalid_text_representation)
  else if fits n then Ok tt
  else Err (DataError numeric_value_out_of_range).

Definition integerParameter : Z -> result unit := numericParameter isInteger.
Definition bigintParameter : Z -> result unit := numericParameter isBigint.

(** A string stored in a [VARCHAR(n)] column, when the statement runs. *)
Definition varchar (n : nat) (s : string) : result unit :=
  if (Text.length s <=? n)%nat then Ok tt
  else Err (DataError string_data_right_truncation).

(** ** Data model ([types.ts]) *)

Module Output.
Record t : Type := mk { address : string; value : Z }.
End Output.

Module Input.
Record t : Type := mk { txId : string; index : Z }.
End Input.

Module Transaction.
Record t : Type := mk { id : string; inputs : list Input.t; outputs : list Output.t }.
End Transaction.

Module Block.
Record t : Type := mk { id : string; height : Z; transactions : list Transaction.t }.
End Block.

(** ** Tables ([database.ts]) *)

Module BlockRow.
Record t : Type := mk { id : string; height : Z }.
End BlockRow.

Module TxRow.
Record t : Type := mk { id : string; block_id : string; block_height : Z }.
End TxRow.

Module Utxo.
Record t : Type := mk {
  tx_id : string;
  output_index : Z;
  address : string;
  value : Z;
  is_spent : bool;
  spent_in_tx : option string;
  block_height : Z }.
End Utxo.

Module Balance.
Record t : Type := mk { address : string; balance : Z }.
End Balance.

Record Store : Type := mkStore {
  blocks : list BlockRow.t;
  transactions : list TxRow.t;
  utxos : list Utxo.t;
  address_balances : list Balance.t }.

Definition emptyStore : Store := mkStore [] [] [] [].

Definition setBlocks (s : Store) (bs : list BlockRow.t) : Store :=
  mkStore bs (transactions s) (utxos s) (address_balances s).
Definition setTransactions (s : Store) (ts : list TxRow.t) : Store :=
  mkStore (blocks s) ts (utxos s) (address_balances s).
Definition setUtxos (s : Store) (us : list Utxo.t) : Store :=
  mkStore (blocks s) (transactions s) us (address_balances s).
Definition setBalances (s : Store) (bals : list Balance.t) : Store :=
  mkStore (blocks s) (transactions s) (utxos s) bals.

Definition sumZ (l : list Z) : Z := fold_right Z.add 0 l.

(** Insertion sort; [le] is a total order in every use. *)
Section Sorting.
Context {A : Type} (le : A -> A -> bool).

Fixpoint insertSorted (x : A) (l : list A) : list A :=
  match l with
  | [] => [x]
  | y :: l' => if le x y then x :: l else y :: insertSorted x l'
  end.

Definition sortBy (l : list A) : list A := fold_right insertSorted [] l.
End Sorting.

(** The order of two sequences of code units. *)
Fixpoint compareUnits (a b : list Z) : comparison :=
  match a, b with
  | [], [] => Eq
  | [], _ :: _ => Lt
  | _ :: _, [] => Gt
  | x :: a', y :: b' =>
      match x ?= y with
      | Eq => compareUnits a' b'
      | c => c
      end
  end.

(** The default order of [Array.prototype.sort]: by UTF-16 code units.  Two
    texts with the same code units are the same string; the last case only
    orders bytes that are not the encoding of a text. *)
Definition codeUnitLeb (a b : string) : bool :=
  match compareUnits (Text.codeUnits a) (Text.codeUnits b) with
  | Lt => true
  | Gt => false
  | Eq => String.leb a b
  end.

(** [ids.sort()]. *)
Definition sortStrings : list string -> list string := sortBy codeUnitLeb.

(** [ORDER BY id]. *)
Definition orderById : list string -> list string := sortBy String.leb.

(** ** Validation ([validation.ts]) *)

(** [SELECT MAX(height) FROM blocks]: [NULL] on an empty table. *)
Definition maxHeight (s : Store) : option Z :=
  fold_left (fun acc b =>
               match acc with
               | None => Some (BlockRow.height b)
               | Some m => Some (Z.max m (BlockRow.height b))
               end) (blocks s) None.

(** [max_height || 0]: [null] and [0] are the falsy values. *)
Definition orZero (v : option Z) : Z :=
  match v with
  | None => 0
  | Some m => if m =? 0 then 0 else m
  end.

Definition currentHeight (s : Store) : Z := orZero (maxHeight s).

Definition validateBlockHeight (s : Store) (height : Z) : result unit :=
  let expectedHeight := currentHeight s + 1 in
  if height =? expectedHeight then Ok tt
  else Err (ValidationError InvalidHeight).

(** The decimal digits of an integer, with its sign. *)
Definition decimal (n : Z) : string := NilZero.string_of_int (Z.to_int n).

(** The integer of [k] digits that, followed by [n - k] zeros, is a decimal
    that reads back as the double [x], the nearest to [x] if there are two;
    [x] has [n] digits. *)
Definition shortest (x n k : Z) : option Z :=
  let p := 10 ^ (n - k) in
  let lo := x / p in
  let hi := lo + 1 in
  let okLo := Number.round53 (lo * p) =? x in
  let okHi := Number.round53 (hi * p) =? x in
  if okLo && okHi then
    Some (if x - lo * p <? hi * p - x then lo
          else if hi * p - x <? x - lo * p then hi
          else if Z.even lo then lo else hi)
  else if okLo then Some lo
  else if okHi then Some hi
  else None.

(** The least number of digits that does, from [k] on. *)
Fixpoint shortestFrom (x n k : Z) (fuel : nat) : Z * Z :=
  match fuel with
  | O => (x / 10 ^ (n - k), k)
  | S fuel' =>
      match shortest x n k with
      | Some s => (s, k)
      | None => shortestFrom x n (k + 1) fuel'
      end
  end.

(** A double from 1e21 on in exponent notation: [d.ddde+n]. *)
Definition exponential (x : Z) : string :=
  let n := Z.of_nat (String.length (decimal x)) in
  let (s, k) := shortestFrom x n 1 17 in
  let (s, e) := if s =? 10 ^ k then (1, n) else (s, n - 1) in
  match decimal s with
  | String d EmptyString => String d ("e+" ++ decimal e)
  | String d rest => String d ("." ++ rest ++ "e+" ++ decimal e)
  | EmptyString => EmptyString
  end.

(** Number to string, as [+] does with a string operand. *)
Definition numberToString (n : Z) : string :=
  if Z.abs n <? 1000000000000000000000 then decimal n
  else if n <? 0 then "-" ++ exponential (- n)
  else exponential n.

Definition hashInput (block : Block.t) : string :=
  let transactionIds := sortStrings (map Transaction.id (Block.transactions block)) in
  (numberToString (Block.height block) ++ String.concat "" transactionIds)%string.

Definition expectedId (block : Block.t) : string := SHA256.hex (hashInput block).

Definition validateBlockId (block : Block.t) : result unit :=
  if String.eqb (Block.id block) (expectedId block) then Ok tt
  else Err (ValidationError InvalidBlockId).

(** [WHERE tx_id = $1 AND output_index = $2]. *)
Definition refersTo (input : Input.t) (u : Utxo.t) : bool :=
  String.eqb (Utxo.tx_id u) (Input.txId input)
  && (Utxo.output_index u =? Input.index input).

(** [... AND is_spent = FALSE]. *)
Definition unspentRows (s : Store) (input : Input.t) : list Utxo.t :=
  filter (fun u => refersTo input u && negb (Utxo.is_spent u)) (utxos s).

(** The query fails before it runs when a parameter is refused: [$1] is a
    string and [$2] an [INTEGER].  The value of the row is returned as the
    server holds it; [parseFloat] of it is taken where the values are added
    ([Number.sum]). *)
Definition getInputValue (s : Store) (input : Input.t) : result Z :=
  textParameter (Input.txId input) ;;;
  integerParameter (Input.index input) ;;;
  match unspentRows s input with
  | [] => Err (ValidationError InputNotFound)
  | row :: _ => Ok (Utxo.value row)
  end.

Definition validateTransaction (s : Store) (transaction : Transaction.t) : result unit :=
  inputValues <- mapM (getInputValue s) (Transaction.inputs transaction) ;;
  let outputValues := map Output.value (Transaction.outputs transaction) in
  let totalInputs := Number.sum inputValues in
  let totalOutputs := Number.sum outputValues in
  match Transaction.inputs transaction with
  | [] => Ok tt
  | _ :: _ =>
      if Number.strictEquals totalInputs totalOutputs then Ok tt
      else Err (ValidationError ValueMismatch)
  end.

Definition validateBlock (s : Store) (block : Block.t) : result unit :=
  validateBlockHeight s (Block.height block) ;;;
  validateBlockId block ;;;
  forAll (validateTransaction s) (Block.transactions block).

Definition validateRollbackHeight (s : Store) (targetHeight : Z) : result unit :=
  let currentHeight := currentHeight s in
  if targetHeight <? 0 then Err (ValidationError NegativeRollbackHeight)
  else if currentHeight <? targetHeight then Err (ValidationError RollbackAboveCurrent)
  else Ok tt.

(** ** The UTXO manager ([utxo.ts]) *)

(** [INSERT ... ON CONFLICT (address) DO UPDATE SET balance = balance + $2]. *)
Fixpoint upsertBalance (address : string) (deltaValue : Z) (rows : list Balance.t)
  : list Balance.t :=
  match rows with
  | [] => [Balance.mk address deltaValue]
  | r :: rows' =>
      if String.eqb (Balance.address r) address
      then Balance.mk (Balance.address r) (Balance.balance r + deltaValue) :: rows'
      else r :: upsertBalance address deltaValue rows'
  end.

Definition updateAddressBalance (s : Store) (address : string) (deltaValue : Z) : Store :=
  setBalances s (upsertBalance address deltaValue (address_balances s)).

(** [SELECT balance FROM address_balances WHERE address = $1]. *)
Definition balanceRows (s : Store) (address : string) : list Balance.t :=
  filter (fun r => String.eqb (Balance.address r) address) (address_balances s).

(** [parseFloat(rows[0]?.balance || 0)]: the driver returns [BIGINT] as a
    non-empty string, so only a missing row takes the [0]. *)
Definition getAddressBalance (s : Store) (address : string) : result Number.t :=
  textParameter address ;;;
  match balanceRows s address with
  | [] => Ok (Number.Finite 0)
  | r :: _ => Ok (Number.parseFloat (Balance.balance r))
  end.

Definition setSpent (spent : bool) (by_ : option string) (u : Utxo.t) : Utxo.t :=
  Utxo.mk (Utxo.tx_id u) (Utxo.output_index u) (Utxo.address u) (Utxo.value u)
          spent by_ (Utxo.block_height u).

(** [spendingTxId] is the id [processTransaction] has just stored, and the
    address and the value are those of the row: the parameters of the
    [UPDATE] pass when those of the [SELECT] do. *)
Definition spendUTXO (s : Store) (input : Input.t) (spendingTxId : string) : result Store :=
  textParameter (Input.txId input) ;;;
  integerParameter (Input.index input) ;;;
  match unspentRows s input with
  | [] => Err SpendError
  | row :: _ =>
      let s1 := setUtxos s
        (map (fun u => if refersTo input u then setSpent true (Some spendingTxId) u else u)
             (utxos s)) in
      Ok (updateAddressBalance s1 (Utxo.address row) (- Utxo.value row))
  end.

Definition createUTXO (s : Store) (txId : string) (index : Z) (output : Output.t)
    (blockHeight : Z) : result Store :=
  textParameter txId ;;;
  integerParameter index ;;;
  textParameter (Output.address output) ;;;
  bigintParameter (Output.value output) ;;;
  integerParameter blockHeight ;;;
  varchar 64 txId ;;;
  varchar 128 (Output.address output) ;;;
  if existsb (fun u => String.eqb (Utxo.tx_id u) txId && (Utxo.output_index u =? index)) (utxos s)
  then Err (DatabaseError utxos_pkey)
  else if negb (existsb (fun t => String.eqb (TxRow.id t) txId) (transactions s))
  then Err (DatabaseError utxos_tx_id_fkey)
  else
    let row := Utxo.mk txId index (Output.address output) (Output.value output)
                       false None blockHeight in
    Ok (updateAddressBalance (setUtxos s (utxos s ++ [row]))
                             (Output.address output) (Output.value output)).

(** [for (let index = 0; index < outputs.length; index++)]. *)
Fixpoint createOutputs (s : Store) (txId : string) (index : Z) (outputs : list Output.t)
    (blockHeight : Z) : result Store :=
  match outputs with
  | [] => Ok s
  | output :: rest =>
      s' <- createUTXO s txId index output blockHeight ;;
      createOutputs s' txId (index + 1) rest blockHeight
  end.

(** [INSERT INTO transactions (id, block_id, block_height)
     VALUES ($1, (SELECT id FROM blocks WHERE height = $2), $2)]. *)
Definition insertTransaction (s : Store) (id : string) (blockHeight : Z) : result Store :=
  textParameter id ;;;
  integerParameter blockHeight ;;;
  varchar 64 id ;;;
  match filter (fun b => BlockRow.height b =? blockHeight) (blocks s) with
  | [] => Err (DatabaseError transactions_block_id_not_null)
  | b :: _ =>
      if existsb (fun t => String.eqb (TxRow.id t) id) (transactions s)
      then Err (DatabaseError transactions_pkey)
      else Ok (setTransactions s (transactions s ++ [TxRow.mk id (BlockRow.id b) blockHeight]))
  end.

Definition processTransaction (s : Store) (transaction : Transaction.t) (blockHeight : Z)
  : result Store :=
  s1 <- insertTransaction s (Transaction.id transaction) blockHeight ;;
  s2 <- forEach (fun s input => spendUTXO s input (Transaction.id transaction))
                (Transaction.inputs transaction) s1 ;;
  createOutputs s2 (Transaction.id transaction) 0 (Transaction.outputs transaction) blockHeight.

(** [INSERT INTO blocks (id, height) VALUES ($1, $2)]. *)
Definition insertBlock (s : Store) (id : string) (height : Z) : result Store :=
  textParameter id ;;;
  integerParameter height ;;;
  varchar 64 id ;;;
  if existsb (fun b => String.eqb (BlockRow.id b) id) (blocks s)
  then Err (DatabaseError blocks_pkey)
  else if existsb (fun b => BlockRow.height b =? height) (blocks s)
  then Err (DatabaseError blocks_height_key)
  else Ok (setBlocks s (blocks s ++ [BlockRow.mk id height])).

(** The statements between [BEGIN] and [COMMIT]. *)
Definition processBlockBody (s : Store) (block : Block.t) : result Store :=
  s1 <- insertBlock s (Block.id block) (Block.height block) ;;
  forEach (fun s transaction => processTransaction s transaction (Block.height block))
          (Block.transactions block) s1.

(** The store after the call, and whether the call returned or threw. *)
Definition processBlock (s : Store) (block : Block.t) : Store * result unit :=
  match processBlockBody s block with
  | Ok s' => (s', Ok tt)
  | Err e => (s, Err e)
  end.

(** [DELETE FROM transactions WHERE p], with the cascade to [utxos.tx_id]. *)
Definition deleteTransactionsWhere (p : TxRow.t -> bool) (s : Store) : Store :=
  let deleted := filter p (transactions s) in
  let s1 := setTransactions s (filter (fun t => negb (p t)) (transactions s)) in
  setUtxos s1
    (filter (fun u => negb (existsb (fun t => String.eqb (TxRow.id t) (Utxo.tx_id u)) deleted))
            (utxos s1)).

(** [DELETE FROM blocks WHERE p], with the cascade to [transactions.block_id]. *)
Definition deleteBlocksWhere (p : BlockRow.t -> bool) (s : Store) : Store :=
  let deleted := filter p (blocks s) in
  let s1 := setBlocks s (filter (fun b => negb (p b)) (blocks s)) in
  deleteTransactionsWhere
    (fun t => existsb (fun b => String.eqb (BlockRow.id b) (TxRow.block_id t)) deleted) s1.

Definition sameKey (u v : Utxo.t) : bool :=
  String.eqb (Utxo.tx_id v) (Utxo.tx_id u) && (Utxo.output_index v =? Utxo.output_index u).

Definition spentBy (transactionId : string) (u : Utxo.t) : bool :=
  match Utxo.spent_in_tx u with
  | Some t => String.eqb t transactionId
  | None => false
  end.

Definition rollbackTransaction (s : Store) (transactionId : string) : Store :=
  (* First, handle outputs *)
  let outputs := filter (fun u => String.eqb (Utxo.tx_id u) transactionId) (utxos s) in
  let s1 := fold_left
    (fun s output => updateAddressBalance s (Utxo.address output) (- Utxo.value output))
    outputs s in
  (* Remove the UTXOs *)
  let s2 := setUtxos s1
    (filter (fun u => negb (String.eqb (Utxo.tx_id u) transactionId)) (utxos s1)) in
  (* Then, handle inputs *)
  let spentUTXOs := filter (spentBy transactionId) (utxos s2) in
  let s3 := fold_left
    (fun s utxo =>
       let s' := setUtxos s
         (map (fun u => if sameKey utxo u then setSpent false None u else u) (utxos s)) in
       updateAddressBalance s' (Utxo.address utxo) (Utxo.value utxo))
    spentUTXOs s2 in
  (* Remove the transaction *)
  deleteTransactionsWhere (fun t => String.eqb (TxRow.id t) transactionId) s3.

(** [SELECT id FROM transactions WHERE block_id = $1 ORDER BY id]. *)
Definition blockTransactionIds (s : Store) (blockId : string) : list string :=
  orderById
    (map TxRow.id (filter (fun t => String.eqb (TxRow.block_id t) blockId) (transactions s))).

Definition rollbackBlock (s : Store) (blockId : string) (blockHeight : Z) : Store :=
  fold_left rollbackTransaction (blockTransactionIds s blockId) s.

(** [SELECT id, height FROM blocks WHERE height > $1 ORDER BY height DESC]. *)
Definition blocksToRemove (s : Store) (targetHeight : Z) : list BlockRow.t :=
  sortBy (fun a b => BlockRow.height b <=? BlockRow.height a)
         (filter (fun b => targetHeight <? BlockRow.height b) (blocks s)).

(** No statement of the rollback can violate a key, so the call always
    commits; the result is the committed store. *)
Definition rollbackToHeight (s : Store) (targetHeight : Z) : Store :=
  let s1 := fold_left
    (fun s block => rollbackBlock s (BlockRow.id block) (BlockRow.height block))
    (blocksToRemove s targetHeight) s in
  deleteBlocksWhere (fun b => targetHeight <? BlockRow.height b) s1.

(** ** The write handlers ([index.ts]) *)

Inductive Reply : Type :=
| Success                                   (* 200 [{ success: true }] *)
| ValidationFailure (m : ValidationMessage) (* 400 "Validation Error" with the message *)
| BadRequest                                (* 400 "Bad Request" *)
| InternalServerError                       (* 500, the message is hidden *).

Definition replyOf (e : error) : Reply :=
  match e with
  | ValidationError m => ValidationFailure m
  | _ => InternalServerError
  end.

(** [POST /blocks]. *)
Definition postBlocks (s : Store) (block : Block.t) : Store * Reply :=
  match validateBlock s block with
  | Err e => (s, replyOf e)
  | Ok _ =>
      match processBlock s block with
      | (s', Ok _) => (s', Success)
      | (s', Err e) => (s', replyOf e)
      end
  end.

(** [POST /rollback?height=n], from the parsed [heightNum] on. *)
Definition postRollback (s : Store) (heightNum : Z) : Store * Reply :=
  if heightNum <? 0 then (s, BadRequest)
  else
    match validateRollbackHeight s heightNum with
    | Err e => (s, replyOf e)
    | Ok _ => (rollbackToHeight s heightNum, Success)
    end.

(** ** The query string, the balance request and the reader of [database.ts] *)

(** [parseInt(string, 10)] on strings of characters below 256; [None] is
    [NaN].  Leading white space is skipped, one sign is read, and the digits
    that follow are the number, whatever comes after them.  The result is
    exact, as the JavaScript number is up to 2^53. *)
Definition isWhiteSpace (c : ascii) : bool :=
  let n := N_of_ascii c in
  ((9 <=? n) && (n <=? 13) || (n =? 32) || (n =? 160))%N.

Fixpoint trimStart (s : string) : string :=
  match s with
  | String c s' => if isWhiteSpace c then trimStart s' else s
  | EmptyString => EmptyString
  end.

Definition digitValue (c : ascii) : option Z :=
  let n := Z.of_N (N_of_ascii c) in
  if (48 <=? n) && (n <=? 57) then Some (n - 48) else None.

Fixpoint leadingDigits (s : string) : list Z :=
  match s with
  | String c s' =>
      match digitValue c with
      | Some d => d :: leadingDigits s'
      | None => []
      end
  | EmptyString => []
  end.

Definition numberOf (digits : list Z) : option Z :=
  match digits with
  | [] => None
  | _ :: _ => Some (fold_left (fun n d => 10 * n + d) digits 0)
  end.

Definition parseInt (s : string) : option Z :=
  match trimStart s with
  | String "-" rest => option_map Z.opp (numberOf (leadingDigits rest))
  | String "+" rest => numberOf (leadingDigits rest)
  | rest => numberOf (leadingDigits rest)
  end.

(** [POST /rollback?height=...], from the query parameter on; [None] when
    the request has no [height]. *)
Definition postRollbackQuery (s : Store) (height : option string) : Store * Reply :=
  match height with
  | None => (s, BadRequest)
  | Some EmptyString => (s, BadRequest)
  | Some height =>
      match parseInt height with
      | None => (s, BadRequest)
      | Some heightNum => postRollback s heightNum
      end
  end.

(** [GET /balance/:address]. *)
Inductive BalanceReply : Type :=
| BalanceOf (address : string) (balance : Number.t) (* 200 [{ address, balance }] *)
| InvalidAddress                                    (* 400 "Invalid Address" *)
| BalanceFailure                                    (* 500, the message is hidden *).

Definition getBalance (s : Store) (address : string) : BalanceReply :=
  match address with
  | EmptyString => InvalidAddress
  | _ =>
      match getAddressBalance s address with
      | Ok balance => BalanceOf address balance
      | Err _ => BalanceFailure
      end
  end.

(** [getAddressBalance] of [database.ts]. *)
Module Database.
Definition getAddressBalance (s : Store) (address : string) : result Number.t :=
  textParameter address ;;;
  let rows := balanceRows s address in
  match rows with
  | [] => Ok (Number.Finite 0)
  | row :: _ => Ok (Number.parseFloat (Balance.balance row))
  end.
End Database.

(** ** The helpers of the test suite *)

Definition createTestTransaction (id : string) (inputs : list Input.t)
    (outputs : list Output.t) : Transaction.t :=
  Transaction.mk id inputs outputs.

Definition createTestBlock (height : Z) (transactions : list Transaction.t) : Block.t :=
  let transactionIds := sortStrings (map Transaction.id transactions) in
  let hashInput := (numberToString height ++ String.concat "" transactionIds)%string in
  Block.mk (SHA256.hex hashInput) height transactions.

(** Submitting blocks one after the other; [None] when one is refused. *)
Fixpoint submitAll (s : Store) (bs : list Block.t) : option Store :=
  match bs with
  | [] => Some s
  | b :: bs' =>
      match postBlocks s b with
      | (s', Success) => submitAll s' bs'
      | _ => None
      end
  end.

(** Scenario A of the test suite. *)
Module ScenarioA.
Definition block1 := createTestBlock 1
  [createTestTransaction "tx1" [] [Output.mk "genesis" 1000]].
Definition block2 := createTestBlock 2
  [createTestTransaction "tx2" [Input.mk "tx1" 0]
     [Output.mk "alpha" 300; Output.mk "beta" 400; Output.mk "charlie" 300]].
Definition block3 := createTestBlock 3
  [createTestTransaction "tx3" [Input.mk "tx2" 0]
     [Output.mk "delta" 150; Output.mk "alpha" 150]].
Definition balancesOf (s : Store) : list (result Number.t) :=
  map (getAddressBalance s) ["genesis"; "alpha"; "beta"; "charlie"; "delta"].
End ScenarioA.

(** * Vocabulary of the properties *)

(** Every character of the string satisfies [p]. *)
Fixpoint stringForall (p : ascii -> bool) (s : string) : bool :=
  match s with
  | EmptyString => true
  | String c s' => p c && stringForall p s'
  end.

(** One of the characters [0-9a-f]. *)
Definition isLowerHex (c : ascii) : bool :=
  existsb (Ascii.eqb c) (list_ascii_of_string "0123456789abcdef").

(** The server takes the parameters of a query on the row an input names. *)
Definition inputAccepted (input : Input.t) : Prop :=
  textParameter (Input.txId input) = Ok tt /\ integerParameter (Input.index input) = Ok tt.

(** The error is one of the conversion of a parameter. *)
Definition isDataError (e : error) : Prop := exists d, e = DataError d.

(** A string of ASCII characters. *)
Definition isAscii (s : string) : bool :=
  stringForall (fun c => (N_of_ascii c <? 128)%N) s.

(** The sum of the magnitudes. *)
Definition sumAbs (l : list Z) : Z := sumZ (map Z.abs l).

(** The integers up to [2 ^ 53] in magnitude, which every double holds. *)
Definition safeBound : Z := 9007199254740992.

(** The height the next block must have: the greatest stored height plus
    one, and 1 on an empty table. *)
Definition nextHeight (s : Store) : Z :=
  match maxHeight s with
  | Some m => m + 1
  | None => 1
  end.

(** The primary key of a UTXO row, and the key an input refers to. *)
Definition utxoKey (u : Utxo.t) : string * Z := (Utxo.tx_id u, Utxo.output_index u).
Definition inputKey (i : Input.t) : string * Z := (Input.txId i, Input.index i).

(** The balance the table holds for an address, 0 when it has no row. *)
Definition storedBalance (s : Store) (address : string) : Z :=
  match filter (fun r => String.eqb (Balance.address r) address) (address_balances s) with
  | [] => 0
  | r :: _ => Balance.balance r
  end.

(** The unspent rows an address owns, and what they add up to. *)
Definition ownedUnspent (address : string) (u : Utxo.t) : bool :=
  String.eqb (Utxo.address u) address && negb (Utxo.is_spent u).

Definition unspentSum (s : Store) (address : string) : Z :=
  sumZ (map Utxo.value (filter (ownedUnspent address) (utxos s))).

(** What a row contributes to [unspentSum]. *)
Definition contribution (address : string) (u : Utxo.t) : Z :=
  if ownedUnspent address u then Utxo.value u else 0.

(** The value of a row for an address, spent or not. *)
Definition owned (address : string) (u : Utxo.t) : Z :=
  if String.eqb (Utxo.address u) address then Utxo.value u else 0.

(** What the declared keys, the processing order and the balance upkeep
    maintain on every store the handlers produce. *)
Record Consistent (s : Store) : Prop := {
  block_ids_unique : NoDup (map BlockRow.id (blocks s));
  block_heights_unique : NoDup (map BlockRow.height (blocks s));
  block_heights_positive : forall b, In b (blocks s) -> 1 <= BlockRow.height b;
  tx_ids_unique : NoDup (map TxRow.id (transactions s));
  tx_block : forall t, In t (transactions s) ->
    exists b, In b (blocks s) /\ TxRow.block_id t = BlockRow.id b
              /\ TxRow.block_height t = BlockRow.height b;
  utxo_keys_unique : NoDup (map utxoKey (utxos s));
  utxo_tx : forall u, In u (utxos s) ->
    exists t, In t (transactions s) /\ TxRow.id t = Utxo.tx_id u
              /\ TxRow.block_height t = Utxo.block_height u;
  unspent_clear : forall u, In u (utxos s) ->
    Utxo.is_spent u = false -> Utxo.spent_in_tx u = None;
  spent_later : forall u, In u (utxos s) -> Utxo.is_spent u = true ->
    exists t, In t (transactions s) /\ Utxo.spent_in_tx u = Some (TxRow.id t)
              /\ Utxo.block_height u < TxRow.block_height t;
  balance_addresses_unique : NoDup (map Balance.address (address_balances s));
  balances_correct : forall a, storedBalance s a = unspentSum s a
}.

(** While a block of height [H] is applied on top of the transactions [old]:
    the rows of [old] lie below [H], and [old] stays in the table. *)
Record Processing (H : Z) (old : list string) (s : Store) : Prop := {
  proc_consistent : Consistent s;
  proc_below : forall u, In u (utxos s) -> In (Utxo.tx_id u) old -> Utxo.block_height u < H;
  proc_old : incl old (map TxRow.id (transactions s))
}.

(** The row a transaction of the block in progress has in the table. *)
Definition hasTx (s : Store) (id : string) (h : Z) : Prop :=
  exists t, In t (transactions s) /\ TxRow.id t = id /\ TxRow.block_height t = h.

(** What [rollbackTransaction] does to a row that survives it. *)
Definition unspendIf (transactionId : string) (u : Utxo.t) : Utxo.t :=
  if spentBy transactionId u then setSpent false None u else u.

(** The rows [DELETE FROM utxos WHERE tx_id = $1] keeps. *)
Definition notOf (transactionId : string) (u : Utxo.t) : bool :=
  negb (String.eqb (Utxo.tx_id u) transactionId).

(** Every output of the transaction is still unspent. *)
Definition outputsUnspent (s : Store) (t : string) : Prop :=
  forall u, In u (utxos s) -> Utxo.tx_id u = t -> Utxo.is_spent u = false.

(** Membership among ids. *)
Definition memb (x : string) (l : list string) : bool := existsb (String.eqb x) l.

(** No stored transaction lies above height [h]. *)
Definition topHeight (s : Store) (h : Z) : Prop :=
  forall r, In r (transactions s) -> TxRow.block_height r <= h.

(** The order of [ORDER BY height DESC]. *)
Definition descending (a b : BlockRow.t) : Prop :=
  (BlockRow.height b <=? BlockRow.height a) = true.

(** The stores the system can be in: the empty one, and what [processBlock]
    on a block that passed [validateBlock], or [rollbackToHeight], makes of
    one of them. *)
Inductive reachable : Store -> Prop :=
| reachable_empty : reachable emptyStore
| reachable_processBlock (s : Store) (block : Block.t) :
    reachable s -> validateBlock s block = Ok tt ->
    reachable (fst (processBlock s block))
| reachable_rollbackToHeight (s : Store) (targetHeight : Z) :
    reachable s -> reachable (rollbackToHeight s targetHeight).

(** Agreement on every table but the balances. *)
Definition sameTables (s s' : Store) : Prop :=
  blocks s = blocks s' /\ transactions s = transactions s' /\ utxos s = utxos s'.

(** Both calls return, in stores that agree, or both raise the same error. *)
Definition sameOutcome (r r' : result Store) : Prop :=
  match r, r' with
  | Ok a, Ok a' => sameTables a a'
  | Err e, Err e' => e = e'
  | _, _ => False
  end.

(** Agreement on the transaction and UTXO tables. *)
Definition sameRows (s s' : Store) : Prop :=
  transactions s = transactions s' /\ utxos s = utxos s'.

(** A row of the store before the block, as the block left it: untouched, or
    unspent before and marked spent by a transaction of the block. *)
Definition markedBy (ids : list string) (u u' : Utxo.t) : Prop :=
  u' = u
  \/ (Utxo.is_spent u = false /\ exists t, In t ids /\ u' = setSpent true (Some t) u).

(** The tables while the transactions [ids] of the block have been applied. *)
Record Shape (s : Store) (bid : string) (B : list BlockRow.t)
    (ids : list string) (cur : Store) : Prop := {
  shape_blocks : blocks cur = B;
  shape_keys : NoDup (map utxoKey (utxos cur));
  shape_rows : exists newRows us' news,
    map TxRow.id newRows = ids
    /\ transactions cur = transactions s ++ newRows
    /\ Forall (fun r => TxRow.block_id r = bid) newRows
    /\ utxos cur = us' ++ news
    /\ Forall2 (markedBy ids) (utxos s) us'
    /\ Forall (fun v => In (Utxo.tx_id v) ids) news }.

(** Spent by one of the transactions [ids]. *)
Definition spentIn (ids : list string) (u : Utxo.t) : bool :=
  match Utxo.spent_in_tx u with
  | Some t => memb t ids
  | None => false
  end.

(** What undoing the transactions [ids] does to a row that survives. *)
Definition unspendIn (ids : list string) (u : Utxo.t) : Utxo.t :=
  if spentIn ids u then setSpent false None u else u.


(** The inputs of a block, in the order [processBlock] spends them. *)
Definition allInputs (block : Block.t) : list Input.t :=
  flat_map Transaction.inputs (Block.transactions block).

(** Every row with this key is spent, and there is one. *)
Definition allSpent (key : string * Z) (s : Store) : Prop :=
  (exists u, In u (utxos s) /\ utxoKey u = key)
  /\ forall u, In u (utxos s) -> utxoKey u = key -> Utxo.is_spent u = true.

(** The same ledger as far as a request can tell: the same rows in the three
    chain tables and the same balance for every address. *)
Definition sameLedger (s s' : Store) : Prop :=
  sameTables s s' /\ forall a, storedBalance s a = storedBalance s' a.

(** The heights 1, ..., n. *)
Definition heightsUpTo (n : nat) : list Z := map Z.of_nat (seq 1 n).

(** The rows [createUTXO] inserts for the outputs of a transaction, from
    [index] on. *)
Fixpoint outputRows (txId : string) (index : Z) (outputs : list Output.t) (blockHeight : Z)
  : list Utxo.t :=
  match outputs with
  | [] => []
  | output :: rest =>
      Utxo.mk txId index (Output.address output) (Output.value output) false None blockHeight
      :: outputRows txId (index + 1) rest blockHeight
  end.

(** The [UPDATE] of [spendUTXO] on one row. *)
Definition markInput (spendingTxId : string) (u : Utxo.t) (input : Input.t) : Utxo.t :=
  if refersTo input u then setSpent true (Some spendingTxId) u else u.

(** What the inputs of a transaction, and of the transactions of a block in
    their order, make of a row. *)
Definition spendInputs (transaction : Transaction.t) (u : Utxo.t) : Utxo.t :=
  fold_left (markInput (Transaction.id transaction)) (Transaction.inputs transaction) u.

Definition spendBlock (txs : list Transaction.t) (u : Utxo.t) : Utxo.t :=
  fold_left (fun u tx => spendInputs tx u) txs u.

(** The rows an accepted block adds to [transactions] and to [utxos]. *)
Definition blockTxRows (block : Block.t) : list TxRow.t :=
  map (fun tx => TxRow.mk (Transaction.id tx) (Block.id block) (Block.height block))
      (Block.transactions block).

Definition blockOutputRows (block : Block.t) : list Utxo.t :=
  flat_map (fun tx => outputRows (Transaction.id tx) 0 (Transaction.outputs tx)
                                 (Block.height block))
           (Block.transactions block).

(** While the transactions [done] of a block of height [h] have been applied
    on top of the store [s] and the keys [spent] have been spent: the row of
    the block is in place, the transaction table holds the transactions of
    [s] and [done], every unspent row of [s] whose key is not in [spent] is
    still there, and every row belongs to a transaction of [s] or [done]. *)
Record Ready (s : Store) (h : Z) (spent : list (string * Z)) (done : list string)
    (cur : Store) : Prop := {
  ready_block : exists b, In b (blocks cur) /\ BlockRow.height b = h;
  ready_txs : forall id, In id (map TxRow.id (transactions cur)) ->
    In id (map TxRow.id (transactions s)) \/ In id done;
  ready_unspent : forall u, In u (utxos s) -> Utxo.is_spent u = false ->
    ~ In (utxoKey u) spent -> In u (utxos cur);
  ready_rows : forall u, In u (utxos cur) ->
    In (Utxo.tx_id u) (map TxRow.id (transactions s)) \/ In (Utxo.tx_id u) done }.

(** The columns of [utxos] take an output at position [index]. *)
Definition outputFits (index : Z) (output : Output.t) : Prop :=
  integerParameter index = Ok tt
  /\ textParameter (Output.address output) = Ok tt
  /\ bigintParameter (Output.value output) = Ok tt
  /\ varchar 128 (Output.address output) = Ok tt.

Fixpoint outputsFit (index : Z) (outputs : list Output.t) : Prop :=
  match outputs with
  | [] => True
  | output :: rest => outputFits index output /\ outputsFit (index + 1) rest
  end.

(** The columns take the id of a transaction and its outputs. *)
Definition transactionFits (transaction : Transaction.t) : Prop :=
  textParameter (Transaction.id transaction) = Ok tt
  /\ varchar 64 (Transaction.id transaction) = Ok tt
  /\ outputsFit 0 (Transaction.outputs transaction).


(** What makes [processBlock] apply a block that passed [validateBlock]:
    its id and the ids of its transactions are new, its transactions and
    their inputs are pairwise distinct, and the columns take its height and
    its transactions. *)
Definition applicable (s : Store) (block : Block.t) : Prop :=
  ~ In (Block.id block) (map BlockRow.id (blocks s))
  /\ NoDup (map Transaction.id (Block.transactions block))
  /\ (forall tx, In tx (Block.transactions block) ->
        ~ In (Transaction.id tx) (map TxRow.id (transactions s)))
  /\ NoDup (map inputKey (allInputs block))
  /\ integerParameter (Block.height block) = Ok tt
  /\ Forall transactionFits (Block.transactions block).

(** The last character is a blank. *)
Fixpoint endsWithBlank (s : string) : bool :=
  match s with
  | EmptyString => false
  | String c EmptyString => Ascii.eqb c " "%char
  | String _ rest => endsWithBlank rest
  end.

(** No transaction id and no address of the block ends in a blank: none is
    stored cut to the width of its column. *)
Definition tidy (block : Block.t) : Prop :=
  Forall (fun tx =>
            endsWithBlank (Transaction.id tx) = false
            /\ Forall (fun o => endsWithBlank (Output.address o) = false)
                      (Transaction.outputs tx))
         (Block.transactions block).

(** The balances, the values of the rows and the values the block pays stay
    together within [BIGINT]: no balance leaves the type while the block is
    applied. *)
Definition withinBigint (s : Store) (block : Block.t) : Prop :=
  sumAbs (map Balance.balance (address_balances s))
  + sumAbs (map Utxo.value (utxos s))
  + sumAbs (map Output.value (flat_map Transaction.outputs (Block.transactions block)))
  <= 9223372036854775807.

(** What the outputs of a block pay to an address. *)
Definition received (block : Block.t) (address : string) : Z :=
  sumZ (map Output.value
            (filter (fun o => String.eqb (Output.address o) address)
                    (flat_map Transaction.outputs (Block.transactions block)))).

(** The unspent rows of the store that an input of the block names. *)
Definition namedRows (s : Store) (block : Block.t) : list Utxo.t :=
  filter (fun u => negb (Utxo.is_spent u)
                   && existsb (fun i => refersTo i u) (allInputs block))
         (utxos s).

(** The value of all unspent rows. *)
Definition totalUnspent (s : Store) : Z :=
  sumZ (map Utxo.value (filter (fun u => negb (Utxo.is_spent u)) (utxos s))).

(** The values of the rows the inputs of a transaction resolve to. *)
Definition inputValues (s : Store) (transaction : Transaction.t) : list Z :=
  map (fun i => match unspentRows s i with
                | u :: _ => Utxo.value u
                | [] => 0
                end) (Transaction.inputs transaction).

(** The magnitudes of the input values and of the output values of the
    transaction each add up to at most [2 ^ 53]: its sums are exact. *)
Definition exactSums (s : Store) (transaction : Transaction.t) : Prop :=
  sumAbs (inputValues s transaction) <= safeBound
  /\ sumAbs (map Output.value (Transaction.outputs transaction)) <= safeBound.

(** What the transactions without inputs of a block create. *)
Definition minted (block : Block.t) : Z :=
  sumZ (map (fun tx => match Transaction.inputs tx with
                       | [] => sumZ (map Output.value (Transaction.outputs tx))
                       | _ :: _ => 0
                       end)
            (Block.transactions block)).

(** The rows a chain of accepted blocks puts in the tables. *)
Definition chainBlockRows (bs : list Block.t) : list BlockRow.t :=
  map (fun b => BlockRow.mk (Block.id b) (Block.height b)) bs.

Definition chainTxRows (bs : list Block.t) : list TxRow.t := flat_map blockTxRows bs.

Definition chainOutputRows (bs : list Block.t) : list Utxo.t := flat_map blockOutputRows bs.

(** Some input of the chain names the row. *)
Definition namedBy (bs : list Block.t) (u : Utxo.t) : bool :=
  existsb (fun i => refersTo i u) (flat_map allInputs bs).

(** The block id in the words of the specification: the transaction ids in
    byte-wise ascending order. *)
Definition bytewiseId (block : Block.t) : string :=
  SHA256.hex (decimal (Block.height block)
              ++ String.concat "" (sortBy String.leb
                                     (map Transaction.id (Block.transactions block)))).

(** * Example ledgers and blocks *)

(** A block with a wrong id whose transactions are not in the order of
    their ids. *)
Definition swappedBlock : Block.t :=
  Block.mk "invalid" 1
    [createTestTransaction "tx2" [] [Output.mk "addr2" 7];
     createTestTransaction "tx1" [] [Output.mk "addr1" 10]].

(** The test "should reject transaction with mismatched input/output values". *)
Module Mismatch.
Definition block1 := createTestBlock 1
  [createTestTransaction "tx1" [] [Output.mk "addr1" 10]].
Definition store1 : Store := fst (processBlock emptyStore block1).
Definition tx2 := createTestTransaction "tx2" [Input.mk "tx1" 0]
  [Output.mk "addr2" 6; Output.mk "addr3" 5].
Definition block2 := createTestBlock 2 [tx2].
End Mismatch.

(** Two transaction ids that the code units and the bytes order differently:
    U+FF5E is FF5E in UTF-16 and EF BD 9E in UTF-8, U+1F600 is the pair
    D83D DE00 and the bytes F0 9F 98 80. *)
Module Astral.
Definition transactions : list Transaction.t :=
  [createTestTransaction "～" [] [Output.mk "addr1" 1];
   createTestTransaction "😀" [] [Output.mk "addr2" 1]].
Definition block : Block.t := createTestBlock 1 transactions.
Definition bytewise : Block.t := Block.mk (bytewiseId block) 1 transactions.
End Astral.

(** Values next to [2 ^ 53]: the inputs of [tx2] are worth
    [2 ^ 53 + 2] and its output [2 ^ 53]. *)
Module Rounding.
Definition block1 : Block.t := createTestBlock 1
  [createTestTransaction "tx1" []
     [Output.mk "a" 9007199254740992; Output.mk "b" 1; Output.mk "c" 1]].
Definition store1 : Store := fst (postBlocks emptyStore block1).
Definition tx2 : Transaction.t := createTestTransaction "tx2"
  [Input.mk "tx1" 0; Input.mk "tx1" 1; Input.mk "tx1" 2]
  [Output.mk "d" 9007199254740992].
Definition block2 : Block.t := createTestBlock 2 [tx2].
Definition store2 : Store := fst (postBlocks store1 block2).
End Rounding.

(** The first block of a chain, minting [value] to [address]. *)
Definition mintBlock (address : string) (value : Z) : Block.t :=
  createTestBlock 1 [createTestTransaction "tx1" [] [Output.mk address value]].

(** Two transactions in one block, the test suite's way. *)
Module TwoMints.
Definition block : Block.t := createTestBlock 1
  [createTestTransaction "a" [] [Output.mk "x" 10];
   createTestTransaction "b" [] [Output.mk "y" 5]].
Definition store : Store := fst (postBlocks emptyStore block).
End TwoMints.

(** What the order costs when [processBlock] is given a block that
    [validateBlock] would refuse: "b" spends the output of "a" inside the
    block, the rollback undoes "a" first, and the balance of x ends at -10. *)
Module UnvalidatedChain.
Definition block : Block.t := createTestBlock 1
  [createTestTransaction "a" [] [Output.mk "x" 10];
   createTestTransaction "b" [Input.mk "a" 0] [Output.mk "y" 10]].
Definition store : Store := fst (processBlock emptyStore block).
End UnvalidatedChain.

(** The same above a first block: the second block, given to [processBlock]
    without [validateBlock], pays p and q and spends the output of p inside
    the block. *)
Module UnvalidatedSecond.
Definition block1 : Block.t := createTestBlock 1
  [createTestTransaction "tx1" [] [Output.mk "genesis" 5]].
Definition block2 : Block.t := createTestBlock 2
  [createTestTransaction "a" [] [Output.mk "p" 7; Output.mk "q" 5];
   createTestTransaction "b" [Input.mk "a" 0] [Output.mk "r" 7]].
Definition store1 : Store := fst (postBlocks emptyStore block1).
Definition store2 : Store := fst (processBlock store1 block2).
End UnvalidatedSecond.

(** A block whose second transaction spends the output of its first. *)
Module ChainInBlock.
Definition block : Block.t := createTestBlock 1
  [createTestTransaction "tx1" [] [Output.mk "addr1" 100];
   createTestTransaction "tx2" [Input.mk "tx1" 0] [Output.mk "addr2" 100]].
End ChainInBlock.

(** The store with one unspent output [tx1:0] of value 10, and blocks of
    height 2 that refer to it twice. *)
Module DoubleSpend.
Definition block1 : Block.t := createTestBlock 1
  [createTestTransaction "tx1" [] [Output.mk "addr1" 10]].
Definition store1 : Store := fst (postBlocks emptyStore block1).
(** Twice in one transaction, the outputs worth both references. *)
Definition sameTransaction : Block.t := createTestBlock 2
  [createTestTransaction "tx2" [Input.mk "tx1" 0; Input.mk "tx1" 0]
     [Output.mk "addr2" 20]].
(** Twice in one transaction, the outputs worth the one row. *)
Definition sameTransactionOnce : Block.t := createTestBlock 2
  [createTestTransaction "tx2" [Input.mk "tx1" 0; Input.mk "tx1" 0]
     [Output.mk "addr2" 10]].
(** In two transactions of one block. *)
Definition twoTransactions : Block.t := createTestBlock 2
  [createTestTransaction "tx2" [Input.mk "tx1" 0] [Output.mk "addr2" 10];
   createTestTransaction "tx3" [Input.mk "tx1" 0] [Output.mk "addr3" 10]].
(** In two blocks. *)
Definition spend : Block.t := createTestBlock 2
  [createTestTransaction "tx2" [Input.mk "tx1" 0] [Output.mk "addr2" 10]].
Definition store2 : Store := fst (postBlocks store1 spend).
Definition spendAgain : Block.t := createTestBlock 3
  [createTestTransaction "tx3" [Input.mk "tx1" 0] [Output.mk "addr3" 10]].
End DoubleSpend.

(** A second block that uses the transaction id of the first again. *)
Module ReusedId.
Definition block1 : Block.t := createTestBlock 1
  [createTestTransaction "tx1" [] [Output.mk "addr1" 10]].
Definition store1 : Store := fst (postBlocks emptyStore block1).
Definition block2 : Block.t := createTestBlock 2
  [createTestTransaction "tx1" [] [Output.mk "addr2" 5]].
End ReusedId.

(** Ten blocks, each with one transaction without inputs; the first and
    the tenth have the same hash input, "1" followed by "0a" and "10"
    followed by "a". *)
Module IdCollision.
Definition mint (height : Z) (id : string) : Block.t :=
  createTestBlock height [createTestTransaction id [] [Output.mk "addr" 1]].
Definition chain : list Block.t :=
  [mint 1 "0a"; mint 2 "t2"; mint 3 "t3"; mint 4 "t4"; mint 5 "t5";
   mint 6 "t6"; mint 7 "t7"; mint 8 "t8"; mint 9 "t9"].
Definition block10 : Block.t := mint 10 "a".
End IdCollision.

(** * Properties *)

(** ** SHA-256 test vectors (FIPS 180-4) *)

Example sha256_test_abc :
  SHA256.hex "abc" = "ba7816bf8f01cfea414140de5dae2223b00361a396177a9cb410ff61f20015ad".
Proof. vm_compute. reflexivity. Qed.

Example sha256_test_empty :
  SHA256.hex "" = "e3b0c44298fc1c149afbf4c8996fb92427ae41e4649b934ca495991b7852b855".
Proof. vm_compute. reflexivity. Qed.

Example sha256_test_two_blocks :
  SHA256.hex "abcdbcdecdefdefgefghfghighijhijkijkljklmklmnlmnomnopnopq"
  = "248d6a61d20638b8e5c026930c3e6039a33ce45964ff2167f6ecedd419db06c1".
Proof. vm_compute. reflexivity. Qed.

(** The digest of a string with a character of two bytes, as the program
    computes it. *)
Example sha256_test_utf8 :
  SHA256.hex "tx-é" = "0d53235c829ca20f5471ce7ed52828e82da2998ebf213cc7ad125e4dd45011ac"
  /\ Text.utf8 "tx-é" = [116; 120; 45; 195; 169]
  /\ Text.codePoints "tx-é" = [116; 120; 45; 233].
Proof. vm_compute. repeat split. Qed.

(** ** The digest is 64 lowercase hexadecimal characters *)

Lemma stringForall_append (p : ascii -> bool) (s1 s2 : string) :
  stringForall p (s1 ++ s2)%string = stringForall p s1 && stringForall p s2.
Proof. induction s1 as [|c s1 IH]; simpl; [reflexivity|]. now rewrite IH, andb_assoc. Qed.

Lemma length_append (s1 s2 : string) :
  String.length (s1 ++ s2)%string = (String.length s1 + String.length s2)%nat.
Proof. induction s1 as [|c s1 IH]; simpl; [reflexivity|]. now rewrite IH. Qed.

Lemma hexChar_lower (n : Z) : 0 <= n < 16 -> isLowerHex (SHA256.hexChar n) = true.
Proof.
  intros H.
  assert (forallb (fun k => isLowerHex (SHA256.hexChar (Z.of_nat k))) (seq 0 16) = true)
    as Hall by reflexivity.
  rewrite forallb_forall in Hall. specialize (Hall (Z.to_nat n)).
  rewrite Z2Nat.id in Hall by lia. apply Hall, in_seq. lia.
Qed.

Lemma hexOfWord_format (digits : nat) :
  forall w acc,
    stringForall isLowerHex (SHA256.hexOfWord digits w acc) = stringForall isLowerHex acc
    /\ String.length (SHA256.hexOfWord digits w acc) = (digits + String.length acc)%nat.
Proof.
  induction digits as [|d IH]; intros w acc; simpl; [auto|].
  destruct (IH (w / 16) (String (SHA256.hexChar (w mod 16)) acc)) as [-> ->]. simpl.
  rewrite hexChar_lower by (apply Z.mod_pos_bound; lia). split; [reflexivity | lia].
Qed.

Lemma concat_format (ws : list string) :
  Forall (fun w => stringForall isLowerHex w = true /\ String.length w = 8%nat) ws ->
  stringForall isLowerHex (String.concat "" ws) = true
  /\ String.length (String.concat "" ws) = (8 * List.length ws)%nat.
Proof.
  induction 1 as [|w ws [Hw Hl] Hws [IH1 IH2]]; [auto|].
  destruct ws as [|w' ws]; simpl in *; [split; [assumption | lia]|].
  rewrite stringForall_append, length_append, Hw, Hl, IH1, IH2. split; [reflexivity | lia].
Qed.

Lemma round_length (st : list Z) (kw : Z * Z) :
  List.length st = 8%nat -> List.length (SHA256.round st kw) = 8%nat.
Proof.
  intros H. do 9 (destruct st as [|? st]; try discriminate). reflexivity.
Qed.

Lemma compress_length (hash block : list Z) :
  List.length hash = 8%nat -> List.length (SHA256.compress hash block) = 8%nat.
Proof.
  intros H. unfold SHA256.compress. rewrite length_map, length_combine, H.
  assert (forall kws st, List.length st = 8%nat ->
            List.length (fold_left SHA256.round kws st) = 8%nat) as Hfold.
  { induction kws as [|kw kws IH]; simpl; intros st Hst; [assumption|].
    now apply IH, round_length. }
  now rewrite Hfold.
Qed.

Lemma digest_length (msg : list Z) : List.length (SHA256.digest msg) = 8%nat.
Proof.
  unfold SHA256.digest.
  generalize (SHA256.chunks (List.length (SHA256.wordsOfBytes (SHA256.pad msg)))
                (SHA256.wordsOfBytes (SHA256.pad msg))).
  assert (List.length SHA256.initialHash = 8%nat) as H by reflexivity.
  revert H. generalize SHA256.initialHash.
  intros hash H blocks. revert hash H.
  induction blocks as [|b blocks IH]; simpl; intros hash H; [assumption|].
  now apply IH, compress_length.
Qed.

Lemma sha256_hex_format (s : string) :
  stringForall isLowerHex (SHA256.hex s) = true /\ String.length (SHA256.hex s) = 64%nat.
Proof.
  Local Transparent SHA256.hex.
  unfold SHA256.hex.
  destruct (concat_format (map (fun w => SHA256.hexOfWord 8 w "")
                               (SHA256.digest (Text.utf8 s)))) as [H1 H2].
  - apply Forall_map, Forall_forall. intros w _.
    destruct (hexOfWord_format 8 w "") as [-> ->]. auto.
  - rewrite length_map, digest_length in H2. auto.
Qed.

(** The digest is never unfolded below: it is computed by [vm_compute]
    and compared as a term. *)
Global Opaque SHA256.hex.

(** ** Scenario A *)

Example scenarioA_forward :
  option_map ScenarioA.balancesOf
    (submitAll emptyStore [ScenarioA.block1; ScenarioA.block2; ScenarioA.block3])
  = Some (map (fun n => Ok (Number.Finite n)) [0; 150; 400; 300; 150]).
Proof. vm_compute. reflexivity. Qed.

Example scenarioA_rollback :
  option_map (fun s => ScenarioA.balancesOf (rollbackToHeight s 1))
    (submitAll emptyStore [ScenarioA.block1; ScenarioA.block2; ScenarioA.block3])
  = Some (map (fun n => Ok (Number.Finite n)) [1000; 0; 0; 0; 0]).
Proof. vm_compute. reflexivity. Qed.

(** * Properties *)

(** ** The exception monad *)

Lemma bind_Ok {A B : Type} (r : result A) (k : A -> result B) (b : B) :
  bind r k = Ok b <-> exists a, r = Ok a /\ k a = Ok b.
Proof.
  split.
  - destruct r as [a|e]; simpl; intros H; [exists a; auto | discriminate].
  - intros (a & -> & H). exact H.
Qed.

Ltac inv_bind H :=
  let a := fresh "s" in
  let Ha := fresh "H" a in
  apply bind_Ok in H; destruct H as (a & Ha & H).

Lemma then_Ok {B : Type} (c : result unit) (k : result B) (b : B) :
  (c ;;; k) = Ok b <-> c = Ok tt /\ k = Ok b.
Proof.
  destruct c as [[]|e]; simpl; split; try tauto; [discriminate|]. intros [H _]. discriminate.
Qed.

Lemma then_Err {B : Type} (c : result unit) (k : result B) (e : error) :
  (c ;;; k) = Err e <-> c = Err e \/ (c = Ok tt /\ k = Err e).
Proof.
  destruct c as [[]|e']; simpl; split.
  - auto.
  - intros [H|[_ H]]; [discriminate | exact H].
  - intros [= ->]. auto.
  - intros [[= ->]|[H _]]; [reflexivity | discriminate].
Qed.

(** Peels the conversions of the parameters off a statement that ran. *)
Ltac passed H :=
  repeat (let Hc := fresh "Hpar" in apply then_Ok in H; destruct H as [Hc H]).

(** What a refused parameter raises. *)
Lemma textParameter_Err (s : string) (e : error) :
  textParameter s = Err e -> isDataError e.
Proof.
  unfold textParameter. destruct (existsb _ _); [|discriminate]. intros [= <-]. now eexists.
Qed.

Lemma numericParameter_Err (fits : Z -> bool) (n : Z) (e : error) :
  numericParameter fits n = Err e -> isDataError e.
Proof.
  unfold numericParameter. destruct (_ <=? _); [intros [= <-]; now eexists|].
  destruct (fits n); [discriminate|]. intros [= <-]. now eexists.
Qed.

Lemma varchar_Err (n : nat) (s : string) (e : error) :
  varchar n s = Err e -> isDataError e.
Proof.
  unfold varchar. destruct (_ <=? _)%nat; [discriminate|]. intros [= <-]. now eexists.
Qed.

Lemma integerParameter_Ok (n : Z) :
  integerParameter n = Ok tt <-> -2147483648 <= n <= 2147483647.
Proof.
  unfold integerParameter, numericParameter, isInteger. split.
  - destruct (Z.leb_spec 1000000000000000000000 (Z.abs n)); [discriminate|].
    destruct (Z.leb_spec (-2147483648) n), (Z.leb_spec n 2147483647); simpl;
      try discriminate. lia.
  - intros H.
    destruct (Z.leb_spec 1000000000000000000000 (Z.abs n)); [lia|].
    destruct (Z.leb_spec (-2147483648) n), (Z.leb_spec n 2147483647); simpl;
      try reflexivity; lia.
Qed.

Lemma bigintParameter_Ok (n : Z) :
  bigintParameter n = Ok tt <-> -9223372036854775808 <= n <= 9223372036854775807.
Proof.
  unfold bigintParameter, numericParameter, isBigint. split.
  - destruct (Z.leb_spec 1000000000000000000000 (Z.abs n)); [discriminate|].
    destruct (Z.leb_spec (-9223372036854775808) n), (Z.leb_spec n 9223372036854775807); simpl;
      try discriminate. lia.
  - intros H.
    destruct (Z.leb_spec 1000000000000000000000 (Z.abs n)); [lia|].
    destruct (Z.leb_spec (-9223372036854775808) n), (Z.leb_spec n 9223372036854775807); simpl;
      try reflexivity; lia.
Qed.

Lemma unit_result (r : result unit) : (exists e, r = Err e) \/ r = Ok tt.
Proof. destruct r as [[]|e]; eauto. Qed.

Lemma forAll_Ok {A : Type} (f : A -> result unit) (xs : list A) :
  forAll f xs = Ok tt <-> Forall (fun x => f x = Ok tt) xs.
Proof.
  induction xs as [|x xs IH]; simpl.
  - split; auto.
  - split.
    + intros H. apply bind_Ok in H. destruct H as ([] & Hx & Hxs).
      constructor; [assumption | now apply IH].
    + intros H. inversion H as [|? ? Hx Hxs]; subst. rewrite Hx. simpl. now apply IH.
Qed.

(** The loop raises what its first failing element raises. *)
Lemma forAll_first_failure {A : Type} (f : A -> result unit) (pre post : list A)
    (x : A) (e : error) :
  Forall (fun y => f y = Ok tt) pre -> f x = Err e ->
  forAll f (pre ++ x :: post) = Err e.
Proof.
  intros Hpre Hx. induction Hpre as [|y pre Hy _ IH]; simpl.
  - now rewrite Hx.
  - now rewrite Hy.
Qed.

Lemma forAll_Err_inv {A : Type} (f : A -> result unit) (xs : list A) (e : error) :
  forAll f xs = Err e -> exists x, In x xs /\ f x = Err e.
Proof.
  induction xs as [|x xs IH]; simpl; [discriminate|].
  destruct (f x) as [[]|e'] eqn:Hx; simpl.
  - intros H. destruct (IH H) as (y & Hy & He). exists y. auto.
  - intros [= ->]. exists x. auto.
Qed.

Lemma forEach_app {S A : Type} (f : S -> A -> result S) (xs ys : list A) (s : S) :
  forEach f (xs ++ ys) s = (s' <- forEach f xs s ;; forEach f ys s').
Proof.
  revert s. induction xs as [|x xs IH]; intros s; simpl; [reflexivity|].
  destruct (f s x); simpl; auto.
Qed.

(** An invariant of the loop body is an invariant of the loop. *)
Lemma forEach_invariant {S A : Type} (f : S -> A -> result S) (P : S -> Prop)
    (xs : list A) :
  (forall s x s', In x xs -> P s -> f s x = Ok s' -> P s') ->
  forall s s', P s -> forEach f xs s = Ok s' -> P s'.
Proof.
  induction xs as [|x xs IH]; simpl; intros Hstep s s' Hs H.
  - now inversion H; subst.
  - inv_bind H. apply (IH (fun s x s' Hx => Hstep s x s' (or_intror Hx)) s0 s'); auto.
    apply (Hstep s x s0); auto.
Qed.

Lemma mapM_Ok {A B : Type} (f : A -> result B) (xs : list A) (ys : list B) :
  mapM f xs = Ok ys <-> Forall2 (fun x y => f x = Ok y) xs ys.
Proof.
  revert ys. induction xs as [|x xs IH]; intros ys; simpl.
  - split; [intros [= <-]; constructor | intros H; now inversion H].
  - split.
    + intros H. apply bind_Ok in H. destruct H as (y & Hy & H).
      apply bind_Ok in H. destruct H as (ys' & Hys & [= <-]).
      constructor; [assumption | now apply IH].
    + intros H. inversion H as [|? y ? ys' Hy Hys]; subst.
      rewrite Hy. simpl. apply IH in Hys. now rewrite Hys.
Qed.

Lemma mapM_Err {A B : Type} (f : A -> result B) (xs : list A) (e : error) :
  mapM f xs = Err e -> exists x, In x xs /\ f x = Err e.
Proof.
  induction xs as [|x xs IH]; simpl; [discriminate|].
  destruct (f x) as [y|e'] eqn:Hx; simpl.
  - destruct (mapM f xs) as [ys|e'']; simpl; [discriminate|].
    intros [= ->]. destruct (IH eq_refl) as (z & Hz & He). exists z. auto.
  - intros [= ->]. exists x. auto.
Qed.

Lemma mapM_fails {A B : Type} (f : A -> result B) (xs : list A) (x : A) :
  In x xs -> (forall y, f x <> Ok y) -> forall ys, mapM f xs <> Ok ys.
Proof.
  intros Hin Hx ys H. apply mapM_Ok in H.
  revert ys H. induction xs as [|z xs IH]; intros ys H; [contradiction|].
  inversion H as [|? y ? ys' Hy Hys]; subst. destruct Hin as [->|Hin].
  - exact (Hx y Hy).
  - exact (IH Hin ys' Hys).
Qed.

(** ** Sorting *)

Section SortingFacts.
Context {A : Type} (le : A -> A -> bool).
Hypothesis le_total : forall x y, le x y = true \/ le y x = true.

Lemma insertSorted_perm (x : A) (l : list A) :
  Permutation (x :: l) (insertSorted le x l).
Proof.
  induction l as [|y l IH]; simpl; [reflexivity|].
  destruct (le x y); [reflexivity|].
  rewrite perm_swap. now constructor.
Qed.

Lemma sortBy_perm (l : list A) : Permutation l (sortBy le l).
Proof.
  induction l as [|x l IH]; simpl; [constructor|].
  rewrite <- insertSorted_perm. now constructor.
Qed.

Lemma sortBy_In (l : list A) (x : A) : In x (sortBy le l) <-> In x l.
Proof.
  split; apply Permutation_in; [symmetry|]; apply sortBy_perm.
Qed.

Lemma insertSorted_HdRel (x a : A) (l : list A) :
  le a x = true -> HdRel (fun u v => le u v = true) a l ->
  HdRel (fun u v => le u v = true) a (insertSorted le x l).
Proof.
  intros Hax Hl. destruct l as [|y l]; simpl.
  - now constructor.
  - destruct (le x y); constructor; auto. now inversion Hl.
Qed.

Lemma insertSorted_sorted (x : A) (l : list A) :
  Sorted (fun u v => le u v = true) l ->
  Sorted (fun u v => le u v = true) (insertSorted le x l).
Proof.
  induction 1 as [|y l Hl IH Hhd]; simpl.
  - repeat constructor.
  - destruct (le x y) eqn:Hxy.
    + constructor; [now constructor | now constructor].
    + constructor; [assumption|].
      apply insertSorted_HdRel; auto.
      destruct (le_total x y) as [H|H]; congruence.
Qed.

Lemma sortBy_sorted (l : list A) : Sorted (fun u v => le u v = true) (sortBy le l).
Proof.
  induction l as [|x l IH]; simpl; [constructor|].
  now apply insertSorted_sorted.
Qed.

Hypothesis le_trans : forall x y z, le x y = true -> le y z = true -> le x z = true.
Hypothesis le_antisym : forall x y, le x y = true -> le y x = true -> x = y.

Lemma insertSorted_comm (x y : A) (l : list A) :
  insertSorted le x (insertSorted le y l) = insertSorted le y (insertSorted le x l).
Proof.
  induction l as [|z l IH]; simpl.
  - destruct (le x y) eqn:Hxy, (le y x) eqn:Hyx; auto.
    + now rewrite (le_antisym x y).
    + destruct (le_total x y); congruence.
  - destruct (le y z) eqn:Hyz, (le x z) eqn:Hxz; simpl;
      rewrite ?Hyz, ?Hxz; auto.
    + destruct (le x y) eqn:Hxy, (le y x) eqn:Hyx; auto.
      * now rewrite (le_antisym x y).
      * destruct (le_total x y); congruence.
    + assert (le x y = false) as ->.
      { destruct (le x y) eqn:Hxy; auto. rewrite (le_trans x y z) in Hxz; auto. }
      reflexivity.
    + assert (le y x = false) as ->.
      { destruct (le y x) eqn:Hyx; auto. rewrite (le_trans y x z) in Hyz; auto. }
      reflexivity.
    + now rewrite IH.
Qed.

(** The sorted list does not depend on the order of the input. *)
Lemma sortBy_permutation_invariant (l1 l2 : list A) :
  Permutation l1 l2 -> sortBy le l1 = sortBy le l2.
Proof.
  induction 1 as [| x l1 l2 _ IH | x y l | l1 l2 l3 _ IH1 _ IH2]; simpl.
  - reflexivity.
  - now rewrite IH.
  - apply insertSorted_comm.
  - congruence.
Qed.

Lemma insertSorted_below (x : A) (l : list A) :
  Forall (fun y => le x y = true) l -> insertSorted le x l = x :: l.
Proof.
  intros H. destruct H as [|y l Hy _]; simpl; [reflexivity|]. now rewrite Hy.
Qed.

(** Any sorted arrangement of the elements is the one [sortBy] returns. *)
Lemma sorted_unique (l l' : list A) :
  Permutation l l' -> Sorted (fun u v => le u v = true) l' -> sortBy le l = l'.
Proof.
  intros Hperm Hsorted. rewrite (sortBy_permutation_invariant l l' Hperm).
  clear Hperm l. apply Sorted_StronglySorted in Hsorted.
  2: { intros x y z. apply le_trans. }
  induction Hsorted as [|x l _ IH Hx]; simpl; [reflexivity|].
  rewrite IH. now apply insertSorted_below.
Qed.
End SortingFacts.

(** The order of [String.leb] is the lexicographic order of the character codes. *)
Lemma string_compare_trans (a b c : string) :
  String.compare a b <> Gt -> String.compare b c <> Gt -> String.compare a c <> Gt.
Proof.
  revert b c. induction a as [|x a IH]; intros [|y b] [|z c]; simpl; try congruence.
  unfold Ascii.compare.
  destruct (N.compare_spec (N_of_ascii x) (N_of_ascii y)) as [Hxy|Hxy|Hxy];
    destruct (N.compare_spec (N_of_ascii y) (N_of_ascii z)) as [Hyz|Hyz|Hyz];
    destruct (N.compare_spec (N_of_ascii x) (N_of_ascii z)) as [Hxz|Hxz|Hxz];
    intros; try congruence; try lia; eauto.
Qed.

Lemma string_leb_trans (a b c : string) :
  String.leb a b = true -> String.leb b c = true -> String.leb a c = true.
Proof.
  unfold String.leb. intros Hab Hbc.
  pose proof (string_compare_trans a b c) as H.
  destruct (String.compare a b), (String.compare b c), (String.compare a c);
    try discriminate; auto; exfalso; apply H; congruence.
Qed.

(** *** The order of [ORDER BY id] *)

Lemma orderById_perm (l : list string) : Permutation l (orderById l).
Proof. apply sortBy_perm. Qed.

Lemma orderById_sorted (l : list string) :
  Sorted (fun a b => String.leb a b = true) (orderById l).
Proof. apply sortBy_sorted, String.leb_total. Qed.

Lemma orderById_permutation_invariant (l1 l2 : list string) :
  Permutation l1 l2 -> orderById l1 = orderById l2.
Proof.
  apply sortBy_permutation_invariant.
  - apply String.leb_total.
  - apply string_leb_trans.
  - apply String.leb_antisym.
Qed.

Lemma orderById_In (l : list string) (x : string) : In x (orderById l) <-> In x l.
Proof. apply sortBy_In. Qed.

(** *** The order of [sort()] *)

Lemma compareUnits_opp (a b : list Z) : compareUnits b a = CompOpp (compareUnits a b).
Proof.
  revert b. induction a as [|x a IH]; intros [|y b]; simpl; try reflexivity.
  rewrite (Z.compare_antisym x y). destruct (x ?= y); simpl; auto.
Qed.

Lemma compareUnits_eq (a b : list Z) : compareUnits a b = Eq -> a = b.
Proof.
  revert b. induction a as [|x a IH]; intros [|y b]; simpl; try discriminate; auto.
  destruct (x ?= y) eqn:E; try discriminate.
  apply Z.compare_eq in E. intros H. now rewrite E, (IH b H).
Qed.

Lemma compareUnits_refl (a : list Z) : compareUnits a a = Eq.
Proof. induction a as [|x a IH]; simpl; [reflexivity|]. now rewrite Z.compare_refl. Qed.

Lemma compareUnits_trans (a b c : list Z) :
  compareUnits a b = Lt -> compareUnits b c = Lt -> compareUnits a c = Lt.
Proof.
  revert b c. induction a as [|x a IH]; intros [|y b] [|z c]; simpl; try discriminate; auto.
  destruct (Z.compare_spec x y) as [Hxy|Hxy|Hxy]; try discriminate;
    destruct (Z.compare_spec y z) as [Hyz|Hyz|Hyz]; try discriminate;
    destruct (Z.compare_spec x z) as [Hxz|Hxz|Hxz]; intros; try lia; eauto.
Qed.

Lemma codeUnitLeb_total (a b : string) : codeUnitLeb a b = true \/ codeUnitLeb b a = true.
Proof.
  unfold codeUnitLeb. rewrite (compareUnits_opp (Text.codeUnits a) (Text.codeUnits b)).
  destruct (compareUnits (Text.codeUnits a) (Text.codeUnits b)); simpl; auto.
  apply String.leb_total.
Qed.

Lemma codeUnitLeb_antisym (a b : string) :
  codeUnitLeb a b = true -> codeUnitLeb b a = true -> a = b.
Proof.
  unfold codeUnitLeb. rewrite (compareUnits_opp (Text.codeUnits a) (Text.codeUnits b)).
  destruct (compareUnits (Text.codeUnits a) (Text.codeUnits b)); simpl; try discriminate.
  apply String.leb_antisym.
Qed.

Lemma codeUnitLeb_trans (a b c : string) :
  codeUnitLeb a b = true -> codeUnitLeb b c = true -> codeUnitLeb a c = true.
Proof.
  unfold codeUnitLeb.
  destruct (compareUnits (Text.codeUnits a) (Text.codeUnits b)) eqn:Eab; try discriminate;
    destruct (compareUnits (Text.codeUnits b) (Text.codeUnits c)) eqn:Ebc; try discriminate.
  - apply compareUnits_eq in Eab, Ebc. rewrite Eab, Ebc, compareUnits_refl.
    apply string_leb_trans.
  - apply compareUnits_eq in Eab. rewrite Eab, Ebc. reflexivity.
  - apply compareUnits_eq in Ebc. rewrite <- Ebc, Eab. reflexivity.
  - now rewrite (compareUnits_trans _ _ _ Eab Ebc).
Qed.

Lemma sortStrings_perm (l : list string) : Permutation l (sortStrings l).
Proof. apply sortBy_perm. Qed.

Lemma sortStrings_sorted (l : list string) :
  Sorted (fun a b => codeUnitLeb a b = true) (sortStrings l).
Proof. apply sortBy_sorted, codeUnitLeb_total. Qed.

Lemma sortStrings_permutation_invariant (l1 l2 : list string) :
  Permutation l1 l2 -> sortStrings l1 = sortStrings l2.
Proof.
  apply sortBy_permutation_invariant.
  - apply codeUnitLeb_total.
  - apply codeUnitLeb_trans.
  - apply codeUnitLeb_antisym.
Qed.

Lemma sortStrings_In (l : list string) (x : string) : In x (sortStrings l) <-> In x l.
Proof. apply sortBy_In. Qed.

(** *** Strings of ASCII characters *)

Lemma codePoints_ascii (s : string) : isAscii s = true -> Text.codePoints s = Text.utf8 s.
Proof.
  unfold Text.codePoints, Text.utf8.
  induction s as [|c s IH]; simpl; [reflexivity|].
  intros H. apply andb_prop in H. destruct H as [Hc Hs].
  apply N.ltb_lt in Hc.
  assert ((Z.of_N (N_of_ascii c) <? 128) = true) as -> by (apply Z.ltb_lt; lia).
  now rewrite (IH Hs).
Qed.

Lemma flat_map_utf16 (l : list Z) :
  Forall (fun c => c < 65536) l -> flat_map Text.utf16 l = l.
Proof.
  induction 1 as [|c l Hc _ IH]; simpl; [reflexivity|].
  unfold Text.utf16 at 1. apply Z.ltb_lt in Hc. rewrite Hc. simpl. now rewrite IH.
Qed.

Lemma utf8_bytes (s : string) : Forall (fun c => c < 65536) (Text.utf8 s).
Proof.
  unfold Text.utf8. apply Forall_map, Forall_forall. intros c _.
  pose proof (N_ascii_bounded c). lia.
Qed.

Lemma codeUnits_ascii (s : string) : isAscii s = true -> Text.codeUnits s = Text.utf8 s.
Proof.
  intros H. unfold Text.codeUnits. rewrite (codePoints_ascii s H).
  apply flat_map_utf16, utf8_bytes.
Qed.

Lemma length_ascii (s : string) : isAscii s = true -> Text.length s = String.length s.
Proof.
  intros H. unfold Text.length. rewrite (codePoints_ascii s H). unfold Text.utf8.
  rewrite length_map. clear H. induction s as [|c s IH]; simpl; congruence.
Qed.

(** On bytes, the order of the code units is the order of [String.compare]. *)
Lemma compareUnits_utf8 (a b : string) :
  compareUnits (Text.utf8 a) (Text.utf8 b) = String.compare a b.
Proof.
  unfold Text.utf8.
  revert b. induction a as [|x a IH]; intros [|y b]; simpl; try reflexivity.
  rewrite N2Z.inj_compare. unfold Ascii.compare.
  destruct (N_of_ascii x ?= N_of_ascii y)%N; auto.
Qed.

Lemma codeUnitLeb_ascii (a b : string) :
  isAscii a = true -> isAscii b = true -> codeUnitLeb a b = String.leb a b.
Proof.
  intros Ha Hb. unfold codeUnitLeb.
  rewrite (codeUnits_ascii a Ha), (codeUnits_ascii b Hb), compareUnits_utf8.
  unfold String.leb. destruct (String.compare a b); reflexivity.
Qed.

Lemma insertSorted_ext {A : Type} (le le' : A -> A -> bool) (x : A) (l : list A) :
  (forall y, In y l -> le x y = le' x y) -> insertSorted le x l = insertSorted le' x l.
Proof.
  induction l as [|y l IH]; simpl; intros H; [reflexivity|].
  rewrite <- (H y) by auto. destruct (le x y); [reflexivity|].
  now rewrite IH by auto.
Qed.

Lemma sortBy_ext {A : Type} (le le' : A -> A -> bool) (l : list A) :
  (forall x y, In x l -> In y l -> le x y = le' x y) -> sortBy le l = sortBy le' l.
Proof.
  induction l as [|x l IH]; simpl; intros H; [reflexivity|].
  rewrite IH by auto. apply insertSorted_ext. intros y Hy.
  apply H; [now left | right]. revert Hy. apply Permutation_in. symmetry. apply sortBy_perm.
Qed.

(** For ids of ASCII characters [sort()] orders the bytes, as [ORDER BY id]
    does. *)
Lemma sortStrings_ascii (l : list string) :
  Forall (fun s => isAscii s = true) l -> sortStrings l = orderById l.
Proof.
  intros H. apply sortBy_ext. intros x y Hx Hy. rewrite Forall_forall in H.
  apply codeUnitLeb_ascii; auto.
Qed.

(** ** Numbers *)

Lemma round53_exact (n : Z) : 0 <= n <= safeBound -> Number.round53 n = n.
Proof.
  intros H. unfold Number.round53.
  destruct (Z.eq_dec n safeBound) as [->|Hn]; [reflexivity|].
  assert ((Z.log2 n - 52 <=? 0) = true) as ->; [|reflexivity].
  apply Z.leb_le. destruct (Z.eq_dec n 0) as [->|H0]; [simpl; lia|].
  assert (Z.log2 n < 53); [|lia].
  apply Z.log2_lt_pow2; [lia|]. unfold safeBound in *. change (2 ^ 53) with 9007199254740992. lia.
Qed.

Lemma overflow_above : safeBound < Number.overflow.
Proof. reflexivity. Qed.

Lemma ofInteger_exact (z : Z) : Z.abs z <= safeBound -> Number.ofInteger z = Number.Finite z.
Proof.
  intros H. unfold Number.ofInteger. rewrite round53_exact by lia.
  assert ((Number.overflow <=? Z.abs z) = false) as ->.
  { apply Z.leb_gt. pose proof overflow_above. lia. }
  now rewrite Z.mul_comm, Z.abs_sgn.
Qed.

Lemma add_exact (a b : Z) :
  Z.abs (a + b) <= safeBound ->
  Number.add (Number.Finite a) (Number.Finite b) = Number.Finite (a + b).
Proof. intros H. simpl. now apply ofInteger_exact. Qed.

Lemma sum_exact_from (l : list Z) :
  forall acc, Z.abs acc + sumAbs l <= safeBound ->
    fold_left (fun sum value => Number.add sum (Number.ofInteger value)) l (Number.Finite acc)
    = Number.Finite (acc + sumZ l).
Proof.
  unfold sumAbs. induction l as [|v l IH]; simpl; intros acc H.
  - now rewrite Z.add_0_r.
  - assert (0 <= sumZ (map Z.abs l)) as Hpos.
    { clear. induction l as [|x l IH]; simpl; lia. }
    rewrite (ofInteger_exact v) by lia. simpl.
    rewrite (ofInteger_exact (acc + v)) by lia.
    rewrite IH by lia. f_equal. lia.
Qed.

(** Sums whose magnitudes stay within [2 ^ 53] are exact. *)
Lemma sum_exact (l : list Z) : sumAbs l <= safeBound -> Number.sum l = Number.Finite (sumZ l).
Proof. intros H. unfold Number.sum. now rewrite sum_exact_from by (simpl; lia). Qed.

Lemma parseFloat_exact (z : Z) : Z.abs z <= safeBound -> Number.parseFloat z = Number.Finite z.
Proof. apply ofInteger_exact. Qed.

(** The doubles next to [2 ^ 53]: the odd integers round to an even one. *)
Example round53_examples :
  Number.ofInteger 9007199254740993 = Number.Finite 9007199254740992
  /\ Number.ofInteger 9007199254740995 = Number.Finite 9007199254740996
  /\ Number.add (Number.Finite 9007199254740992) (Number.Finite 1)
     = Number.Finite 9007199254740992
  /\ Number.ofInteger (-9223372036854775807) = Number.Finite (-9223372036854775808)
  /\ Number.ofInteger (2 ^ 1024) = Number.PosInfinity
  /\ Number.add Number.PosInfinity Number.NegInfinity = Number.NaN
  /\ Number.strictEquals Number.NaN Number.NaN = false.
Proof. vm_compute. repeat split. Qed.

(** ** Block height *)

Lemma maxHeight_fold (bs : list BlockRow.t) (acc : option Z) :
  fold_left (fun acc b =>
               match acc with
               | None => Some (BlockRow.height b)
               | Some m => Some (Z.max m (BlockRow.height b))
               end) bs acc
  = match acc, bs with
    | None, [] => None
    | Some m, _ => Some (fold_left Z.max (map BlockRow.height bs) m)
    | None, b :: bs' => Some (fold_left Z.max (map BlockRow.height bs') (BlockRow.height b))
    end.
Proof.
  revert acc. induction bs as [|b bs IH]; intros [m|]; simpl; auto; now rewrite IH.
Qed.

Lemma fold_max_spec (l : list Z) (m : Z) :
  let r := fold_left Z.max l m in
  (r = m \/ In r l) /\ m <= r /\ Forall (fun h => h <= r) l.
Proof.
  revert m. induction l as [|h l IH]; intros m; simpl.
  - repeat split; auto. lia.
  - destruct (IH (Z.max m h)) as (Hr & Hm & Hall). split; [|split].
    + destruct Hr as [Hr|Hr]; [|now auto].
      destruct (Z.max_spec m h) as [[_ E]|[_ E]]; rewrite E in Hr; [right; left|left]; congruence.
    + lia.
    + constructor; [lia | assumption].
Qed.

(** [maxHeight] is the greatest stored height, and [None] on an empty table. *)
Lemma maxHeight_spec (s : Store) :
  match maxHeight s with
  | None => blocks s = []
  | Some m => In m (map BlockRow.height (blocks s))
              /\ Forall (fun b => BlockRow.height b <= m) (blocks s)
  end.
Proof.
  unfold maxHeight. rewrite maxHeight_fold.
  destruct (blocks s) as [|b bs]; [reflexivity|].
  destruct (fold_max_spec (map BlockRow.height bs) (BlockRow.height b)) as (Hin & Hle & Hall).
  cbv zeta in *. split.
  - simpl. destruct Hin as [Hin|Hin]; [left; congruence | right; exact Hin].
  - constructor; [assumption|]. now rewrite Forall_map in Hall.
Qed.

Lemma currentHeight_next (s : Store) : currentHeight s + 1 = nextHeight s.
Proof.
  unfold currentHeight, nextHeight, orZero.
  destruct (maxHeight s) as [m|]; [|reflexivity].
  destruct (Z.eqb_spec m 0); lia.
Qed.

Lemma validateBlockHeight_Ok (s : Store) (h : Z) :
  validateBlockHeight s h = Ok tt <-> h = nextHeight s.
Proof.
  unfold validateBlockHeight. rewrite currentHeight_next.
  destruct (Z.eqb_spec h (nextHeight s)); split; congruence.
Qed.

Lemma validateBlockHeight_Err (s : Store) (h : Z) :
  h <> nextHeight s -> validateBlockHeight s h = Err (ValidationError InvalidHeight).
Proof.
  unfold validateBlockHeight. rewrite currentHeight_next.
  destruct (Z.eqb_spec h (nextHeight s)); congruence.
Qed.

Lemma validateBlock_Ok (s : Store) (block : Block.t) :
  validateBlock s block = Ok tt <->
  Block.height block = nextHeight s
  /\ Block.id block = expectedId block
  /\ Forall (fun tx => validateTransaction s tx = Ok tt) (Block.transactions block).
Proof.
  unfold validateBlock. split.
  - intros H. apply bind_Ok in H. destruct H as ([] & Hh & H).
    apply bind_Ok in H. destruct H as ([] & Hid & H).
    apply validateBlockHeight_Ok in Hh. apply forAll_Ok in H.
    unfold validateBlockId in Hid.
    destruct (String.eqb_spec (Block.id block) (expectedId block)); [auto|discriminate].
  - intros (Hh & Hid & Htx).
    apply validateBlockHeight_Ok in Hh. rewrite Hh. simpl.
    unfold validateBlockId. rewrite <- Hid, String.eqb_refl. simpl.
    now apply forAll_Ok.
Qed.

(** A failed [POST /blocks] leaves the store as it was. *)
Lemma postBlocks_store (s : Store) (block : Block.t) :
  snd (postBlocks s block) <> Success -> fst (postBlocks s block) = s.
Proof.
  unfold postBlocks, processBlock.
  destruct (validateBlock s block) as [[]|e]; [|reflexivity].
  destruct (processBlockBody s block) as [s'|e]; simpl; [congruence | reflexivity].
Qed.

Lemma postBlocks_Success (s s' : Store) (block : Block.t) :
  postBlocks s block = (s', Success) <->
  validateBlock s block = Ok tt /\ processBlockBody s block = Ok s'.
Proof.
  unfold postBlocks, processBlock.
  destruct (validateBlock s block) as [[]|e].
  - destruct (processBlockBody s block) as [s1|e]; split.
    + intros [= ->]. auto.
    + intros [_ [= ->]]. reflexivity.
    + intros [= _ H]. destruct e; discriminate.
    + intros [_ H]. discriminate.
  - split; [|intros [H _]; discriminate]. intros [= _ H]. destruct e; discriminate.
Qed.

Lemma postBlocks_validation_failure (s : Store) (block : Block.t) (m : ValidationMessage) :
  validateBlock s block = Err (ValidationError m) ->
  postBlocks s block = (s, ValidationFailure m).
Proof. unfold postBlocks. now intros ->. Qed.

(** C8.  A block is accepted only at the height that follows the greatest
    stored one ([1] on an empty ledger); [POST /blocks] answers every other
    height with the "Invalid block height" validation error and keeps the
    store. *)
Theorem height_monotonicity (s : Store) (block : Block.t) :
  (blocks s = [] -> nextHeight s = 1)
  /\ (forall m, maxHeight s = Some m -> nextHeight s = m + 1)
  /\ (snd (postBlocks s block) = Success -> Block.height block = nextHeight s)
  /\ (Block.height block <> nextHeight s ->
      validateBlock s block = Err (ValidationError InvalidHeight)
      /\ postBlocks s block = (s, ValidationFailure InvalidHeight)).
Proof.
  repeat split.
  - intros H. unfold nextHeight, maxHeight. now rewrite H.
  - intros m H. unfold nextHeight. now rewrite H.
  - intros H. destruct (postBlocks s block) as [s' r] eqn:E. simpl in H. subst r.
    apply postBlocks_Success in E. destruct E as [E _].
    now apply validateBlock_Ok in E.
  - unfold validateBlock. now rewrite validateBlockHeight_Err.
  - apply postBlocks_validation_failure.
    unfold validateBlock. now rewrite validateBlockHeight_Err.
Qed.

Lemma height_monotonicity_witness :
  Block.height (createTestBlock 5 []) <> nextHeight emptyStore
  /\ postBlocks emptyStore (createTestBlock 5 [])
     = (emptyStore, ValidationFailure InvalidHeight).
Proof.
  assert (H : Block.height (createTestBlock 5 []) <> nextHeight emptyStore)
    by (vm_compute; discriminate).
  split; [exact H|].
  exact (proj2 (proj2 (proj2 (proj2 (height_monotonicity emptyStore (createTestBlock 5 [])))) H)).
Defined.

(** ** Block id *)

(** [String.leb] compares character codes, first difference first. *)
Lemma string_leb_bytewise (c1 c2 : ascii) (s1 s2 : string) :
  String.leb "" s2 = true
  /\ String.leb (String c1 s1) "" = false
  /\ String.leb (String c1 s1) (String c2 s2)
     = if (N_of_ascii c1 <? N_of_ascii c2)%N then true
       else if (N_of_ascii c1 =? N_of_ascii c2)%N then String.leb s1 s2
       else false.
Proof.
  repeat split.
  - now destruct s2.
  - unfold String.leb. simpl. unfold Ascii.compare.
    destruct (N.ltb_spec (N_of_ascii c1) (N_of_ascii c2)) as [H|H].
    + apply N.compare_lt_iff in H. now rewrite H.
    + destruct (N.eqb_spec (N_of_ascii c1) (N_of_ascii c2)) as [E|E].
      * rewrite E, N.compare_refl. reflexivity.
      * assert (N_of_ascii c2 < N_of_ascii c1)%N as G by lia.
        apply N.compare_gt_iff in G. now rewrite G.
Qed.

Lemma validateBlockId_Ok (block : Block.t) :
  validateBlockId block = Ok tt <-> Block.id block = expectedId block.
Proof.
  unfold validateBlockId.
  destruct (String.eqb_spec (Block.id block) (expectedId block)); split; congruence.
Qed.

Lemma validateBlockId_Err (block : Block.t) :
  Block.id block <> expectedId block ->
  validateBlockId block = Err (ValidationError InvalidBlockId).
Proof.
  unfold validateBlockId.
  destruct (String.eqb_spec (Block.id block) (expectedId block)); congruence.
Qed.

Lemma expectedId_createTestBlock (height : Z) (txs : list Transaction.t) :
  expectedId (createTestBlock height txs) = Block.id (createTestBlock height txs).
Proof. reflexivity. Qed.

(** The digest is a string the tables take: 64 ASCII characters, none NUL. *)
Lemma lowerHex_ascii (s : string) : stringForall isLowerHex s = true -> isAscii s = true.
Proof.
  unfold isAscii. induction s as [|c s IH]; simpl; [reflexivity|].
  intros H. apply andb_prop in H. destruct H as [Hc Hs]. rewrite (IH Hs), andb_true_r.
  unfold isLowerHex in Hc. apply existsb_exists in Hc. destruct Hc as (d & Hd & E).
  apply Ascii.eqb_eq in E. subst d. simpl in Hd.
  repeat (destruct Hd as [<-|Hd]; [reflexivity|]). contradiction.
Qed.

Lemma lowerHex_text (s : string) : stringForall isLowerHex s = true -> textParameter s = Ok tt.
Proof.
  intros H. unfold textParameter.
  assert (existsb (Z.eqb 0) (Text.utf8 s) = false) as ->; [|reflexivity].
  unfold Text.utf8. induction s as [|c s IH]; simpl in *; [reflexivity|].
  apply andb_prop in H. destruct H as [Hc Hs]. rewrite (IH Hs), orb_false_r.
  unfold isLowerHex in Hc. apply existsb_exists in Hc. destruct Hc as (d & Hd & E).
  apply Ascii.eqb_eq in E. subst d. simpl in Hd.
  repeat (destruct Hd as [<-|Hd]; [reflexivity|]). contradiction.
Qed.

Lemma digest_fits (x : string) :
  textParameter (SHA256.hex x) = Ok tt /\ varchar 64 (SHA256.hex x) = Ok tt.
Proof.
  destruct (sha256_hex_format x) as [Hhex Hlen]. split; [now apply lowerHex_text|].
  unfold varchar. rewrite (length_ascii _ (lowerHex_ascii _ Hhex)), Hlen. reflexivity.
Qed.

Lemma numberToString_decimal (n : Z) :
  Z.abs n < 1000000000000000000000 -> numberToString n = decimal n.
Proof. intros H. unfold numberToString. apply Z.ltb_lt in H. now rewrite H. Qed.

Lemma codeUnitLeb_order (a b : string) :
  codeUnitLeb a b = true -> compareUnits (Text.codeUnits a) (Text.codeUnits b) <> Gt.
Proof.
  unfold codeUnitLeb. destruct (compareUnits _ _); [discriminate | discriminate|].
  intros [=].
Qed.

Lemma Sorted_impl {A : Type} (R R' : A -> A -> Prop) (l : list A) :
  (forall a b, R a b -> R' a b) -> Sorted R l -> Sorted R' l.
Proof.
  intros Himp. induction 1 as [|a l _ IH Hhd]; constructor; [assumption|].
  destruct Hhd; constructor; auto.
Qed.

(** C9.  The expected id is the SHA-256 digest, 64 lowercase hexadecimal
    characters, of the UTF-8 bytes of the height as JavaScript prints it (in
    decimal digits below 1e21) followed by the transaction ids in ascending
    order of their UTF-16 code units, joined without separator.  For ids of
    ASCII characters this is the byte-wise order, and the id is the one the
    specification words.  The expected id is the same for every arrangement
    of the transaction array; [validateBlockId] accepts exactly the blocks
    that carry it and raises "Invalid block ID" otherwise. *)
Theorem block_id_recomputation (s : Store) (block : Block.t) :
  let ids := map Transaction.id (Block.transactions block) in
  expectedId block
    = SHA256.hex (numberToString (Block.height block)
                  ++ String.concat "" (sortStrings ids))%string
  /\ (Z.abs (Block.height block) < 1000000000000000000000 ->
      numberToString (Block.height block) = decimal (Block.height block))
  /\ (stringForall isLowerHex (expectedId block) = true
      /\ String.length (expectedId block) = 64%nat)
  /\ Sorted (fun a b => compareUnits (Text.codeUnits a) (Text.codeUnits b) <> Gt)
            (sortStrings ids)
  /\ Permutation ids (sortStrings ids)
  /\ (Forall (fun id => isAscii id = true) ids ->
      Sorted (fun a b => String.leb a b = true) (sortStrings ids)
      /\ (Z.abs (Block.height block) < 1000000000000000000000 ->
          expectedId block = bytewiseId block))
  /\ (forall txs', Permutation (Block.transactions block) txs' ->
        expectedId (Block.mk (Block.id block) (Block.height block) txs') = expectedId block)
  /\ (validateBlockId block = Ok tt <-> Block.id block = expectedId block)
  /\ (Block.id block <> expectedId block ->
        validateBlockId block = Err (ValidationError InvalidBlockId)
        /\ (Block.height block = nextHeight s ->
            postBlocks s block = (s, ValidationFailure InvalidBlockId))).
Proof.
  cbv zeta. split; [reflexivity|]. split; [apply numberToString_decimal|].
  split; [apply sha256_hex_format|].
  split; [apply (Sorted_impl _ _ _ codeUnitLeb_order), sortStrings_sorted|].
  split; [apply sortStrings_perm|].
  split; [|split; [|split; [apply validateBlockId_Ok|]]].
  - intros Hascii. rewrite (sortStrings_ascii _ Hascii). split; [apply orderById_sorted|].
    intros Hh. unfold expectedId, bytewiseId, hashInput.
    now rewrite (sortStrings_ascii _ Hascii), (numberToString_decimal _ Hh).
  - intros txs' Hperm. unfold expectedId, hashInput. simpl.
    rewrite (sortStrings_permutation_invariant (map Transaction.id txs')
               (map Transaction.id (Block.transactions block))); [reflexivity|].
    apply Permutation_map. now symmetry.
  - intros Hid. split; [now apply validateBlockId_Err|].
    intros Hh. apply postBlocks_validation_failure. unfold validateBlock.
    apply validateBlockHeight_Ok in Hh. rewrite Hh. simpl.
    now rewrite validateBlockId_Err.
Qed.

Lemma block_id_recomputation_witness :
  expectedId (Block.mk "invalid" 1 (rev (Block.transactions swappedBlock)))
    = expectedId swappedBlock
  /\ expectedId swappedBlock = bytewiseId swappedBlock
  /\ postBlocks emptyStore swappedBlock = (emptyStore, ValidationFailure InvalidBlockId).
Proof.
  pose proof (block_id_recomputation emptyStore swappedBlock) as H.
  cbv zeta in H. destruct H as (_ & _ & _ & _ & _ & Hascii & Hperm & _ & Hbad).
  split; [|split].
  - apply (Hperm (rev (Block.transactions swappedBlock))). apply Permutation_rev.
  - apply Hascii; [repeat constructor | reflexivity].
  - apply Hbad; [vm_compute; discriminate | reflexivity].
Defined.

(** The ids U+FF5E and U+1F600: [sort()] puts the second first, the bytes
    put the first first, and the block that carries the id of the byte-wise
    order is refused. *)
Lemma block_id_recomputation_counterexample :
  sortStrings (map Transaction.id Astral.transactions) = ["😀"; "～"]
  /\ sortBy String.leb (map Transaction.id Astral.transactions) = ["～"; "😀"]
  /\ expectedId Astral.block <> bytewiseId Astral.block
  /\ Block.id Astral.bytewise = bytewiseId Astral.bytewise
  /\ postBlocks emptyStore Astral.bytewise = (emptyStore, ValidationFailure InvalidBlockId)
  /\ snd (postBlocks emptyStore Astral.block) = Success.
Proof. vm_compute. repeat split; discriminate. Qed.

Example hashInput_sorts :
  hashInput swappedBlock = "1tx1tx2".
Proof. vm_compute. reflexivity. Qed.

Example decimal_examples :
  decimal 0 = "0" /\ decimal 12 = "12" /\ decimal 2147483647 = "2147483647"
  /\ decimal (-5) = "-5".
Proof. vm_compute. repeat split. Qed.

(** From 1e21 on a number is printed with an exponent, in the fewest digits
    that read back as the same double. *)
Example numberToString_examples :
  numberToString 999999999999999868928 = "999999999999999868928"
  /\ numberToString 1000000000000000000000 = "1e+21"
  /\ numberToString 1180591620717411303424 = "1.1805916207174113e+21"
  /\ numberToString (-1000000000000000013287555072) = "-1e+27"
  /\ numberToString 99999999999999991611392 = "1e+23".
Proof. vm_compute. repeat split. Qed.

(** ** Value conservation *)

Lemma getInputValue_Ok (s : Store) (input : Input.t) (v : Z) :
  getInputValue s input = Ok v <->
  inputAccepted input
  /\ exists row rest, unspentRows s input = row :: rest /\ v = Utxo.value row.
Proof.
  unfold getInputValue, inputAccepted. rewrite !then_Ok.
  destruct (unspentRows s input) as [|row rest]; split.
  - intros (_ & _ & H). discriminate.
  - intros (_ & ? & ? & H & _). discriminate.
  - intros (H1 & H2 & [= <-]). split; [auto | eauto].
  - intros ([H1 H2] & ? & ? & [= <- <-] & ->). auto.
Qed.

Lemma getInputValue_Err (s : Store) (input : Input.t) (e : error) :
  getInputValue s input = Err e ->
  (e = ValidationError InputNotFound /\ inputAccepted input /\ unspentRows s input = [])
  \/ isDataError e.
Proof.
  unfold getInputValue, inputAccepted. rewrite !then_Err.
  intros [H|[H1 [H|[H2 H]]]].
  - right. now apply textParameter_Err in H.
  - right. now apply numericParameter_Err in H.
  - destruct (unspentRows s input); [|discriminate]. injection H as <-. auto.
Qed.

Lemma getInputValue_not_found (s : Store) (input : Input.t) :
  inputAccepted input -> unspentRows s input = [] ->
  getInputValue s input = Err (ValidationError InputNotFound).
Proof. unfold getInputValue. intros [-> ->] ->. reflexivity. Qed.


Lemma validateTransaction_resolved (s : Store) (tx : Transaction.t) (vs : list Z) :
  Transaction.inputs tx <> [] ->
  mapM (getInputValue s) (Transaction.inputs tx) = Ok vs ->
  validateTransaction s tx =
    if Number.strictEquals (Number.sum vs)
                           (Number.sum (map Output.value (Transaction.outputs tx)))
    then Ok tt
    else Err (ValidationError ValueMismatch).
Proof.
  unfold validateTransaction. intros Hne ->. simpl.
  destruct (Transaction.inputs tx); congruence.
Qed.

(** The inputs of a transaction that validates are accepted as parameters
    and name unspent rows. *)
Lemma validateTransaction_Ok_resolves (s : Store) (tx : Transaction.t) :
  validateTransaction s tx = Ok tt ->
  exists vs, mapM (getInputValue s) (Transaction.inputs tx) = Ok vs.
Proof.
  unfold validateTransaction.
  destruct (mapM (getInputValue s) (Transaction.inputs tx)) as [vs|e]; [eauto | discriminate].
Qed.

Lemma mapM_Ok_each {A B : Type} (f : A -> result B) (xs : list A) (ys : list B) (x : A) :
  mapM f xs = Ok ys -> In x xs -> exists y, f x = Ok y.
Proof.
  intros H. apply mapM_Ok in H. induction H as [|x' y xs ys Hy _ IH]; [contradiction|].
  intros [<-|Hin]; eauto.
Qed.

Lemma validateTransaction_Ok_inputs (s : Store) (tx : Transaction.t) :
  validateTransaction s tx = Ok tt ->
  forall input, In input (Transaction.inputs tx) -> unspentRows s input <> [].
Proof.
  intros H input Hin Hnone. apply validateTransaction_Ok_resolves in H.
  destruct H as (vs & H). destruct (mapM_Ok_each _ _ _ input H Hin) as (v & Hv).
  apply getInputValue_Ok in Hv. destruct Hv as (_ & ? & ? & Hv & _). congruence.
Qed.

Lemma validateTransaction_Ok_accepted (s : Store) (tx : Transaction.t) :
  validateTransaction s tx = Ok tt ->
  forall input, In input (Transaction.inputs tx) -> inputAccepted input.
Proof.
  intros H input Hin. apply validateTransaction_Ok_resolves in H.
  destruct H as (vs & H). destruct (mapM_Ok_each _ _ _ input H Hin) as (v & Hv).
  now apply getInputValue_Ok in Hv.
Qed.

(** Whatever input of a transaction does not resolve, the transaction fails
    with "Referenced input ... not found or already spent", provided the
    server takes its inputs as parameters. *)
Lemma validateTransaction_unresolved (s : Store) (tx : Transaction.t) (input : Input.t) :
  Forall inputAccepted (Transaction.inputs tx) ->
  In input (Transaction.inputs tx) -> unspentRows s input = [] ->
  validateTransaction s tx = Err (ValidationError InputNotFound).
Proof.
  intros Hacc Hin Hnone. unfold validateTransaction.
  destruct (mapM (getInputValue s) (Transaction.inputs tx)) as [vs|e] eqn:E.
  - exfalso. destruct (mapM_Ok_each _ _ _ input E Hin) as (v & Hv).
    apply getInputValue_Ok in Hv. destruct Hv as (_ & ? & ? & Hv & _). congruence.
  - apply mapM_Err in E. destruct E as (i & Hi & Hf).
    rewrite Forall_forall in Hacc. destruct (Hacc i Hi) as [H1 H2].
    unfold getInputValue in Hf. rewrite H1, H2 in Hf. simpl in Hf.
    destruct (unspentRows s i); [|discriminate]. now injection Hf as <-.
Qed.

Lemma validateBlock_first_failure (s : Store) (block : Block.t)
    (pre post : list Transaction.t) (tx : Transaction.t) (e : error) :
  Block.height block = nextHeight s ->
  Block.id block = expectedId block ->
  Block.transactions block = pre ++ tx :: post ->
  Forall (fun t => validateTransaction s t = Ok tt) pre ->
  validateTransaction s tx = Err e ->
  validateBlock s block = Err e.
Proof.
  intros Hh Hid Htxs Hpre Htx. unfold validateBlock.
  apply validateBlockHeight_Ok in Hh. rewrite Hh. simpl.
  apply validateBlockId_Ok in Hid. rewrite Hid. simpl.
  rewrite Htxs. now apply forAll_first_failure.
Qed.

Lemma validateBlock_rejects (s : Store) (block : Block.t) (tx : Transaction.t) :
  In tx (Block.transactions block) -> validateTransaction s tx <> Ok tt ->
  fst (postBlocks s block) = s /\ snd (postBlocks s block) <> Success.
Proof.
  intros Hin Hbad.
  assert (snd (postBlocks s block) <> Success) as H.
  { intros H. destruct (postBlocks s block) as [s' r] eqn:E. simpl in H. subst r.
    apply postBlocks_Success in E. destruct E as [E _]. apply validateBlock_Ok in E.
    destruct E as (_ & _ & E). rewrite Forall_forall in E. auto. }
  split; [now apply postBlocks_store | exact H].
Qed.

Lemma strictEquals_Finite (a b : Z) :
  Number.strictEquals (Number.Finite a) (Number.Finite b) = true <-> a = b.
Proof. simpl. apply Z.eqb_eq. Qed.




(** ** Balance rows *)

Lemma upsertBalance_lookup (address a : string) (d : Z) (rows : list Balance.t) :
  match filter (fun r => String.eqb (Balance.address r) a) (upsertBalance address d rows) with
  | [] => 0
  | r :: _ => Balance.balance r
  end
  = match filter (fun r => String.eqb (Balance.address r) a) rows with
    | [] => 0
    | r :: _ => Balance.balance r
    end + (if String.eqb address a then d else 0).
Proof.
  induction rows as [|r rows IH]; simpl.
  - destruct (String.eqb address a); simpl; lia.
  - destruct (String.eqb_spec (Balance.address r) address) as [E|E]; simpl.
    + rewrite E. destruct (String.eqb address a); simpl; lia.
    + destruct (String.eqb_spec (Balance.address r) a) as [E'|E']; simpl.
      * subst a. destruct (String.eqb_spec address (Balance.address r)); [congruence|lia].
      * exact IH.
Qed.

Lemma storedBalance_update (s : Store) (address a : string) (d : Z) :
  storedBalance (updateAddressBalance s address d) a
  = storedBalance s a + (if String.eqb address a then d else 0).
Proof. apply upsertBalance_lookup. Qed.

(** ** Keys, sums and balances *)

Lemma refersTo_key (i : Input.t) (u : Utxo.t) :
  refersTo i u = true <-> utxoKey u = inputKey i.
Proof.
  unfold refersTo, utxoKey, inputKey. rewrite andb_true_iff, String.eqb_eq, Z.eqb_eq.
  split; [intros [-> ->]; reflexivity | intros [= -> ->]; auto].
Qed.

Lemma sameKey_key (u v : Utxo.t) : sameKey u v = true <-> utxoKey v = utxoKey u.
Proof.
  unfold sameKey, utxoKey. rewrite andb_true_iff, String.eqb_eq, Z.eqb_eq.
  split; [intros [-> ->]; reflexivity | intros [= -> ->]; auto].
Qed.

Lemma utxoKey_setSpent (b : bool) (o : option string) (u : Utxo.t) :
  utxoKey (setSpent b o u) = utxoKey u.
Proof. reflexivity. Qed.

Lemma sumZ_app (l1 l2 : list Z) : sumZ (l1 ++ l2) = sumZ l1 + sumZ l2.
Proof. induction l1 as [|x l1 IH]; simpl; lia. Qed.

Lemma unspentSum_contribution (s : Store) (a : string) :
  unspentSum s a = sumZ (map (contribution a) (utxos s)).
Proof.
  unfold unspentSum, contribution. induction (utxos s) as [|u us IH]; simpl; [reflexivity|].
  destruct (ownedUnspent a u); simpl; lia.
Qed.

Lemma sumZ_map_filter_split {A : Type} (f : A -> Z) (p : A -> bool) (l : list A) :
  sumZ (map f l) = sumZ (map f (filter p l)) + sumZ (map f (filter (fun x => negb (p x)) l)).
Proof.
  induction l as [|x l IH]; simpl; [reflexivity|].
  destruct (p x); simpl; lia.
Qed.

Lemma sumZ_map_ext_in {A : Type} (f g : A -> Z) (l : list A) :
  (forall x, In x l -> f x = g x) -> sumZ (map f l) = sumZ (map g l).
Proof. intros H. f_equal. now apply map_ext_in. Qed.

Lemma sumZ_map_add {A : Type} (f g : A -> Z) (l : list A) :
  sumZ (map (fun x => f x + g x) l) = sumZ (map f l) + sumZ (map g l).
Proof. induction l as [|x l IH]; simpl; lia. Qed.

Lemma sumZ_map_zero {A : Type} (f : A -> Z) (l : list A) :
  (forall x, In x l -> f x = 0) -> sumZ (map f l) = 0.
Proof.
  induction l as [|x l IH]; simpl; intros H; [reflexivity|].
  rewrite (H x (or_introl eq_refl)), IH; auto.
Qed.

Lemma sumZ_map_filter_guard {A : Type} (f : A -> Z) (p : A -> bool) (l : list A) :
  sumZ (map f (filter p l)) = sumZ (map (fun x => if p x then f x else 0) l).
Proof. induction l as [|x l IH]; simpl; [reflexivity|]. destruct (p x); simpl; lia. Qed.

(** Rows with the same key are the same row when keys do not repeat. *)
Lemma NoDup_key_eq {A K : Type} (key : A -> K) (l : list A) (x y : A) :
  NoDup (map key l) -> In x l -> In y l -> key x = key y -> x = y.
Proof.
  induction l as [|z l IH]; simpl; intros Hnd Hx Hy Hk; [contradiction|].
  inversion Hnd as [|? ? Hnotin Hnd']; subst.
  destruct Hx as [->|Hx], Hy as [->|Hy]; auto.
  - exfalso. apply Hnotin. rewrite Hk. now apply in_map.
  - exfalso. apply Hnotin. rewrite <- Hk. now apply in_map.
Qed.

Lemma NoDup_map_NoDup {A K : Type} (key : A -> K) (l : list A) :
  NoDup (map key l) -> NoDup l.
Proof.
  induction l as [|z l IH]; simpl; intros Hnd; constructor;
    inversion Hnd as [|? ? Hnotin Hnd']; subst; auto.
  intros Hin. apply Hnotin. now apply in_map.
Qed.

(** Changing the summand at one row of a duplicate-free list. *)
Lemma sumZ_map_change_one {A : Type} (f g : A -> Z) (l : list A) (r : A) :
  NoDup l -> In r l -> (forall x, In x l -> x <> r -> g x = f x) ->
  sumZ (map g l) = sumZ (map f l) + (g r - f r).
Proof.
  induction l as [|x l IH]; simpl; intros Hnd Hin Hext; [contradiction|].
  inversion Hnd as [|? ? Hnotin Hnd']; subst. destruct Hin as [->|Hin].
  - rewrite (sumZ_map_ext_in g f l); [lia|].
    intros y Hy. apply Hext; auto. intros ->. contradiction.
  - rewrite IH; auto. rewrite (Hext x); auto; [lia|]. intros ->. contradiction.
Qed.

(** *** The balance table *)

Lemma storedBalance_setUtxos (s : Store) (us : list Utxo.t) (a : string) :
  storedBalance (setUtxos s us) a = storedBalance s a.
Proof. reflexivity. Qed.

Lemma storedBalance_setTransactions (s : Store) (ts : list TxRow.t) (a : string) :
  storedBalance (setTransactions s ts) a = storedBalance s a.
Proof. reflexivity. Qed.

Lemma storedBalance_setBlocks (s : Store) (bs : list BlockRow.t) (a : string) :
  storedBalance (setBlocks s bs) a = storedBalance s a.
Proof. reflexivity. Qed.

Lemma upsertBalance_addresses (address : string) (d : Z) (rows : list Balance.t) :
  map Balance.address (upsertBalance address d rows)
  = if existsb (fun r => String.eqb (Balance.address r) address) rows
    then map Balance.address rows
    else map Balance.address rows ++ [address].
Proof.
  induction rows as [|r rows IH]; simpl; [reflexivity|].
  destruct (String.eqb (Balance.address r) address) eqn:E; simpl; [reflexivity|].
  rewrite IH. now destruct (existsb _ rows).
Qed.

Lemma upsertBalance_NoDup (address : string) (d : Z) (rows : list Balance.t) :
  NoDup (map Balance.address rows) ->
  NoDup (map Balance.address (upsertBalance address d rows)).
Proof.
  intros Hnd. rewrite upsertBalance_addresses.
  destruct (existsb _ rows) eqn:E; [assumption|].
  apply NoDup_app; [assumption | repeat constructor; simpl; tauto|].
  intros a Ha [<-|[]]. apply in_map_iff in Ha. destruct Ha as (r & Hr & Hin).
  assert (existsb (fun r => String.eqb (Balance.address r) address) rows = true).
  { apply existsb_exists. exists r. split; auto. now apply String.eqb_eq. }
  congruence.
Qed.

(** A fold of balance updates adds the deltas of the address. *)
Lemma storedBalance_fold {A : Type} (addr : A -> string) (delta : A -> Z)
    (l : list A) (s : Store) (a : string) :
  storedBalance
    (fold_left (fun s x => updateAddressBalance s (addr x) (delta x)) l s) a
  = storedBalance s a
    + sumZ (map (fun x => if String.eqb (addr x) a then delta x else 0) l).
Proof.
  revert s. induction l as [|x l IH]; intros s; simpl; [lia|].
  rewrite IH, storedBalance_update. lia.
Qed.

Lemma fold_update_tables {A : Type} (addr : A -> string) (delta : A -> Z)
    (l : list A) (s : Store) :
  let s' := fold_left (fun s x => updateAddressBalance s (addr x) (delta x)) l s in
  blocks s' = blocks s /\ transactions s' = transactions s /\ utxos s' = utxos s.
Proof.
  revert s. induction l as [|x l IH]; intros s; simpl; [auto|].
  destruct (IH (updateAddressBalance s (addr x) (delta x))) as (H1 & H2 & H3).
  cbv zeta in *. now rewrite H1, H2, H3.
Qed.

Lemma fold_update_NoDup {A : Type} (addr : A -> string) (delta : A -> Z)
    (l : list A) (s : Store) :
  NoDup (map Balance.address (address_balances s)) ->
  NoDup (map Balance.address (address_balances
    (fold_left (fun s x => updateAddressBalance s (addr x) (delta x)) l s))).
Proof.
  revert s. induction l as [|x l IH]; intros s H; simpl; [assumption|].
  apply IH. simpl. now apply upsertBalance_NoDup.
Qed.


(** What [getAddressBalance] reads is the stored balance as a double. *)
Lemma getAddressBalance_stored (s : Store) (address : string) :
  textParameter address = Ok tt ->
  getAddressBalance s address = Ok (Number.parseFloat (storedBalance s address)).
Proof.
  intros H. unfold getAddressBalance, storedBalance, balanceRows. rewrite H. simpl.
  destruct (filter _ (address_balances s)); reflexivity.
Qed.

Lemma getAddressBalance_refused (s : Store) (address : string) :
  textParameter address <> Ok tt ->
  exists e, getAddressBalance s address = Err e /\ isDataError e.
Proof.
  intros H. unfold getAddressBalance.
  destruct (textParameter address) as [[]|e] eqn:E; [congruence|].
  exists e. split; [reflexivity | now apply textParameter_Err in E].
Qed.

Lemma getAddressBalance_database (s : Store) (address : string) :
  Database.getAddressBalance s address = getAddressBalance s address.
Proof.
  unfold Database.getAddressBalance, getAddressBalance.
  destruct (textParameter address) as [[]|e]; simpl; [|reflexivity].
  destruct (balanceRows s address); reflexivity.
Qed.

(** ** The ledger invariant *)

Lemma emptyStore_consistent : Consistent emptyStore.
Proof.
  constructor; simpl; try constructor; contradiction.
Qed.

Lemma heights_below_next (s : Store) (b : BlockRow.t) :
  In b (blocks s) -> BlockRow.height b < nextHeight s.
Proof.
  intros Hin. pose proof (maxHeight_spec s) as Hmax. unfold nextHeight.
  destruct (maxHeight s) as [m|].
  - destruct Hmax as [_ Hall]. rewrite Forall_forall in Hall. specialize (Hall b Hin). lia.
  - rewrite Hmax in Hin. contradiction.
Qed.

Lemma nextHeight_positive (s : Store) : Consistent s -> 1 <= nextHeight s.
Proof.
  intros Hc. pose proof (maxHeight_spec s) as Hmax. unfold nextHeight.
  destruct (maxHeight s) as [m|]; [|lia].
  destruct Hmax as [Hin _]. apply in_map_iff in Hin. destruct Hin as (b & <- & Hb).
  pose proof (block_heights_positive s Hc b Hb). lia.
Qed.

Lemma existsb_false_notin {A K : Type} (key : A -> K) (eqb : K -> K -> bool) (k : K)
    (l : list A) :
  (forall x y, eqb x y = true <-> x = y) ->
  existsb (fun x => eqb (key x) k) l = false -> ~ In k (map key l).
Proof.
  intros Heq Hex Hin. apply in_map_iff in Hin. destruct Hin as (x & Hx & Hin).
  assert (existsb (fun x => eqb (key x) k) l = true); [|congruence].
  apply existsb_exists. exists x. split; auto. now apply Heq.
Qed.

Lemma NoDup_snoc {K : Type} (l : list K) (k : K) :
  NoDup l -> ~ In k l -> NoDup (l ++ [k]).
Proof.
  intros Hnd Hk. apply NoDup_app; auto.
  - repeat constructor. simpl. tauto.
  - intros x Hx [<-|[]]. contradiction.
Qed.

Lemma insertBlock_Ok (s s' : Store) (id : string) (h : Z) :
  insertBlock s id h = Ok s' ->
  s' = setBlocks s (blocks s ++ [BlockRow.mk id h])
  /\ ~ In id (map BlockRow.id (blocks s))
  /\ ~ In h (map BlockRow.height (blocks s)).
Proof.
  unfold insertBlock. intros Hrun. passed Hrun. revert Hrun.
  destruct (existsb _ (blocks s)) eqn:E1; [discriminate|].
  destruct (existsb (fun b => BlockRow.height b =? h) (blocks s)) eqn:E2; [discriminate|].
  intros [= <-]. split; [reflexivity|]. split.
  - apply (existsb_false_notin BlockRow.id String.eqb); auto. apply String.eqb_eq.
  - apply (existsb_false_notin BlockRow.height Z.eqb); auto. apply Z.eqb_eq.
Qed.

Lemma insertBlock_consistent (s s' : Store) (id : string) (h : Z) :
  Consistent s -> 1 <= h -> insertBlock s id h = Ok s' -> Consistent s'.
Proof.
  intros Hc Hh Hins. apply insertBlock_Ok in Hins. destruct Hins as (-> & Hid & Hht).
  destruct Hc as [? ? ? ? tx_block0 ? utxo_tx0 ? spent_later0 ? balances_correct0].
    constructor; simpl; auto.
  - rewrite map_app. now apply NoDup_snoc.
  - rewrite map_app. now apply NoDup_snoc.
  - intros b Hb. apply in_app_iff in Hb. destruct Hb as [Hb|[<-|[]]]; auto.
  - intros t Ht. destruct (tx_block0 t Ht) as (b & Hb & Hbt). exists b.
    split; [apply in_app_iff; auto | assumption].
Qed.

Lemma insertTransaction_Ok (s s' : Store) (id : string) (h : Z) :
  insertTransaction s id h = Ok s' ->
  exists b, In b (blocks s) /\ BlockRow.height b = h
    /\ hd_error (filter (fun b => BlockRow.height b =? h) (blocks s)) = Some b
    /\ ~ In id (map TxRow.id (transactions s))
    /\ s' = setTransactions s (transactions s ++ [TxRow.mk id (BlockRow.id b) h]).
Proof.
  unfold insertTransaction. intros Hrun. passed Hrun. revert Hrun.
  destruct (filter _ (blocks s)) as [|b rest] eqn:E; [discriminate|].
  destruct (existsb _ (transactions s)) eqn:E1; [discriminate|].
  intros [= <-]. exists b.
  assert (In b (filter (fun b => BlockRow.height b =? h) (blocks s))) as Hb
    by (rewrite E; now left).
  apply filter_In in Hb. destruct Hb as [Hb Hh]. apply Z.eqb_eq in Hh.
  repeat split; auto.
  apply (existsb_false_notin TxRow.id String.eqb); auto. apply String.eqb_eq.
Qed.

Lemma insertTransaction_processing (H : Z) (old : list string) (s s' : Store) (id : string) :
  Processing H old s -> insertTransaction s id H = Ok s' ->
  Processing H old s' /\ ~ In id old /\ hasTx s' id H.
Proof.
  intros [Hc Hbelow Hold] Hins. apply insertTransaction_Ok in Hins.
  destruct Hins as (b & Hb & Hh & _ & Hid & ->). split; [|split].
  - constructor; simpl; auto.
    + destruct Hc as [? ? ? ? tx_block0 ? utxo_tx0 ? spent_later0 ? balances_correct0].
    constructor; simpl; auto.
      * rewrite map_app. now apply NoDup_snoc.
      * intros t Ht. apply in_app_iff in Ht. destruct Ht as [Ht|[<-|[]]]; auto.
        exists b. simpl. auto.
      * intros u Hu. destruct (utxo_tx0 u Hu) as (t & Ht & Htu). exists t.
        split; [apply in_app_iff; auto | assumption].
      * intros u Hu Hs. destruct (spent_later0 u Hu Hs) as (t & Ht & Htu). exists t.
        split; [apply in_app_iff; auto | assumption].
    + intros x Hx. rewrite map_app. apply in_app_iff. left. now apply Hold.
  - intros Hin. apply Hid. now apply Hold.
  - exists (TxRow.mk id (BlockRow.id b) H). simpl. split; [|auto].
    apply in_app_iff. right. now left.
Qed.

Lemma spendUTXO_Ok (s s' : Store) (input : Input.t) (txid : string) :
  spendUTXO s input txid = Ok s' ->
  exists row,
    In row (utxos s) /\ refersTo input row = true /\ Utxo.is_spent row = false
    /\ s' = updateAddressBalance
              (setUtxos s (map (fun u => if refersTo input u
                                         then setSpent true (Some txid) u else u) (utxos s)))
              (Utxo.address row) (- Utxo.value row).
Proof.
  unfold spendUTXO. intros Hrun. passed Hrun. revert Hrun. destruct (unspentRows s input) as [|row rest] eqn:E; [discriminate|].
  intros [= <-]. exists row.
  assert (In row (unspentRows s input)) as Hrow by (rewrite E; now left).
  apply filter_In in Hrow. destruct Hrow as [Hin Hp]. apply andb_true_iff in Hp.
  destruct Hp as [Hr Hs]. apply negb_true_iff in Hs. auto.
Qed.

Lemma map_key_mark (input : Input.t) (txid : string) (us : list Utxo.t) :
  map utxoKey (map (fun u => if refersTo input u then setSpent true (Some txid) u else u) us)
  = map utxoKey us.
Proof.
  rewrite map_map. apply map_ext. intros u. now destruct (refersTo input u).
Qed.

Lemma contribution_spent (a : string) (b : option string) (u : Utxo.t) :
  contribution a (setSpent true b u) = 0.
Proof. unfold contribution, ownedUnspent. simpl. now rewrite andb_false_r. Qed.

Lemma contribution_unspent (a : string) (u : Utxo.t) :
  Utxo.is_spent u = false -> contribution a u = owned a u.
Proof.
  unfold contribution, ownedUnspent, owned. intros ->. simpl. now rewrite andb_true_r.
Qed.

Lemma contribution_is_spent (a : string) (u : Utxo.t) :
  Utxo.is_spent u = true -> contribution a u = 0.
Proof.
  unfold contribution, ownedUnspent. intros ->. simpl. now rewrite andb_false_r.
Qed.

Lemma spendUTXO_processing (H : Z) (old : list string) (s s' : Store)
    (input : Input.t) (txid : string) :
  Processing H old s -> In (Input.txId input) old -> hasTx s txid H ->
  spendUTXO s input txid = Ok s' ->
  Processing H old s' /\ transactions s' = transactions s.
Proof.
  intros [Hc Hbelow Hold] Hin (t & Ht & Htid & Hth) Hsp.
  apply spendUTXO_Ok in Hsp. destruct Hsp as (row & Hrow & Hrefers & Hunspent & ->).
  split; [|reflexivity]. constructor; simpl; auto.
  - destruct Hc as [? ? ? ? tx_block0 ? utxo_tx0 ? spent_later0 ? balances_correct0].
    constructor; simpl; auto.
    + now rewrite map_key_mark.
    + intros u' Hu'. apply in_map_iff in Hu'. destruct Hu' as (u & <- & Hu).
      destruct (utxo_tx0 u Hu) as (t0 & Ht0 & Ht0u). exists t0.
      now destruct (refersTo input u).
    + intros u' Hu'. apply in_map_iff in Hu'. destruct Hu' as (u & <- & Hu).
      destruct (refersTo input u); [discriminate | auto].
    + intros u' Hu'. apply in_map_iff in Hu'. destruct Hu' as (u & <- & Hu).
      destruct (refersTo input u) eqn:Hr; [|auto].
      intros _. exists t. simpl. split; [assumption|]. split; [congruence|].
      rewrite Hth. apply Hbelow; auto.
      apply refersTo_key in Hr. unfold utxoKey, inputKey in Hr.
      injection Hr as E1 E2. now rewrite E1.
    + now apply upsertBalance_NoDup.
    + intros a. rewrite storedBalance_update, storedBalance_setUtxos.
      rewrite balances_correct0, !unspentSum_contribution. simpl. rewrite map_map.
      rewrite (sumZ_map_change_one (contribution a)
                 (fun u => contribution a (if refersTo input u
                                           then setSpent true (Some txid) u else u))
                 (utxos s) row); auto.
      * rewrite Hrefers, contribution_spent, (contribution_unspent a row Hunspent).
        unfold owned. destruct (String.eqb (Utxo.address row) a); lia.
      * now apply (NoDup_map_NoDup utxoKey).
      * intros u Hu Hne. destruct (refersTo input u) eqn:Hr; [|reflexivity].
        exfalso. apply Hne. apply (NoDup_key_eq utxoKey (utxos s)); auto.
        apply refersTo_key in Hr, Hrefers. congruence.
  - intros u' Hu'. apply in_map_iff in Hu'. destruct Hu' as (u & <- & Hu).
    destruct (refersTo input u); simpl; auto.
Qed.

Lemma createUTXO_Ok (s s' : Store) (txid : string) (index : Z) (output : Output.t) (h : Z) :
  createUTXO s txid index output h = Ok s' ->
  ~ In (txid, index) (map utxoKey (utxos s))
  /\ In txid (map TxRow.id (transactions s))
  /\ s' = updateAddressBalance
            (setUtxos s (utxos s ++ [Utxo.mk txid index (Output.address output)
                                       (Output.value output) false None h]))
            (Output.address output) (Output.value output).
Proof.
  unfold createUTXO. intros Hrun. passed Hrun. revert Hrun.
  destruct (existsb _ (utxos s)) eqn:E1; [discriminate|].
  destruct (existsb _ (transactions s)) eqn:E2; simpl; [|discriminate].
  intros [= <-]. repeat split.
  - intros Hin. apply in_map_iff in Hin. destruct Hin as (u & Hk & Hu).
    assert (existsb (fun u => String.eqb (Utxo.tx_id u) txid && (Utxo.output_index u =? index))
              (utxos s) = true); [|congruence].
    apply existsb_exists. exists u. split; auto. inversion Hk; subst.
    now rewrite String.eqb_refl, Z.eqb_refl.
  - apply existsb_exists in E2. destruct E2 as (t & Ht & Hid).
    apply String.eqb_eq in Hid. apply in_map_iff. eauto.
Qed.

Lemma createUTXO_processing (H : Z) (old : list string) (s s' : Store)
    (txid : string) (index : Z) (output : Output.t) :
  Processing H old s -> ~ In txid old -> hasTx s txid H ->
  createUTXO s txid index output H = Ok s' ->
  Processing H old s' /\ transactions s' = transactions s.
Proof.
  intros [Hc Hbelow Hold] Hnew (t & Ht & Htid & Hth) Hcr.
  apply createUTXO_Ok in Hcr. destruct Hcr as (Hkey & _ & ->).
  split; [|reflexivity]. constructor; simpl; auto.
  - destruct Hc as [? ? ? ? tx_block0 ? utxo_tx0 ? spent_later0 ? balances_correct0].
    constructor; simpl; auto.
    + rewrite map_app. now apply NoDup_snoc.
    + intros u Hu. apply in_app_iff in Hu. destruct Hu as [Hu|[<-|[]]]; auto.
      exists t. simpl. auto.
    + intros u Hu. apply in_app_iff in Hu. destruct Hu as [Hu|[<-|[]]]; auto.
    + intros u Hu. apply in_app_iff in Hu. destruct Hu as [Hu|[<-|[]]]; auto.
      discriminate.
    + now apply upsertBalance_NoDup.
    + intros a. rewrite storedBalance_update, storedBalance_setUtxos.
      rewrite balances_correct0, !unspentSum_contribution. simpl.
      rewrite map_app, sumZ_app. simpl. unfold contribution at 3, ownedUnspent. simpl.
      rewrite andb_true_r. destruct (String.eqb (Output.address output) a); lia.
  - intros u Hu. apply in_app_iff in Hu. destruct Hu as [Hu|[<-|[]]]; auto.
    simpl. intros Hin. contradiction.
Qed.

Lemma createOutputs_processing (H : Z) (old : list string) (txid : string)
    (outputs : list Output.t) :
  ~ In txid old ->
  forall (s s' : Store) (index : Z),
    Processing H old s -> hasTx s txid H ->
    createOutputs s txid index outputs H = Ok s' ->
    Processing H old s' /\ transactions s' = transactions s.
Proof.
  intros Hnew. induction outputs as [|o outputs IH]; simpl; intros s s' index Hp Ht Hcr.
  - inversion Hcr; subst. auto.
  - inv_bind Hcr.
    destruct (createUTXO_processing H old s s0 txid index o Hp Hnew Ht Hs0) as [Hp0 Htx0].
    assert (hasTx s0 txid H) as Ht0 by (unfold hasTx; now rewrite Htx0).
    destruct (IH s0 s' (index + 1) Hp0 Ht0 Hcr) as [Hp' Htx']. split; congruence.
Qed.

Lemma spendAll_processing (H : Z) (old : list string) (txid : string)
    (inputs : list Input.t) :
  (forall i, In i inputs -> In (Input.txId i) old) ->
  forall (s s' : Store),
    Processing H old s -> hasTx s txid H ->
    forEach (fun s input => spendUTXO s input txid) inputs s = Ok s' ->
    Processing H old s' /\ transactions s' = transactions s.
Proof.
  induction inputs as [|i inputs IH]; simpl; intros Hold s s' Hp Ht Hsp.
  - inversion Hsp; subst. auto.
  - inv_bind Hsp.
    destruct (spendUTXO_processing H old s s0 i txid Hp (Hold i (or_introl eq_refl)) Ht Hs0)
      as [Hp0 Htx0].
    assert (hasTx s0 txid H) as Ht0 by (unfold hasTx; now rewrite Htx0).
    destruct (IH (fun j Hj => Hold j (or_intror Hj)) s0 s' Hp0 Ht0 Hsp) as [Hp' Htx'].
    split; congruence.
Qed.

Lemma processTransaction_processing (H : Z) (old : list string) (s s' : Store)
    (tx : Transaction.t) :
  Processing H old s ->
  (forall i, In i (Transaction.inputs tx) -> In (Input.txId i) old) ->
  processTransaction s tx H = Ok s' ->
  Processing H old s'.
Proof.
  intros Hp Hold Hpt. unfold processTransaction in Hpt.
  inv_bind Hpt. inv_bind Hpt.
  destruct (insertTransaction_processing H old s s0 _ Hp Hs0) as (Hp0 & Hnew & Ht0).
  destruct (spendAll_processing H old _ _ Hold s0 s1 Hp0 Ht0 Hs1) as [Hp1 Htx1].
  assert (hasTx s1 (Transaction.id tx) H) as Ht1 by (unfold hasTx; now rewrite Htx1).
  now destruct (createOutputs_processing H old _ _ Hnew s1 s' 0 Hp1 Ht1 Hpt).
Qed.

(** Every input of a validated block names a transaction of the store. *)
Lemma validated_inputs_old (s : Store) (block : Block.t) :
  Consistent s -> validateBlock s block = Ok tt ->
  forall tx i, In tx (Block.transactions block) -> In i (Transaction.inputs tx) ->
    In (Input.txId i) (map TxRow.id (transactions s)).
Proof.
  intros Hc Hv tx i Htx Hi. apply validateBlock_Ok in Hv. destruct Hv as (_ & _ & Hall).
  rewrite Forall_forall in Hall.
  pose proof (validateTransaction_Ok_inputs s tx (Hall tx Htx) i Hi) as Hrows.
  destruct (unspentRows s i) as [|row rest] eqn:E; [congruence|].
  assert (In row (unspentRows s i)) as Hrow by (rewrite E; now left).
  apply filter_In in Hrow. destruct Hrow as [Hin Hp]. apply andb_true_iff in Hp.
  destruct Hp as [Hr _]. apply refersTo_key in Hr. inversion Hr as [[Hid Hidx]].
  destruct (utxo_tx s Hc row Hin) as (t & Ht & Htid & _).
  apply in_map_iff. exists t. split; [congruence | assumption].
Qed.

(** A validated block keeps the ledger consistent. *)
Theorem processBlockBody_consistent (s s' : Store) (block : Block.t) :
  Consistent s -> validateBlock s block = Ok tt ->
  processBlockBody s block = Ok s' -> Consistent s'.
Proof.
  intros Hc Hv Hp. pose proof (validated_inputs_old s block Hc Hv) as Hold.
  apply validateBlock_Ok in Hv. destruct Hv as (Hh & _ & _).
  unfold processBlockBody in Hp. inv_bind Hp.
  assert (Processing (Block.height block) (map TxRow.id (transactions s)) s0) as Hp0.
  { pose proof Hs0 as Hins. apply insertBlock_Ok in Hins. destruct Hins as (E & _ & _).
    constructor.
    - apply (insertBlock_consistent s s0 (Block.id block) (Block.height block) Hc); auto.
      rewrite Hh.
      now apply nextHeight_positive.
    - subst s0. simpl. intros u Hu _.
      destruct (utxo_tx s Hc u Hu) as (t & Ht & _ & <-).
      destruct (tx_block s Hc t Ht) as (b & Hb & _ & ->).
      rewrite Hh. now apply heights_below_next.
    - subst s0. simpl. apply incl_refl. }
  apply proc_consistent with (H := Block.height block) (old := map TxRow.id (transactions s)).
  revert Hp0 Hp.
  apply (forEach_invariant
           (fun s tx => processTransaction s tx (Block.height block))
           (Processing (Block.height block) (map TxRow.id (transactions s)))).
  intros s1 tx s2 Htx Hp1 Hpt.
  apply (processTransaction_processing _ _ s1 s2 tx Hp1); auto.
  intros i Hi. now apply (Hold tx i).
Qed.

Lemma postBlocks_consistent (s s' : Store) (block : Block.t) :
  Consistent s -> postBlocks s block = (s', Success) -> Consistent s'.
Proof.
  intros Hc Hp. apply postBlocks_Success in Hp. destruct Hp as [Hv Hp].
  now apply (processBlockBody_consistent s s' block).
Qed.


(** *** What a statement that ran says of its parameters *)

Lemma insertBlock_fits (s s' : Store) (id : string) (h : Z) :
  insertBlock s id h = Ok s' ->
  textParameter id = Ok tt /\ integerParameter h = Ok tt /\ varchar 64 id = Ok tt.
Proof. unfold insertBlock. intros H. passed H. auto. Qed.

Lemma insertTransaction_fits (s s' : Store) (id : string) (h : Z) :
  insertTransaction s id h = Ok s' ->
  textParameter id = Ok tt /\ integerParameter h = Ok tt /\ varchar 64 id = Ok tt.
Proof. unfold insertTransaction. intros H. passed H. auto. Qed.

Lemma spendUTXO_accepted (s s' : Store) (input : Input.t) (txid : string) :
  spendUTXO s input txid = Ok s' -> inputAccepted input.
Proof. unfold spendUTXO, inputAccepted. intros H. passed H. auto. Qed.

Lemma createUTXO_fits (s s' : Store) (txid : string) (index : Z) (output : Output.t) (h : Z) :
  createUTXO s txid index output h = Ok s' ->
  outputFits index output
  /\ textParameter txid = Ok tt /\ varchar 64 txid = Ok tt /\ integerParameter h = Ok tt.
Proof. unfold createUTXO, outputFits. intros H. passed H. auto 10. Qed.

Lemma createOutputs_fit (txid : string) (outputs : list Output.t) (h : Z) :
  forall s s' index,
    createOutputs s txid index outputs h = Ok s' -> outputsFit index outputs.
Proof.
  induction outputs as [|o outputs IH]; simpl; intros s s' index H; [exact I|].
  inv_bind H. split; [now apply createUTXO_fits in Hs0 | eauto].
Qed.

Lemma processTransaction_fits (s s' : Store) (tx : Transaction.t) (h : Z) :
  processTransaction s tx h = Ok s' -> transactionFits tx.
Proof.
  unfold processTransaction, transactionFits. intros H. inv_bind H. inv_bind H.
  apply insertTransaction_fits in Hs0. destruct Hs0 as (H1 & _ & H2).
  split; [assumption|]. split; [assumption|]. now apply createOutputs_fit in H.
Qed.

Lemma processBlockBody_fits (s s' : Store) (block : Block.t) :
  processBlockBody s block = Ok s' ->
  textParameter (Block.id block) = Ok tt
  /\ varchar 64 (Block.id block) = Ok tt
  /\ integerParameter (Block.height block) = Ok tt
  /\ Forall transactionFits (Block.transactions block).
Proof.
  unfold processBlockBody. intros H. inv_bind H.
  apply insertBlock_fits in Hs0. destruct Hs0 as (H1 & H2 & H3).
  repeat split; auto. clear H1 H2 H3. revert s0 H.
  induction (Block.transactions block) as [|tx txs IH]; simpl; intros cur H; [constructor|].
  inv_bind H. constructor; [now apply processTransaction_fits in Hs0 | eauto].
Qed.

(** ** Undoing one transaction *)

Lemma filter_all {A : Type} (p : A -> bool) (l : list A) :
  (forall x, In x l -> p x = true) -> filter p l = l.
Proof.
  induction l as [|x l IH]; simpl; intros H; [reflexivity|].
  rewrite (H x (or_introl eq_refl)), IH; auto.
Qed.

Lemma filter_none {A : Type} (p : A -> bool) (l : list A) :
  (forall x, In x l -> p x = false) -> filter p l = [].
Proof.
  induction l as [|x l IH]; simpl; intros H; [reflexivity|].
  rewrite (H x (or_introl eq_refl)), IH; auto.
Qed.

Lemma NoDup_map_filter {A K : Type} (key : A -> K) (p : A -> bool) (l : list A) :
  NoDup (map key l) -> NoDup (map key (filter p l)).
Proof.
  induction l as [|x l IH]; simpl; intros Hnd; [constructor|].
  inversion Hnd as [|? ? Hnotin Hnd']; subst.
  destruct (p x); simpl; auto. constructor; auto.
  intros Hin. apply Hnotin. apply in_map_iff in Hin. destruct Hin as (y & Hy & Hin).
  apply filter_In in Hin. apply in_map_iff. exists y. tauto.
Qed.

(** The unspend loop, as one pass over the table. *)
Lemma unspend_loop_rows (rows us : list Utxo.t) :
  fold_left (fun us utxo => map (fun u => if sameKey utxo u then setSpent false None u else u) us)
            rows us
  = map (fun u => if existsb (fun utxo => sameKey utxo u) rows
                  then setSpent false None u else u) us.
Proof.
  revert us. induction rows as [|x rows IH]; intros us; simpl.
  - symmetry. apply map_id.
  - rewrite IH, map_map. apply map_ext. intros u.
    destruct (sameKey x u) eqn:E; simpl; [|reflexivity].
    now destruct (existsb _ rows).
Qed.

Lemma unspend_loop_store (rows : list Utxo.t) (s : Store) :
  let s' := fold_left
    (fun s utxo =>
       updateAddressBalance
         (setUtxos s (map (fun u => if sameKey utxo u then setSpent false None u else u)
                          (utxos s)))
         (Utxo.address utxo) (Utxo.value utxo)) rows s in
  blocks s' = blocks s /\ transactions s' = transactions s
  /\ utxos s' = map (fun u => if existsb (fun utxo => sameKey utxo u) rows
                              then setSpent false None u else u) (utxos s)
  /\ (forall a, storedBalance s' a = storedBalance s a + sumZ (map (owned a) rows))
  /\ (NoDup (map Balance.address (address_balances s)) ->
      NoDup (map Balance.address (address_balances s'))).
Proof.
  rewrite <- unspend_loop_rows. revert s.
  induction rows as [|x rows IH]; intros s; simpl.
  - repeat split; auto. intros a. lia.
  - match goal with |- context [fold_left _ rows ?s0] => specialize (IH s0) end.
    cbv zeta in IH. destruct IH as (H1 & H2 & H3 & H4 & H5).
    rewrite H1, H2, H3. simpl. repeat split; auto.
    + intros a. rewrite H4, storedBalance_update, storedBalance_setUtxos.
      unfold owned at 2. lia.
    + intros Hnd. apply H5. simpl. now apply upsertBalance_NoDup.
Qed.

Lemma spentBy_exists (t : string) (us : list Utxo.t) (u : Utxo.t) :
  NoDup (map utxoKey us) -> In u us ->
  existsb (fun utxo => sameKey utxo u) (filter (spentBy t) us) = spentBy t u.
Proof.
  intros Hnd Hu. destruct (spentBy t u) eqn:E.
  - apply existsb_exists. exists u. split; [now apply filter_In|].
    now apply sameKey_key.
  - destruct (existsb _ _) eqn:Ex; [|reflexivity].
    apply existsb_exists in Ex. destruct Ex as (v & Hv & Hk).
    apply filter_In in Hv. destruct Hv as [Hv Hs]. apply sameKey_key in Hk.
    rewrite (NoDup_key_eq utxoKey us u v Hnd Hu Hv Hk) in E. congruence.
Qed.

Lemma deleteTransactionsWhere_tables (p : TxRow.t -> bool) (s : Store) :
  blocks (deleteTransactionsWhere p s) = blocks s
  /\ transactions (deleteTransactionsWhere p s)
     = filter (fun t => negb (p t)) (transactions s)
  /\ address_balances (deleteTransactionsWhere p s) = address_balances s.
Proof. repeat split. Qed.

(** The tables after [rollbackTransaction], when keys do not repeat. *)
Lemma rollbackTransaction_tables (s : Store) (t : string) :
  NoDup (map utxoKey (utxos s)) ->
  let s' := rollbackTransaction s t in
  blocks s' = blocks s
  /\ transactions s' = filter (fun r => negb (String.eqb (TxRow.id r) t)) (transactions s)
  /\ utxos s' = map (unspendIf t) (filter (notOf t) (utxos s))
  /\ (forall a, storedBalance s' a
        = storedBalance s a
          - sumZ (map (owned a) (filter (fun u => String.eqb (Utxo.tx_id u) t) (utxos s)))
          + sumZ (map (owned a) (filter (spentBy t) (filter (notOf t) (utxos s)))))
  /\ (NoDup (map Balance.address (address_balances s)) ->
      NoDup (map Balance.address (address_balances s'))).
Proof.
  intros Hnd. unfold rollbackTransaction.
  set (outputs := filter (fun u => String.eqb (Utxo.tx_id u) t) (utxos s)).
  set (s1 := fold_left _ outputs s).
  destruct (fold_update_tables Utxo.address (fun u => - Utxo.value u) outputs s)
    as (Hb1 & Ht1 & Hu1).
  fold s1 in Hb1, Ht1, Hu1. cbv zeta in Hb1, Ht1, Hu1.
  set (s2 := setUtxos s1 _).
  assert (utxos s2 = filter (notOf t) (utxos s)) as Hu2 by (simpl; now rewrite Hu1).
  set (rows := filter (spentBy t) (utxos s2)).
  set (s3 := fold_left _ rows s2).
  destruct (unspend_loop_store rows s2) as (Hb3 & Ht3 & Hu3 & Hbal3 & Hnd3).
  fold s3 in Hb3, Ht3, Hu3, Hbal3, Hnd3. cbv zeta in Hb3, Ht3, Hu3, Hbal3, Hnd3.
  assert (utxos s3 = map (unspendIf t) (filter (notOf t) (utxos s))) as Hu3'.
  { rewrite Hu3, Hu2. apply map_ext_in. intros u Hu. unfold rows, unspendIf.
    rewrite Hu2, spentBy_exists; auto. now apply NoDup_map_filter. }
  assert (blocks s2 = blocks s1) as Hb2 by reflexivity.
  assert (transactions s2 = transactions s1) as Ht2 by reflexivity.
  cbv zeta. repeat split.
  - change (blocks s3 = blocks s). congruence.
  - change (filter (fun r => negb (String.eqb (TxRow.id r) t)) (transactions s3)
            = filter (fun r => negb (String.eqb (TxRow.id r) t)) (transactions s)).
    congruence.
  - unfold deleteTransactionsWhere. cbn [utxos setUtxos setTransactions].
    rewrite Hu3'. apply filter_all. intros u' Hu'.
    apply in_map_iff in Hu'. destruct Hu' as (u & <- & Hu).
    apply filter_In in Hu. destruct Hu as [_ Hnot].
    apply negb_true_iff. destruct (existsb _ _) eqn:Ex; [|reflexivity].
    apply existsb_exists in Ex. destruct Ex as (r & Hr & Hid).
    apply filter_In in Hr. destruct Hr as [_ Hr]. apply String.eqb_eq in Hid, Hr.
    unfold notOf in Hnot. apply negb_true_iff, String.eqb_neq in Hnot.
    exfalso. apply Hnot. unfold unspendIf in Hid. destruct (spentBy t u); simpl in Hid; congruence.
  - intros a.
    change (storedBalance (deleteTransactionsWhere _ s3) a) with (storedBalance s3 a).
    rewrite Hbal3. change (storedBalance s2 a) with (storedBalance s1 a).
    unfold s1. rewrite storedBalance_fold. unfold rows. rewrite Hu2.
    assert (sumZ (map (fun x => if String.eqb (Utxo.address x) a then - Utxo.value x else 0)
                      outputs) = - sumZ (map (owned a) outputs)) as ->; [|ring].
    clearbody outputs. clear.
    induction outputs as [|o os IH]; simpl; [reflexivity|].
    unfold owned at 1. destruct (String.eqb (Utxo.address o) a); lia.
  - intros Hnda.
    change (address_balances (deleteTransactionsWhere _ s3)) with (address_balances s3).
    apply Hnd3. change (address_balances s2) with (address_balances s1).
    unfold s1. now apply fold_update_NoDup.
Qed.

Lemma spentBy_is_spent (s : Store) (t : string) (u : Utxo.t) :
  Consistent s -> In u (utxos s) -> spentBy t u = true -> Utxo.is_spent u = true.
Proof.
  intros Hc Hu Hs. destruct (Utxo.is_spent u) eqn:E; [reflexivity|].
  unfold spentBy in Hs. now rewrite (unspent_clear s Hc u Hu E) in Hs.
Qed.

Lemma map_key_unspendIf (t : string) (us : list Utxo.t) :
  map utxoKey (map (unspendIf t) us) = map utxoKey us.
Proof.
  rewrite map_map. apply map_ext. intros u. unfold unspendIf. now destruct (spentBy t u).
Qed.

Lemma rollbackTransaction_consistent (s : Store) (t : string) :
  Consistent s -> outputsUnspent s t -> Consistent (rollbackTransaction s t).
Proof.
  intros Hc Hpre.
  destruct (rollbackTransaction_tables s t (utxo_keys_unique s Hc))
    as (Hb & Ht & Hu & Hbal & Hnd).
  cbv zeta in *. constructor; rewrite ?Hb, ?Ht, ?Hu.
  - apply Hc.
  - apply Hc.
  - apply Hc.
  - apply NoDup_map_filter, Hc.
  - intros r Hr. apply filter_In in Hr. now apply (tx_block s Hc).
  - rewrite map_key_unspendIf. apply NoDup_map_filter, Hc.
  - intros u' Hu'. apply in_map_iff in Hu'. destruct Hu' as (u & <- & Hin).
    apply filter_In in Hin. destruct Hin as [Hin Hnot].
    destruct (utxo_tx s Hc u Hin) as (r & Hr & Hid & Hh). exists r.
    assert (Utxo.tx_id (unspendIf t u) = Utxo.tx_id u
            /\ Utxo.block_height (unspendIf t u) = Utxo.block_height u) as [-> ->]
      by (unfold unspendIf; now destruct (spentBy t u)).
    repeat split; auto. apply filter_In. split; [assumption|].
    unfold notOf in Hnot. now rewrite Hid.
  - intros u' Hu'. apply in_map_iff in Hu'. destruct Hu' as (u & <- & Hin).
    apply filter_In in Hin. destruct Hin as [Hin _]. unfold unspendIf.
    destruct (spentBy t u); [reflexivity|]. now apply (unspent_clear s Hc).
  - intros u' Hu'. apply in_map_iff in Hu'. destruct Hu' as (u & <- & Hin).
    apply filter_In in Hin. destruct Hin as [Hin _]. unfold unspendIf.
    destruct (spentBy t u) eqn:Hs; [discriminate|]. intros Hspent.
    destruct (spent_later s Hc u Hin Hspent) as (r & Hr & Hby & Hlt). exists r.
    repeat split; auto. apply filter_In. split; [assumption|].
    unfold spentBy in Hs. rewrite Hby in Hs. now rewrite Hs.
  - apply Hnd, Hc.
  - intros a. rewrite Hbal, (balances_correct s Hc), !unspentSum_contribution, Hu.
    rewrite (sumZ_map_filter_split (contribution a)
               (fun u => String.eqb (Utxo.tx_id u) t) (utxos s)).
    fold (notOf t). rewrite map_map.
    rewrite (sumZ_map_ext_in (contribution a) (owned a)
               (filter (fun u => String.eqb (Utxo.tx_id u) t) (utxos s))).
    2: { intros u Hin. apply filter_In in Hin. destruct Hin as [Hin Ht'].
         apply String.eqb_eq in Ht'. apply contribution_unspent. now apply Hpre. }
    rewrite (sumZ_map_ext_in (fun u => contribution a (unspendIf t u))
               (fun u => contribution a u + (if spentBy t u then owned a u else 0))
               (filter (notOf t) (utxos s))).
    2: { intros u Hin. apply filter_In in Hin. destruct Hin as [Hin _]. unfold unspendIf.
         destruct (spentBy t u) eqn:Hs; [|lia].
         rewrite (contribution_is_spent a u (spentBy_is_spent s t u Hc Hin Hs)).
         now rewrite contribution_unspent. }
    rewrite sumZ_map_add, <- sumZ_map_filter_guard. ring.
Qed.

(** ** Undoing blocks *)

Lemma memb_In (x : string) (l : list string) : memb x l = true <-> In x l.
Proof.
  unfold memb. rewrite existsb_exists. split.
  - intros (y & Hy & E). apply String.eqb_eq in E. now subst.
  - intros H. exists x. split; [assumption | apply String.eqb_refl].
Qed.

Lemma filter_filter {A : Type} (p q : A -> bool) (l : list A) :
  filter p (filter q l) = filter (fun x => q x && p x) l.
Proof.
  induction l as [|x l IH]; simpl; [reflexivity|].
  destruct (q x); simpl; [destruct (p x)|]; now rewrite IH.
Qed.

Lemma rollbackIds_consistent (h : Z) (ids : list string) (s : Store) :
  Consistent s -> topHeight s h ->
  (forall r, In r (transactions s) -> In (TxRow.id r) ids -> TxRow.block_height r = h) ->
  let s' := fold_left rollbackTransaction ids s in
  Consistent s' /\ blocks s' = blocks s
  /\ transactions s' = filter (fun r => negb (memb (TxRow.id r) ids)) (transactions s).
Proof.
  revert s. induction ids as [|t ids IH]; intros s Hc Htop Hown; simpl.
  - split; [assumption|]. split; [reflexivity|]. symmetry. now apply filter_all.
  - assert (outputsUnspent s t) as Hpre.
    { intros u Hu Ht. destruct (Utxo.is_spent u) eqn:E; [|reflexivity]. exfalso.
      destruct (utxo_tx s Hc u Hu) as (r & Hr & Hid & Hh).
      destruct (spent_later s Hc u Hu E) as (r' & Hr' & _ & Hlt).
      pose proof (Htop r' Hr'). rewrite <- Hh in Hlt.
      rewrite (Hown r Hr) in Hlt; [lia|]. left. congruence. }
    pose proof (rollbackTransaction_consistent s t Hc Hpre) as Hc1.
    destruct (rollbackTransaction_tables s t (utxo_keys_unique s Hc)) as (Hb & Ht & _).
    cbv zeta in Hb, Ht.
    destruct (IH (rollbackTransaction s t)) as (Hc' & Hb' & Ht'); auto.
    + intros r Hr. rewrite Ht in Hr. apply filter_In in Hr. now apply Htop.
    + intros r Hr Hin. rewrite Ht in Hr. apply filter_In in Hr. apply Hown; [tauto|].
      now right.
    + cbv zeta in *. split; [assumption|]. split; [congruence|].
      rewrite Ht', Ht, filter_filter. apply filter_ext. intros r. unfold memb. simpl.
      now rewrite negb_orb.
Qed.

Lemma blockTransactionIds_In (s : Store) (blockId id : string) :
  In id (blockTransactionIds s blockId) <->
  exists r, In r (transactions s) /\ TxRow.block_id r = blockId /\ TxRow.id r = id.
Proof.
  unfold blockTransactionIds. rewrite orderById_In, in_map_iff. split.
  - intros (r & Hid & Hr). apply filter_In in Hr. destruct Hr as [Hr Hb].
    apply String.eqb_eq in Hb. eauto.
  - intros (r & Hr & Hb & Hid). exists r. split; [assumption|]. apply filter_In.
    split; [assumption|]. now apply String.eqb_eq.
Qed.

Lemma rollbackBlock_consistent (s : Store) (b : BlockRow.t) :
  Consistent s -> In b (blocks s) -> topHeight s (BlockRow.height b) ->
  let s' := rollbackBlock s (BlockRow.id b) (BlockRow.height b) in
  Consistent s' /\ blocks s' = blocks s
  /\ (forall r, In r (transactions s') ->
        In r (transactions s) /\ TxRow.block_height r < BlockRow.height b).
Proof.
  intros Hc Hb Htop. unfold rollbackBlock.
  destruct (rollbackIds_consistent (BlockRow.height b)
              (blockTransactionIds s (BlockRow.id b)) s Hc Htop) as (Hc' & Hb' & Ht').
  { intros r Hr Hin. apply blockTransactionIds_In in Hin.
    destruct Hin as (r0 & Hr0 & Hbid & Hid).
    assert (r0 = r) as -> by (apply (NoDup_key_eq TxRow.id (transactions s)); auto; apply Hc).
    destruct (tx_block s Hc r Hr) as (b' & Hb'' & Hbid' & ->).
    f_equal. apply (NoDup_key_eq BlockRow.id (blocks s)); auto; [apply Hc | congruence]. }
  cbv zeta in *. split; [assumption|]. split; [assumption|]. intros r H. split.
  - rewrite Ht' in H. now apply filter_In in H.
  - rewrite Ht' in H. apply filter_In in H. destruct H as [Hr Hnot].
    pose proof (Htop r Hr) as Hle.
    destruct (Z.eq_dec (TxRow.block_height r) (BlockRow.height b)) as [E|E]; [|lia].
    exfalso. destruct (tx_block s Hc r Hr) as (b' & Hb'' & Hbid' & Hh').
    assert (b' = b) as ->.
    { apply (NoDup_key_eq BlockRow.height (blocks s)); auto; [apply Hc | congruence]. }
    apply negb_true_iff in Hnot.
    assert (memb (TxRow.id r) (blockTransactionIds s (BlockRow.id b)) = true); [|congruence].
    apply memb_In, blockTransactionIds_In. eauto.
Qed.

Lemma rollbackBlocks_consistent (k : Z) (rest : list BlockRow.t) :
  StronglySorted descending rest ->
  Forall (fun b => k < BlockRow.height b) rest ->
  forall s,
    Consistent s -> incl rest (blocks s) ->
    (forall r, In r (transactions s) -> k < TxRow.block_height r ->
       exists b, In b rest /\ BlockRow.height b = TxRow.block_height r) ->
    let s' := fold_left
      (fun s block => rollbackBlock s (BlockRow.id block) (BlockRow.height block)) rest s in
    Consistent s' /\ blocks s' = blocks s
    /\ (forall r, In r (transactions s') ->
          In r (transactions s) /\ TxRow.block_height r <= k).
Proof.
  induction 1 as [|b0 rest Hsorted IH Hhd]; intros Habove s Hc Hincl Hcover; simpl.
  - split; [assumption|]. split; [reflexivity|]. intros r H. split; [assumption|].
    destruct (Z.le_gt_cases (TxRow.block_height r) k) as [Hle|Hgt]; auto.
    destruct (Hcover r H) as (b & [] & _). lia.
  - inversion Habove as [|? ? Hb0 Habove']; subst.
    assert (topHeight s (BlockRow.height b0)) as Htop.
    { intros r Hr. destruct (Z.le_gt_cases (TxRow.block_height r) k) as [Hle|Hgt]; [lia|].
      destruct (Hcover r Hr) as (b & [<-|Hb] & Hh); [lia | lia|].
      rewrite Forall_forall in Hhd. specialize (Hhd b Hb). unfold descending in Hhd.
      apply Z.leb_le in Hhd. lia. }
    destruct (rollbackBlock_consistent s b0 Hc (Hincl b0 (or_introl eq_refl)) Htop)
      as (Hc1 & Hb1 & Ht1).
    cbv zeta in Hb1, Ht1.
    destruct (IH Habove' (rollbackBlock s (BlockRow.id b0) (BlockRow.height b0)))
      as (Hc' & Hb' & Ht'); auto.
    + rewrite Hb1. intros b Hb. apply Hincl. now right.
    + intros r Hr Hgt. destruct (Ht1 r Hr) as [Hr0 Hlt].
      destruct (Hcover r Hr0 Hgt) as (b & [<-|Hb] & Hh); [lia|]. eauto.
    + cbv zeta in *. split; [assumption|]. split; [congruence|]. intros r Hr. split.
      * apply Ht1. now apply Ht'.
      * now apply Ht'.
Qed.

Lemma descending_total (a b : BlockRow.t) :
  (BlockRow.height b <=? BlockRow.height a) = true
  \/ (BlockRow.height a <=? BlockRow.height b) = true.
Proof. rewrite !Z.leb_le. lia. Qed.

Lemma blocksToRemove_In (s : Store) (k : Z) (b : BlockRow.t) :
  In b (blocksToRemove s k) <-> In b (blocks s) /\ k < BlockRow.height b.
Proof.
  unfold blocksToRemove. rewrite sortBy_In, filter_In, Z.ltb_lt. reflexivity.
Qed.

Lemma blocksToRemove_sorted (s : Store) (k : Z) :
  StronglySorted descending (blocksToRemove s k).
Proof.
  apply Sorted_StronglySorted.
  - intros x y z. unfold descending. rewrite !Z.leb_le. lia.
  - unfold blocksToRemove, descending.
    apply (sortBy_sorted (fun a b => BlockRow.height b <=? BlockRow.height a)).
    intros x y. apply descending_total.
Qed.

(** After [rollbackToHeight] the store is consistent again, nothing above the
    target height is left, and the cascade had nothing to delete. *)
Theorem rollbackToHeight_consistent (s : Store) (k : Z) :
  Consistent s ->
  let s1 := fold_left
    (fun s block => rollbackBlock s (BlockRow.id block) (BlockRow.height block))
    (blocksToRemove s k) s in
  rollbackToHeight s k
    = setBlocks s1 (filter (fun b => negb (k <? BlockRow.height b)) (blocks s))
  /\ Consistent (rollbackToHeight s k)
  /\ (forall b, In b (blocks (rollbackToHeight s k)) -> BlockRow.height b <= k)
  /\ (forall r, In r (transactions (rollbackToHeight s k)) -> TxRow.block_height r <= k).
Proof.
  intros Hc.
  destruct (rollbackBlocks_consistent k (blocksToRemove s k) (blocksToRemove_sorted s k))
    with (s := s) as (Hc1 & Hb1 & Ht1); auto.
  { apply Forall_forall. intros b Hb. now apply blocksToRemove_In in Hb. }
  { intros b Hb. now apply blocksToRemove_In in Hb. }
  { intros r Hr Hgt. destruct (tx_block s Hc r Hr) as (b & Hb & _ & Hh). exists b.
    split; [|congruence]. apply blocksToRemove_In. split; [assumption | lia]. }
  cbv zeta in *. set (s1 := fold_left _ (blocksToRemove s k) s) in *.
  assert (forall r, In r (transactions s1) ->
            existsb (fun b => String.eqb (BlockRow.id b) (TxRow.block_id r))
                    (filter (fun b => k <? BlockRow.height b) (blocks s1)) = false) as Hq.
  { intros r Hr. destruct (existsb _ _) eqn:E; [|reflexivity]. exfalso.
    apply existsb_exists in E. destruct E as (b' & Hb' & Hid).
    apply filter_In in Hb'. destruct Hb' as [Hb' Hgt]. apply Z.ltb_lt in Hgt.
    apply String.eqb_eq in Hid.
    destruct (tx_block s1 Hc1 r Hr) as (b & Hb & Hbid & Hh).
    assert (b' = b) as ->.
    { apply (NoDup_key_eq BlockRow.id (blocks s1)); auto; [apply Hc1 | congruence]. }
    destruct (Ht1 r Hr) as [_ Hle]. lia. }
  assert (rollbackToHeight s k
          = setBlocks s1 (filter (fun b => negb (k <? BlockRow.height b)) (blocks s))) as Heq.
  { unfold rollbackToHeight. fold s1. unfold deleteBlocksWhere, deleteTransactionsWhere.
    cbn [blocks transactions utxos address_balances setBlocks setTransactions setUtxos].
    rewrite (filter_all _ (transactions s1)).
    2: { intros r Hr. now rewrite Hq. }
    rewrite (filter_none _ (transactions s1)) by exact Hq.
    rewrite (filter_all _ (utxos s1)) by reflexivity.
    unfold setBlocks. now rewrite Hb1. }
  split; [exact Heq|]. rewrite Heq.
  split; [|split].
  - constructor; simpl; try apply Hc1.
    + apply NoDup_map_filter, Hc.
    + apply NoDup_map_filter, Hc.
    + intros b Hb. apply filter_In in Hb. apply Hc. tauto.
    + intros r Hr. destruct (tx_block s1 Hc1 r Hr) as (b & Hb & Hbid & Hh). exists b.
      repeat split; auto. apply filter_In. rewrite <- Hb1. split; [assumption|].
      destruct (Ht1 r Hr) as [_ Hle]. apply negb_true_iff, Z.ltb_ge. lia.
  - simpl. intros b Hb. apply filter_In in Hb. destruct Hb as [_ Hb].
    apply negb_true_iff, Z.ltb_ge in Hb. lia.
  - simpl. intros r Hr. now apply Ht1.
Qed.

(** ** Ledgers *)

Lemma reachable_postBlocks (s : Store) (block : Block.t) :
  reachable s -> reachable (fst (postBlocks s block)).
Proof.
  intros Hr. unfold postBlocks. destruct (validateBlock s block) as [[]|e] eqn:Hv; [|exact Hr].
  pose proof (reachable_processBlock s block Hr Hv) as H.
  destruct (processBlock s block) as [s' [[]|e]]; exact H.
Qed.

Lemma reachable_postRollback (s : Store) (heightNum : Z) :
  reachable s -> reachable (fst (postRollback s heightNum)).
Proof.
  intros Hr. unfold postRollback. destruct (heightNum <? 0); [exact Hr|].
  destruct (validateRollbackHeight s heightNum); [|exact Hr].
  now apply reachable_rollbackToHeight.
Qed.

Lemma reachable_consistent (s : Store) : reachable s -> Consistent s.
Proof.
  induction 1 as [| s block _ IH Hv | s k _ IH].
  - apply emptyStore_consistent.
  - unfold processBlock. destruct (processBlockBody s block) as [s'|e] eqn:Hp; simpl; auto.
    now apply (processBlockBody_consistent s s' block).
  - now apply rollbackToHeight_consistent.
Qed.

Lemma submitAll_reachable (bs : list Block.t) (s s' : Store) :
  reachable s -> submitAll s bs = Some s' -> reachable s'.
Proof.
  revert s. induction bs as [|b bs IH]; simpl; intros s Hr H.
  - now inversion H; subst.
  - pose proof (reachable_postBlocks s b Hr) as Hr1.
    destruct (postBlocks s b) as [s1 r]. destruct r; try discriminate. now apply (IH s1).
Qed.

(** C3.  On every ledger, that is after every completed [processBlock] of a
    block that passed [validateBlock], as [POST /blocks] calls it, and every
    completed [rollbackToHeight], the stored balance of each address is the
    sum of the values of the unspent rows the address owns. *)
Theorem balance_correctness (s : Store) (address : string) :
  reachable s -> storedBalance s address = unspentSum s address.
Proof. intros Hr. apply balances_correct. now apply reachable_consistent. Qed.

Lemma balance_correctness_witness :
  storedBalance
    (rollbackToHeight
       (fst (postBlocks (fst (postBlocks emptyStore ScenarioA.block1)) ScenarioA.block2)) 1)
    "genesis"
  = unspentSum
      (rollbackToHeight
         (fst (postBlocks (fst (postBlocks emptyStore ScenarioA.block1)) ScenarioA.block2)) 1)
      "genesis".
Proof.
  apply balance_correctness.
  apply reachable_rollbackToHeight, reachable_postBlocks, reachable_postBlocks.
  apply reachable_empty.
Defined.

(** [processBlock] on its own applies a block that [validateBlock] refuses;
    after the rollback of such a block the balance of p is -7 and p owns no
    row. *)
Lemma balance_correctness_counterexample :
  validateBlock UnvalidatedSecond.store1 UnvalidatedSecond.block2
    = Err (ValidationError InputNotFound)
  /\ snd (processBlock UnvalidatedSecond.store1 UnvalidatedSecond.block2) = Ok tt
  /\ storedBalance UnvalidatedSecond.store2 "p" = unspentSum UnvalidatedSecond.store2 "p"
  /\ storedBalance (rollbackToHeight UnvalidatedSecond.store2 1) "p" = -7
  /\ unspentSum (rollbackToHeight UnvalidatedSecond.store2 1) "p" = 0
  /\ storedBalance (rollbackToHeight UnvalidatedSecond.store2 1) "p"
     <> unspentSum (rollbackToHeight UnvalidatedSecond.store2 1) "p".
Proof. vm_compute. repeat split; discriminate. Qed.

(** ** Rollback to height 0 *)

Lemma currentHeight_nonneg (s : Store) : Consistent s -> 0 <= currentHeight s.
Proof.
  intros Hc. pose proof (nextHeight_positive s Hc). pose proof (currentHeight_next s). lia.
Qed.






Example rollback_to_zero_keeps_rows :
  address_balances (rollbackToHeight (fst (postBlocks emptyStore ScenarioA.block1)) 0)
  = [Balance.mk "genesis" 0].
Proof. vm_compute. reflexivity. Qed.

(** ** Stores that agree on blocks, transactions and UTXO rows *)

Lemma sameTables_refl (s : Store) : sameTables s s.
Proof. repeat split. Qed.

Lemma sameTables_sym (s s' : Store) : sameTables s s' -> sameTables s' s.
Proof. intros (H1 & H2 & H3). repeat split; auto. Qed.

Lemma sameTables_trans (s1 s2 s3 : Store) :
  sameTables s1 s2 -> sameTables s2 s3 -> sameTables s1 s3.
Proof. intros (H1 & H2 & H3) (G1 & G2 & G3). repeat split; congruence. Qed.

Lemma sameTables_balances (s : Store) (bals : list Balance.t) :
  sameTables s (setBalances s bals).
Proof. repeat split. Qed.

Ltac same_tables H :=
  let Hb := fresh "Hb" in let Ht := fresh "Ht" in let Hu := fresh "Hu" in
  destruct H as (Hb & Ht & Hu).

Lemma then_same (c : result unit) (k k' : result Store) :
  sameOutcome k k' -> sameOutcome (c ;;; k) (c ;;; k').
Proof. destruct c as [[]|e]; simpl; auto. Qed.

Lemma validateBlock_same (s s' : Store) (block : Block.t) :
  sameTables s s' -> validateBlock s block = validateBlock s' block.
Proof.
  intros H. same_tables H. destruct s, s'. simpl in *. subst. reflexivity.
Qed.

Lemma insertBlock_same (s s' : Store) (id : string) (h : Z) :
  sameTables s s' -> sameOutcome (insertBlock s id h) (insertBlock s' id h).
Proof.
  intros H. same_tables H. unfold insertBlock. rewrite <- Hb. repeat apply then_same.
  destruct (existsb _ (blocks s)); simpl; [reflexivity|].
  destruct (existsb _ (blocks s)); simpl; [reflexivity|].
  repeat split; simpl; congruence.
Qed.

Lemma insertTransaction_same (s s' : Store) (id : string) (h : Z) :
  sameTables s s' -> sameOutcome (insertTransaction s id h) (insertTransaction s' id h).
Proof.
  intros H. same_tables H. unfold insertTransaction. rewrite <- Hb, <- Ht.
  repeat apply then_same.
  destruct (filter _ (blocks s)); simpl; [reflexivity|].
  destruct (existsb _ (transactions s)); simpl; [reflexivity|].
  repeat split; simpl; congruence.
Qed.

Lemma spendUTXO_same (s s' : Store) (input : Input.t) (txid : string) :
  sameTables s s' -> sameOutcome (spendUTXO s input txid) (spendUTXO s' input txid).
Proof.
  intros H. same_tables H. unfold spendUTXO, unspentRows. rewrite <- Hu.
  repeat apply then_same.
  destruct (filter _ (utxos s)); simpl; [reflexivity|].
  repeat split; simpl; congruence.
Qed.

Lemma createUTXO_same (s s' : Store) (txid : string) (index : Z) (o : Output.t) (h : Z) :
  sameTables s s' ->
  sameOutcome (createUTXO s txid index o h) (createUTXO s' txid index o h).
Proof.
  intros H. same_tables H. unfold createUTXO. rewrite <- Hu, <- Ht.
  repeat apply then_same.
  destruct (existsb _ (utxos s)); simpl; [reflexivity|].
  destruct (existsb _ (transactions s)); simpl; [|reflexivity].
  repeat split; simpl; congruence.
Qed.

Lemma bind_same (r r' : result Store) (k k' : Store -> result Store) :
  sameOutcome r r' ->
  (forall a a', sameTables a a' -> sameOutcome (k a) (k' a')) ->
  sameOutcome (bind r k) (bind r' k').
Proof.
  destruct r as [a|e], r' as [a'|e']; simpl; intros H Hk; auto; contradiction.
Qed.

Lemma forEach_same {A : Type} (f : Store -> A -> result Store) (xs : list A) :
  (forall s s' x, sameTables s s' -> sameOutcome (f s x) (f s' x)) ->
  forall s s', sameTables s s' -> sameOutcome (forEach f xs s) (forEach f xs s').
Proof.
  intros Hf. induction xs as [|x xs IH]; simpl; intros s s' H; [exact H|].
  apply bind_same; auto.
Qed.

Lemma createOutputs_same (txid : string) (outputs : list Output.t) (h : Z) :
  forall s s' index, sameTables s s' ->
    sameOutcome (createOutputs s txid index outputs h) (createOutputs s' txid index outputs h).
Proof.
  induction outputs as [|o outputs IH]; simpl; intros s s' index H; [exact H|].
  apply bind_same; [now apply createUTXO_same | auto].
Qed.

Lemma processTransaction_same (s s' : Store) (tx : Transaction.t) (h : Z) :
  sameTables s s' -> sameOutcome (processTransaction s tx h) (processTransaction s' tx h).
Proof.
  intros H. unfold processTransaction.
  apply bind_same; [now apply insertTransaction_same|]. intros a a' Ha.
  apply bind_same.
  - apply forEach_same; auto. intros. now apply spendUTXO_same.
  - intros. now apply createOutputs_same.
Qed.

Lemma processBlockBody_same (s s' : Store) (block : Block.t) :
  sameTables s s' -> sameOutcome (processBlockBody s block) (processBlockBody s' block).
Proof.
  intros H. unfold processBlockBody.
  apply bind_same; [now apply insertBlock_same|]. intros a a' Ha.
  apply forEach_same; auto. intros. now apply processTransaction_same.
Qed.

(** [rollbackTransaction] reads and writes the transaction and UTXO tables
    the same way whatever the other two tables hold. *)
Lemma rollbackTransaction_sameRows (s s' : Store) (t : string) :
  sameRows s s' -> sameRows (rollbackTransaction s t) (rollbackTransaction s' t).
Proof.
  intros [Ht Hu].
  assert (forall s,
    transactions (rollbackTransaction s t)
      = filter (fun r => negb (String.eqb (TxRow.id r) t)) (transactions s)
    /\ utxos (rollbackTransaction s t)
      = filter (fun u => negb (existsb (fun r => String.eqb (TxRow.id r) (Utxo.tx_id u))
                                 (filter (fun r => String.eqb (TxRow.id r) t)
                                         (transactions s))))
          (map (fun u => if existsb (fun utxo => sameKey utxo u)
                              (filter (spentBy t) (filter (notOf t) (utxos s)))
                         then setSpent false None u else u)
               (filter (notOf t) (utxos s)))) as Hraw.
  { clear. intros s. unfold rollbackTransaction.
    set (outputs := filter (fun u => String.eqb (Utxo.tx_id u) t) (utxos s)).
    set (s1 := fold_left _ outputs s).
    destruct (fold_update_tables Utxo.address (fun u => - Utxo.value u) outputs s)
      as (Hb1 & Ht1 & Hu1).
    fold s1 in Hb1, Ht1, Hu1. cbv zeta in Hb1, Ht1, Hu1.
    set (s2 := setUtxos s1 _).
    assert (utxos s2 = filter (notOf t) (utxos s)) as Hu2 by (simpl; now rewrite Hu1).
    assert (transactions s2 = transactions s) as Ht2 by exact Ht1.
    set (rows := filter (spentBy t) (utxos s2)).
    set (s3 := fold_left _ rows s2).
    destruct (unspend_loop_store rows s2) as (Hb3 & Ht3 & Hu3 & _).
    fold s3 in Hb3, Ht3, Hu3. cbv zeta in Hb3, Ht3, Hu3.
    unfold deleteTransactionsWhere. cbn [transactions utxos setUtxos setTransactions].
    rewrite Hu3, Ht3, Ht2. unfold rows. rewrite Hu2. split; reflexivity. }
  destruct (Hraw s) as [E1 E2], (Hraw s') as [E1' E2'].
  split; [rewrite E1, E1' | rewrite E2, E2']; now rewrite Ht, ?Hu.
Qed.

Lemma rollbackTransaction_blocks (s : Store) (t : string) :
  blocks (rollbackTransaction s t) = blocks s.
Proof.
  unfold rollbackTransaction.
  set (outputs := filter (fun u => String.eqb (Utxo.tx_id u) t) (utxos s)).
  set (s1 := fold_left _ outputs s).
  destruct (fold_update_tables Utxo.address (fun u => - Utxo.value u) outputs s) as (Hb1 & _).
  fold s1 in Hb1. cbv zeta in Hb1.
  set (s2 := setUtxos s1 _). set (rows := filter (spentBy t) (utxos s2)).
  set (s3 := fold_left _ rows s2).
  destruct (unspend_loop_store rows s2) as (Hb3 & _).
  fold s3 in Hb3. cbv zeta in Hb3.
  change (blocks s3 = blocks s). rewrite Hb3. exact Hb1.
Qed.

Lemma rollbackIds_sameRows (ids : list string) (s s' : Store) :
  sameRows s s' ->
  sameRows (fold_left rollbackTransaction ids s) (fold_left rollbackTransaction ids s').
Proof.
  revert s s'. induction ids as [|t ids IH]; simpl; intros s s' H; [exact H|].
  now apply IH, rollbackTransaction_sameRows.
Qed.

Lemma rollbackBlock_sameRows (s s' : Store) (id : string) (h : Z) :
  sameRows s s' -> sameRows (rollbackBlock s id h) (rollbackBlock s' id h).
Proof.
  intros H. unfold rollbackBlock, blockTransactionIds. rewrite <- (proj1 H).
  now apply rollbackIds_sameRows.
Qed.

Lemma rollbackBlocks_sameRows (bs : list BlockRow.t) (s s' : Store) :
  sameRows s s' ->
  sameRows
    (fold_left (fun s b => rollbackBlock s (BlockRow.id b) (BlockRow.height b)) bs s)
    (fold_left (fun s b => rollbackBlock s (BlockRow.id b) (BlockRow.height b)) bs s').
Proof.
  revert s s'. induction bs as [|b bs IH]; simpl; intros s s' H; [exact H|].
  now apply IH, rollbackBlock_sameRows.
Qed.

(** ** What a block leaves in the tables *)

Lemma markedBy_mono (ids ids' : list string) (u u' : Utxo.t) :
  incl ids ids' -> markedBy ids u u' -> markedBy ids' u u'.
Proof.
  intros Hincl [->|(Hs & t & Ht & ->)]; [now left | right]. split; [assumption|].
  exists t. auto.
Qed.

Lemma Forall2_refl_on {A : Type} (R : A -> A -> Prop) (l : list A) :
  (forall a, R a a) -> Forall2 R l l.
Proof. intros H. induction l; constructor; auto. Qed.

Lemma Forall2_map_r_in {A B : Type} (R R' : A -> B -> Prop) (f : B -> B)
    (l : list A) (l' : list B) :
  Forall2 R l l' -> (forall a b, In b l' -> R a b -> R' a (f b)) ->
  Forall2 R' l (map f l').
Proof.
  induction 1 as [|a b l l' Hab _ IH]; simpl; intros Hf; constructor.
  - apply Hf; simpl; auto.
  - apply IH. intros a' b' Hb'. apply Hf. now right.
Qed.

Lemma Forall2_impl {A B : Type} (R R' : A -> B -> Prop) (l : list A) (l' : list B) :
  (forall a b, R a b -> R' a b) -> Forall2 R l l' -> Forall2 R' l l'.
Proof. intros H. induction 1; constructor; auto. Qed.

Lemma Forall2_in_r {A B : Type} (R : A -> B -> Prop) (l : list A) (l' : list B) (b : B) :
  Forall2 R l l' -> In b l' -> exists a, In a l /\ R a b.
Proof.
  induction 1 as [|a b' l l' Hab _ IH]; simpl; intros Hin; [contradiction|].
  destruct Hin as [->|Hin]; [exists a; auto|].
  destruct (IH Hin) as (a' & Ha' & HR). exists a'. auto.
Qed.

Lemma Forall2_map_eq {A B : Type} (R : A -> B -> Prop) (f : B -> A)
    (l : list A) (l' : list B) :
  Forall2 R l l' -> (forall a b, In a l -> R a b -> f b = a) -> map f l' = l.
Proof.
  induction 1 as [|a b l l' Hab _ IH]; simpl; intros Hf; [reflexivity|].
  rewrite (Hf a b); simpl; auto. f_equal. apply IH. intros a' b' Ha'. apply Hf. now right.
Qed.

Section BlockShape.
Variables (s : Store) (bid : string) (B : list BlockRow.t) (h : Z).
Hypothesis first_at_h : forall b rest,
  filter (fun b => BlockRow.height b =? h) B = b :: rest -> BlockRow.id b = bid.

Lemma insertTransaction_shape (ids : list string) (cur cur' : Store) (id : string) :
  Shape s bid B ids cur -> insertTransaction cur id h = Ok cur' -> Shape s bid B (ids ++ [id]) cur'.
Proof.
  intros [Hb Hk (newRows & us' & news & Hids & Ht & Hbid & Hu & Hold & Hnew)] Hins.
  apply insertTransaction_Ok in Hins. destruct Hins as (b & _ & _ & Hhd & _ & ->).
  constructor; simpl; auto.
  exists (newRows ++ [TxRow.mk id (BlockRow.id b) h]), us', news.
  rewrite map_app, Hids, Ht, app_assoc. simpl. repeat split; auto.
  - apply Forall_app. split; [assumption|]. repeat constructor. simpl.
    rewrite Hb in Hhd. destruct (filter _ B) as [|b0 rest] eqn:E; [discriminate|].
    simpl in Hhd. injection Hhd as ->. now apply (first_at_h b rest).
  - apply (Forall2_impl (markedBy ids)); auto. intros u u'. apply markedBy_mono.
    apply incl_appl, incl_refl.
  - apply (Forall_impl (fun v => In (Utxo.tx_id v) (ids ++ [id]))) in Hnew; auto.
    intros v Hv. apply in_app_iff. now left.
Qed.

Lemma spendUTXO_shape (ids : list string) (cur cur' : Store) (i : Input.t) (txid : string) :
  Shape s bid B ids cur -> In txid ids -> spendUTXO cur i txid = Ok cur' -> Shape s bid B ids cur'.
Proof.
  intros [Hb Hk (newRows & us' & news & Hids & Ht & Hbid & Hu & Hold & Hnew)] Hin Hsp.
  apply spendUTXO_Ok in Hsp. destruct Hsp as (row & Hrow & Hrefers & Hunspent & ->).
  constructor; simpl; auto.
  - now rewrite map_key_mark.
  - exists newRows,
      (map (fun u => if refersTo i u then setSpent true (Some txid) u else u) us'),
      (map (fun u => if refersTo i u then setSpent true (Some txid) u else u) news).
    repeat split; auto.
    + now rewrite Hu, map_app.
    + apply (Forall2_map_r_in (markedBy ids)); auto.
      intros u u' Hu' Hm. destruct (refersTo i u') eqn:Hr; [|assumption].
      assert (u' = row) as ->.
      { apply (NoDup_key_eq utxoKey (utxos cur)); auto.
        - rewrite Hu. apply in_app_iff. now left.
        - apply refersTo_key in Hr, Hrefers. congruence. }
      destruct Hm as [->|(_ & t & _ & ->)]; [|discriminate].
      right. split; [assumption|]. exists txid. auto.
    + apply Forall_map. apply (Forall_impl _ (P := fun v => In (Utxo.tx_id v) ids)); auto.
      intros v Hv. now destruct (refersTo i v).
Qed.

Lemma createUTXO_shape (ids : list string) (cur cur' : Store) (txid : string)
    (index : Z) (o : Output.t) (h' : Z) :
  Shape s bid B ids cur -> In txid ids -> createUTXO cur txid index o h' = Ok cur' ->
  Shape s bid B ids cur'.
Proof.
  intros [Hb Hk (newRows & us' & news & Hids & Ht & Hbid & Hu & Hold & Hnew)] Hin Hcr.
  apply createUTXO_Ok in Hcr. destruct Hcr as (Hkey & _ & ->).
  constructor; simpl; auto.
  - rewrite map_app. now apply NoDup_snoc.
  - exists newRows, us',
      (news ++ [Utxo.mk txid index (Output.address o) (Output.value o) false None h']).
    repeat split; auto.
    + now rewrite Hu, app_assoc.
    + apply Forall_app. split; [assumption|]. now repeat constructor.
Qed.

Lemma spendAll_shape (ids : list string) (txid : string) (inputs : list Input.t) :
  In txid ids ->
  forall cur cur', Shape s bid B ids cur ->
    forEach (fun s input => spendUTXO s input txid) inputs cur = Ok cur' -> Shape s bid B ids cur'.
Proof.
  intros Hin. induction inputs as [|i inputs IH]; simpl; intros cur cur' Hs H.
  - now inversion H; subst.
  - inv_bind H. apply (IH s0 cur'); auto. now apply (spendUTXO_shape ids cur s0 i txid).
Qed.

Lemma createOutputs_shape (ids : list string) (txid : string) (outputs : list Output.t)
    (h' : Z) :
  In txid ids ->
  forall cur cur' index, Shape s bid B ids cur ->
    createOutputs cur txid index outputs h' = Ok cur' -> Shape s bid B ids cur'.
Proof.
  intros Hin. induction outputs as [|o outputs IH]; simpl; intros cur cur' index Hs H.
  - now inversion H; subst.
  - inv_bind H. apply (IH s0 cur' (index + 1)); auto.
    now apply (createUTXO_shape ids cur s0 txid index o h').
Qed.

Lemma processTransaction_shape (ids : list string) (cur cur' : Store) (tx : Transaction.t) :
  Shape s bid B ids cur -> processTransaction cur tx h = Ok cur' ->
  Shape s bid B (ids ++ [Transaction.id tx]) cur'.
Proof.
  intros Hs H. unfold processTransaction in H. inv_bind H. inv_bind H.
  assert (In (Transaction.id tx) (ids ++ [Transaction.id tx])) as Hin
    by (apply in_app_iff; right; now left).
  apply (createOutputs_shape _ _ (Transaction.outputs tx) h Hin s1 cur' 0); auto.
  apply (spendAll_shape _ _ (Transaction.inputs tx) Hin s0 s1); auto.
  now apply (insertTransaction_shape ids cur s0).
Qed.

Lemma processTransactions_shape (txs : list Transaction.t) :
  forall ids cur cur', Shape s bid B ids cur ->
    forEach (fun s tx => processTransaction s tx h) txs cur = Ok cur' ->
    Shape s bid B (ids ++ map Transaction.id txs) cur'.
Proof.
  induction txs as [|tx txs IH]; simpl; intros ids cur cur' Hs H.
  - inversion H; subst. now rewrite app_nil_r.
  - inv_bind H. replace (ids ++ Transaction.id tx :: map Transaction.id txs)
      with ((ids ++ [Transaction.id tx]) ++ map Transaction.id txs)
      by (now rewrite <- app_assoc).
    apply (IH _ s0 cur'); auto. now apply (processTransaction_shape ids cur s0).
Qed.
End BlockShape.

Lemma processBlockBody_shape (s s1 : Store) (block : Block.t) :
  NoDup (map utxoKey (utxos s)) ->
  processBlockBody s block = Ok s1 ->
  ~ In (Block.id block) (map BlockRow.id (blocks s))
  /\ Shape s (Block.id block)
       (blocks s ++ [BlockRow.mk (Block.id block) (Block.height block)])
       (map Transaction.id (Block.transactions block)) s1.
Proof.
  intros Hk H. unfold processBlockBody in H. inv_bind H.
  apply insertBlock_Ok in Hs0. destruct Hs0 as (-> & Hid & Hh).
  split; [assumption|].
  apply (processTransactions_shape s (Block.id block) _ (Block.height block))
    with (ids := []) (cur := setBlocks s (blocks s ++ [BlockRow.mk (Block.id block)
                                                          (Block.height block)]));
    auto.
  - intros b rest. rewrite filter_app. simpl. rewrite Z.eqb_refl.
    rewrite (filter_none _ (blocks s)).
    + simpl. now intros [= <- _].
    + intros x Hx. apply Z.eqb_neq. intros E. apply Hh. rewrite <- E. now apply in_map.
  - constructor; simpl; auto. exists [], (utxos s), []. rewrite !app_nil_r.
    repeat split; auto. apply Forall2_refl_on. intros u. now left.
Qed.

(** ** Undoing the transactions of a block, in any order *)

Lemma filter_map_comm {A B : Type} (f : A -> B) (p : B -> bool) (l : list A) :
  filter p (map f l) = map f (filter (fun x => p (f x)) l).
Proof.
  induction l as [|x l IH]; simpl; [reflexivity|].
  destruct (p (f x)); simpl; now rewrite IH.
Qed.

Lemma rollbackIds_tables (ids : list string) (s : Store) :
  NoDup (map utxoKey (utxos s)) ->
  let s' := fold_left rollbackTransaction ids s in
  transactions s' = filter (fun r => negb (memb (TxRow.id r) ids)) (transactions s)
  /\ utxos s'
     = map (unspendIn ids) (filter (fun u => negb (memb (Utxo.tx_id u) ids)) (utxos s)).
Proof.
  revert s. induction ids as [|t ids IH]; intros s Hk; simpl.
  - split.
    + symmetry. now apply filter_all.
    + rewrite filter_all by reflexivity. symmetry.
      rewrite <- (map_id (utxos s)) at 2. apply map_ext. intros u.
      unfold unspendIn, spentIn. now destruct (Utxo.spent_in_tx u).
  - destruct (rollbackTransaction_tables s t Hk) as (_ & Ht & Hu & _). cbv zeta in Ht, Hu.
    destruct (IH (rollbackTransaction s t)) as [Ht' Hu'].
    { rewrite Hu, map_key_unspendIf. now apply NoDup_map_filter. }
    cbv zeta in *. split.
    + rewrite Ht', Ht, filter_filter. apply filter_ext. intros r. unfold memb. simpl.
      now rewrite negb_orb.
    + rewrite Hu', Hu, filter_map_comm, map_map, filter_filter.
      rewrite (filter_ext _ (fun u => negb (memb (Utxo.tx_id u) (t :: ids)))).
      * apply map_ext. intros u. unfold unspendIn, unspendIf, spentIn, spentBy, memb.
        destruct (Utxo.spent_in_tx u) as [t'|] eqn:E; simpl; [|now rewrite E].
        destruct (String.eqb t' t); simpl; [reflexivity|]. now rewrite E.
      * intros u. unfold notOf, memb. simpl.
        assert (Utxo.tx_id (unspendIf t u) = Utxo.tx_id u) as ->
          by (unfold unspendIf; now destruct (spentBy t u)).
        now rewrite negb_orb.
Qed.

Lemma NoDup_app_disjoint {A : Type} (l1 l2 : list A) (x : A) :
  NoDup (l1 ++ l2) -> In x l1 -> ~ In x l2.
Proof.
  induction l1 as [|y l1 IH]; simpl; intros Hnd Hin; [contradiction|].
  inversion Hnd as [|? ? Hnotin Hnd']; subst. destruct Hin as [->|Hin]; auto.
  intros Hx. apply Hnotin. apply in_app_iff. now right.
Qed.

Lemma setSpent_same (u : Utxo.t) :
  Utxo.is_spent u = false -> Utxo.spent_in_tx u = None -> setSpent false None u = u.
Proof. destruct u. simpl. now intros -> ->. Qed.

(** Undoing the transactions of the block that was applied last gives back
    the transaction and UTXO tables the block was applied to. *)
Lemma rollbackBlock_undoes (s s1 : Store) (block : Block.t) :
  Consistent s -> Consistent s1 -> processBlockBody s block = Ok s1 ->
  sameRows (rollbackBlock s1 (Block.id block) (Block.height block)) s
  /\ blocks s1 = blocks s ++ [BlockRow.mk (Block.id block) (Block.height block)].
Proof.
  intros Hc Hc1 Hp.
  destruct (processBlockBody_shape s s1 block (utxo_keys_unique s Hc) Hp)
    as (Hbid & [Hb Hk (newRows & us' & news & Hids & Ht & Hnewbid & Hu & Hold & Hnew)]).
  split; [|exact Hb].
  set (ids := map Transaction.id (Block.transactions block)) in *.
  assert (forall x, In x (map TxRow.id (transactions s)) -> ~ In x ids) as Hdisj.
  { intros x Hx. apply (NoDup_app_disjoint (map TxRow.id (transactions s))); auto.
    rewrite <- Hids, <- map_app, <- Ht. apply Hc1. }
  assert (forall x, memb x (blockTransactionIds s1 (Block.id block)) = memb x ids) as Hmem.
  { intros x. apply eq_true_iff_eq. rewrite !memb_In, blockTransactionIds_In. split.
    - intros (r & Hr & Hrb & <-). rewrite Ht in Hr. apply in_app_iff in Hr.
      destruct Hr as [Hr|Hr].
      + exfalso. destruct (tx_block s Hc r Hr) as (b & Hbin & Hbid' & _).
        apply Hbid. rewrite <- Hrb, Hbid'. now apply in_map.
      + rewrite <- Hids. now apply in_map.
    - intros Hx. rewrite <- Hids in Hx. apply in_map_iff in Hx.
      destruct Hx as (r & <- & Hr). exists r. rewrite Forall_forall in Hnewbid.
      repeat split; auto. rewrite Ht. apply in_app_iff. now right. }
  unfold rollbackBlock.
  destruct (rollbackIds_tables (blockTransactionIds s1 (Block.id block)) s1 Hk) as [Et Eu].
  cbv zeta in Et, Eu. split.
  - rewrite Et, Ht, filter_app.
    rewrite (filter_all _ (transactions s)), (filter_none _ newRows).
    + apply app_nil_r.
    + intros r Hr. rewrite Hmem. apply negb_false_iff, memb_In. rewrite <- Hids.
      now apply in_map.
    + intros r Hr. rewrite Hmem. apply negb_true_iff.
      destruct (memb (TxRow.id r) ids) eqn:E; [|reflexivity].
      apply memb_In in E. exfalso. apply (Hdisj (TxRow.id r)); auto. now apply in_map.
  - assert (forall u u', In u (utxos s) -> markedBy ids u u' ->
              ~ In (Utxo.tx_id u') ids) as Hold_id.
    { intros u u' Hin Hm. destruct (utxo_tx s Hc u Hin) as (r & Hr & Hrid & _).
      assert (Utxo.tx_id u' = Utxo.tx_id u) as ->
        by (destruct Hm as [->|(_ & t & _ & ->)]; reflexivity).
      apply Hdisj. rewrite <- Hrid. now apply in_map. }
    rewrite Eu, Hu, filter_app.
    rewrite (filter_all _ us'), (filter_none _ news).
    + rewrite app_nil_r. apply (Forall2_map_eq (markedBy ids)); auto.
      intros u u' Hin Hm. unfold unspendIn, spentIn.
      destruct Hm as [->|(Hunspent & t & Htin & ->)].
      * destruct (Utxo.spent_in_tx u) as [t'|] eqn:Es; [|reflexivity].
        rewrite Hmem. destruct (memb t' ids) eqn:E; [|reflexivity].
        exfalso. apply memb_In in E.
        destruct (Utxo.is_spent u) eqn:Esp.
        -- destruct (spent_later s Hc u Hin Esp) as (r & Hr & Hby & _).
           apply (Hdisj t'); auto. rewrite Es in Hby. injection Hby as ->.
           now apply in_map.
        -- rewrite (unspent_clear s Hc u Hin Esp) in Es. discriminate.
      * simpl. rewrite Hmem. apply memb_In in Htin. rewrite Htin.
        change (setSpent false None u = u).
        apply setSpent_same; auto. now apply (unspent_clear s Hc).
    + intros v Hv. rewrite Hmem. apply negb_false_iff, memb_In.
      rewrite Forall_forall in Hnew. now apply Hnew.
    + intros u' Hu'. rewrite Hmem. apply negb_true_iff.
      destruct (memb (Utxo.tx_id u') ids) eqn:E; [|reflexivity].
      apply memb_In in E. exfalso.
      destruct (Forall2_in_r _ _ _ u' Hold Hu') as (u & Hin & Hm).
      now apply (Hold_id u u').
Qed.

(** ** The inverse law *)

Lemma sortBy_snoc_first {A : Type} (le : A -> A -> bool) (l : list A) (x : A) :
  (forall y, In y l -> le y x = false) -> sortBy le (l ++ [x]) = x :: sortBy le l.
Proof.
  induction l as [|y l IH]; simpl; intros H; [reflexivity|].
  rewrite IH by (intros z Hz; apply H; now right). simpl.
  now rewrite (H y (or_introl eq_refl)).
Qed.

Lemma submitAll_app (l1 l2 : list Block.t) (s : Store) :
  submitAll s (l1 ++ l2)
  = match submitAll s l1 with
    | Some s' => submitAll s' l2
    | None => None
    end.
Proof.
  revert s. induction l1 as [|b l1 IH]; intros s; simpl; [reflexivity|].
  destruct (postBlocks s b) as [s' r]. destruct r; auto.
Qed.

Lemma submitAll_cons (b : Block.t) (bs : list Block.t) (s s_n : Store) :
  submitAll s (b :: bs) = Some s_n <->
  exists s1, postBlocks s b = (s1, Success) /\ submitAll s1 bs = Some s_n.
Proof.
  simpl. destruct (postBlocks s b) as [s1 r]. split.
  - intros H. destruct r; try discriminate. eauto.
  - intros (s1' & [= -> ->] & H). exact H.
Qed.

(** An accepted block sits on top of the chain. *)
Lemma postBlocks_on_top (s s1 : Store) (block : Block.t) :
  Consistent s -> postBlocks s block = (s1, Success) ->
  Consistent s1
  /\ Block.height block = nextHeight s
  /\ nextHeight s1 = nextHeight s + 1
  /\ processBlockBody s block = Ok s1
  /\ blocks s1 = blocks s ++ [BlockRow.mk (Block.id block) (Block.height block)].
Proof.
  intros Hc Hp. pose proof (postBlocks_consistent s s1 block Hc Hp) as Hc1.
  apply postBlocks_Success in Hp. destruct Hp as [Hv Hp].
  apply validateBlock_Ok in Hv. destruct Hv as (Hh & _ & _).
  destruct (rollbackBlock_undoes s s1 block Hc Hc1 Hp) as [_ Hb].
  split; [assumption|]. split; [assumption|]. split; [|split; assumption].
  pose proof (maxHeight_spec s1) as Hmax. unfold nextHeight at 1.
  destruct (maxHeight s1) as [m|].
  - destruct Hmax as [Hin Hall]. rewrite Forall_forall in Hall.
    assert (Block.height block <= m) as Hle.
    { apply (Hall (BlockRow.mk (Block.id block) (Block.height block))).
      rewrite Hb. apply in_app_iff. right. now left. }
    rewrite Hb, map_app in Hin. apply in_app_iff in Hin. destruct Hin as [Hin|[<-|[]]].
    + apply in_map_iff in Hin. destruct Hin as (b & <- & Hbin).
      pose proof (heights_below_next s b Hbin). lia.
    + simpl. lia.
  - rewrite Hb in Hmax. destruct (blocks s); discriminate.
Qed.

(** Rolling back below a block that was just accepted: the block is undone
    first, and the rest is the rollback of the store it was applied to. *)
Lemma rollbackToHeight_below_top (s s1 : Store) (block : Block.t) (k : Z) :
  Consistent s -> postBlocks s block = (s1, Success) -> k < nextHeight s ->
  sameTables (rollbackToHeight s1 k) (rollbackToHeight s k).
Proof.
  intros Hc Hp Hk.
  destruct (postBlocks_on_top s s1 block Hc Hp) as (Hc1 & Hh & _ & Hbody & Hb).
  destruct (rollbackBlock_undoes s s1 block Hc Hc1 Hbody) as [Hundo _].
  destruct (rollbackToHeight_consistent s1 k Hc1) as (E1 & _).
  destruct (rollbackToHeight_consistent s k Hc) as (E & _).
  cbv zeta in E1, E. rewrite E1, E.
  assert (blocksToRemove s1 k
          = BlockRow.mk (Block.id block) (Block.height block) :: blocksToRemove s k) as Hrem.
  { unfold blocksToRemove. rewrite Hb, filter_app. simpl.
    assert ((k <? Block.height block) = true) as -> by (apply Z.ltb_lt; lia).
    apply sortBy_snoc_first. intros y Hy. apply filter_In in Hy. destruct Hy as [Hy _].
    simpl. apply Z.leb_gt. rewrite Hh. now apply heights_below_next. }
  rewrite Hrem. simpl.
  pose proof (rollbackBlocks_sameRows (blocksToRemove s k) _ _ Hundo) as [Ht Hu].
  repeat split; simpl; auto.
  rewrite Hb, filter_app. simpl.
  assert ((k <? Block.height block) = true) as -> by (apply Z.ltb_lt; lia).
  simpl. apply app_nil_r.
Qed.

(** With nothing above the target height, [rollbackToHeight] changes nothing. *)
Lemma rollbackToHeight_noop (s : Store) (k : Z) :
  (forall b, In b (blocks s) -> BlockRow.height b <= k) -> rollbackToHeight s k = s.
Proof.
  intros H. unfold rollbackToHeight, blocksToRemove.
  assert (filter (fun b => k <? BlockRow.height b) (blocks s) = []) as Hnone
    by (apply filter_none; intros b Hb; apply Z.ltb_ge; auto).
  rewrite Hnone. simpl. unfold deleteBlocksWhere, deleteTransactionsWhere.
  cbn [blocks transactions utxos address_balances setBlocks setTransactions setUtxos].
  rewrite Hnone.
  rewrite (filter_all (fun b => negb (k <? BlockRow.height b)) (blocks s))
    by (intros b Hb; apply negb_true_iff, Z.ltb_ge; auto).
  simpl. rewrite (filter_none (fun _ => false) (transactions s)) by reflexivity.
  simpl. rewrite !filter_all by reflexivity. now destruct s.
Qed.

Lemma rollback_chain (k : Z) (bs : list Block.t) :
  forall s s_n,
    Consistent s -> submitAll s bs = Some s_n ->
    (forall b, In b (blocks s) -> BlockRow.height b <= k) -> k < nextHeight s ->
    sameTables (rollbackToHeight s_n k) s
    /\ Consistent s_n
    /\ nextHeight s_n = nextHeight s + Z.of_nat (List.length bs).
Proof.
  induction bs as [|b bs IH] using rev_ind; intros s s_n Hc Hsub Hbelow Hk.
  - simpl in Hsub. injection Hsub as <-. rewrite rollbackToHeight_noop by assumption.
    split; [apply sameTables_refl|]. split; [assumption|]. simpl. lia.
  - rewrite submitAll_app in Hsub.
    destruct (submitAll s bs) as [s'|] eqn:Hbs; [|discriminate].
    apply submitAll_cons in Hsub. destruct Hsub as (s1 & Hp & [= ->]).
    destruct (IH s s' Hc Hbs Hbelow Hk) as (Hsame & Hc' & Hnext).
    destruct (postBlocks_on_top s' s_n b Hc' Hp) as (Hcn & _ & Hnext' & _).
    split; [|split; [assumption|]].
    + apply (sameTables_trans _ (rollbackToHeight s' k)); auto.
      apply (rollbackToHeight_below_top s' s_n b k); auto. lia.
    + rewrite length_app, Nat2Z.inj_add. simpl. lia.
Qed.


Lemma unspentSum_same (s s' : Store) (a : string) :
  utxos s = utxos s' -> unspentSum s a = unspentSum s' a.
Proof. unfold unspentSum. now intros ->. Qed.



(** ** The order of the rollback *)

Lemma StronglySorted_strict {A : Type} (f : A -> Z) (l : list A) :
  StronglySorted (fun a b => (f b <=? f a) = true) l -> NoDup (map f l) ->
  StronglySorted (fun a b => f b < f a) l.
Proof.
  induction 1 as [|a l Hs IH Hhd]; simpl; intros Hnd; constructor;
    inversion Hnd as [|? ? Hnotin Hnd']; subst; auto.
  rewrite Forall_forall in *. intros b Hb. specialize (Hhd b Hb). apply Z.leb_le in Hhd.
  assert (f b <> f a); [|lia]. intros E. apply Hnotin. rewrite <- E. now apply in_map.
Qed.

(** C2 (as the code has it).  [rollbackToHeight] undoes exactly the blocks
    above the target height, highest first (strictly descending heights on a
    store with distinct heights); within a block [rollbackBlock] undoes the
    block's transactions in ascending order of their ids. *)
Theorem rollback_order (s : Store) (targetHeight : Z) (blockId : string) (blockHeight : Z) :
  rollbackToHeight s targetHeight
    = deleteBlocksWhere (fun b => targetHeight <? BlockRow.height b)
        (fold_left (fun s block => rollbackBlock s (BlockRow.id block) (BlockRow.height block))
                   (blocksToRemove s targetHeight) s)
  /\ (forall b, In b (blocksToRemove s targetHeight)
                <-> In b (blocks s) /\ targetHeight < BlockRow.height b)
  /\ StronglySorted (fun a b => BlockRow.height b <= BlockRow.height a)
                    (blocksToRemove s targetHeight)
  /\ (NoDup (map BlockRow.height (blocks s)) ->
      StronglySorted (fun a b => BlockRow.height b < BlockRow.height a)
                     (blocksToRemove s targetHeight))
  /\ rollbackBlock s blockId blockHeight
       = fold_left rollbackTransaction (blockTransactionIds s blockId) s
  /\ Permutation
       (map TxRow.id (filter (fun t => String.eqb (TxRow.block_id t) blockId) (transactions s)))
       (blockTransactionIds s blockId)
  /\ Sorted (fun a b => String.leb a b = true) (blockTransactionIds s blockId).
Proof.
  split; [reflexivity|]. split; [apply blocksToRemove_In|]. split; [|split; [|split; [|split]]].
  - pose proof (blocksToRemove_sorted s targetHeight) as H.
    induction H as [|a l _ IH Hhd]; constructor; auto.
    apply (Forall_impl _ (P := descending a)); auto. intros b. unfold descending.
    now rewrite Z.leb_le.
  - intros Hnd. apply StronglySorted_strict; [apply blocksToRemove_sorted|].
    unfold blocksToRemove.
    apply (Permutation_NoDup (l := map BlockRow.height
             (filter (fun b => targetHeight <? BlockRow.height b) (blocks s)))).
    + apply Permutation_map, sortBy_perm.
    + now apply NoDup_map_filter.
  - reflexivity.
  - apply orderById_perm.
  - apply orderById_sorted.
Qed.

Lemma rollback_order_witness :
  StronglySorted (fun a b => BlockRow.height b < BlockRow.height a)
    (blocksToRemove
       (fst (postBlocks (fst (postBlocks emptyStore ScenarioA.block1)) ScenarioA.block2)) 0).
Proof.
  apply (rollback_order
           (fst (postBlocks (fst (postBlocks emptyStore ScenarioA.block1)) ScenarioA.block2))
           0 "" 0).
  vm_compute. repeat constructor; simpl; intuition discriminate.
Defined.

(** The transactions ["a"; "b"] of a block are applied in this order and
    undone in this order too, not in the reverse one. *)
Lemma rollback_order_counterexample :
  snd (postBlocks emptyStore TwoMints.block) = Success
  /\ map Transaction.id (Block.transactions TwoMints.block) = ["a"; "b"]
  /\ map TxRow.id (transactions TwoMints.store) = ["a"; "b"]
  /\ blockTransactionIds TwoMints.store (Block.id TwoMints.block) = ["a"; "b"]
  /\ blockTransactionIds TwoMints.store (Block.id TwoMints.block)
     <> rev (map Transaction.id (Block.transactions TwoMints.block)).
Proof. vm_compute. repeat split; discriminate. Qed.

(** ** Spending inside a block *)

Lemma unspentRows_nonempty (s : Store) (input : Input.t) :
  unspentRows s input <> [] <->
  exists row, In row (utxos s) /\ utxoKey row = inputKey input /\ Utxo.is_spent row = false.
Proof.
  unfold unspentRows. split.
  - destruct (filter _ (utxos s)) as [|row rest] eqn:E; [congruence|]. intros _.
    assert (In row (filter (fun u => refersTo input u && negb (Utxo.is_spent u)) (utxos s)))
      as Hrow by (rewrite E; now left).
    apply filter_In in Hrow. destruct Hrow as [Hin Hp]. apply andb_true_iff in Hp.
    destruct Hp as [Hr Hs]. apply refersTo_key in Hr. apply negb_true_iff in Hs. eauto.
  - intros (row & Hin & Hk & Hs) E.
    assert (In row (filter (fun u => refersTo input u && negb (Utxo.is_spent u)) (utxos s)))
      as Hrow.
    { apply filter_In. split; [assumption|]. apply andb_true_iff. split.
      - now apply refersTo_key.
      - now apply negb_true_iff. }
    now rewrite E in Hrow.
Qed.

(** The transactions of an applied block were not in the store before. *)
Lemma processBlockBody_fresh (s s1 : Store) (block : Block.t) :
  Consistent s -> Consistent s1 -> processBlockBody s block = Ok s1 ->
  forall tx, In tx (Block.transactions block) ->
    ~ In (Transaction.id tx) (map TxRow.id (transactions s)).
Proof.
  intros Hc Hc1 Hp tx Htx Hin.
  destruct (processBlockBody_shape s s1 block (utxo_keys_unique s Hc) Hp)
    as (_ & [_ _ (newRows & _ & _ & Hids & Ht & _)]).
  apply (NoDup_app_disjoint (map TxRow.id (transactions s)) (map TxRow.id newRows)
           (Transaction.id tx)); auto.
  - rewrite <- map_app, <- Ht. apply Hc1.
  - rewrite Hids. now apply in_map.
Qed.

(** C5 (as the code has it).  On a ledger, a submitted block is accepted only
    if every input of every transaction names a row that is unspent in the
    store before the block; a block with an input that names an output of a
    transaction of the same block, earlier or later, is refused with the
    store unchanged; and the refusal is the "Referenced input ... not found
    or already spent" validation error when the height and the id are right,
    the transactions before it validate, the server takes the inputs of the
    transaction as parameters, and no transaction with the id the input
    names is stored. *)
Theorem intra_block_spending (s : Store) (block : Block.t) :
  reachable s ->
  (snd (postBlocks s block) = Success ->
   forall tx input, In tx (Block.transactions block) -> In input (Transaction.inputs tx) ->
     exists row, In row (utxos s) /\ utxoKey row = inputKey input
                 /\ Utxo.is_spent row = false)
  /\ (forall tx tx' input,
        In tx (Block.transactions block) -> In tx' (Block.transactions block) ->
        In input (Transaction.inputs tx) -> Input.txId input = Transaction.id tx' ->
        fst (postBlocks s block) = s /\ snd (postBlocks s block) <> Success)
  /\ (forall pre tx post input,
        Block.height block = nextHeight s -> Block.id block = expectedId block ->
        Block.transactions block = pre ++ tx :: post ->
        Forall (fun t => validateTransaction s t = Ok tt) pre ->
        Forall inputAccepted (Transaction.inputs tx) ->
        In input (Transaction.inputs tx) ->
        ~ In (Input.txId input) (map TxRow.id (transactions s)) ->
        postBlocks s block = (s, ValidationFailure InputNotFound)).
Proof.
  intros Hr. pose proof (reachable_consistent s Hr) as Hc.
  assert (snd (postBlocks s block) = Success ->
          forall tx input, In tx (Block.transactions block) ->
            In input (Transaction.inputs tx) ->
            exists row, In row (utxos s) /\ utxoKey row = inputKey input
                        /\ Utxo.is_spent row = false) as Hfirst.
  { intros Hok tx input Htx Hin. destruct (postBlocks s block) as [s1 r] eqn:E.
    simpl in Hok. subst r. apply postBlocks_Success in E. destruct E as [Hv _].
    apply validateBlock_Ok in Hv. destruct Hv as (_ & _ & Hall).
    rewrite Forall_forall in Hall. apply unspentRows_nonempty.
    now apply (validateTransaction_Ok_inputs s tx (Hall tx Htx)). }
  split; [exact Hfirst|]. split.
  - intros tx tx' input Htx Htx' Hin Href.
    assert (snd (postBlocks s block) <> Success) as Hfail.
    { intros Hok. destruct (Hfirst Hok tx input Htx Hin) as (row & Hrow & Hk & _).
      destruct (postBlocks s block) as [s1 r] eqn:E. simpl in Hok. subst r.
      pose proof (postBlocks_consistent s s1 block Hc E) as Hc1.
      apply postBlocks_Success in E. destruct E as [_ Hp].
      apply (processBlockBody_fresh s s1 block Hc Hc1 Hp tx' Htx').
      destruct (utxo_tx s Hc row Hrow) as (t & Ht & Hid & _).
      unfold utxoKey, inputKey in Hk. injection Hk as Hk _.
      rewrite <- Href, <- Hk, <- Hid. now apply in_map. }
    split; [now apply postBlocks_store | exact Hfail].
  - intros pre tx post input Hh Hid Htxs Hpre Hacc Hin Hfresh.
    apply postBlocks_validation_failure.
    apply (validateBlock_first_failure s block pre post tx); auto.
    apply (validateTransaction_unresolved s tx input Hacc Hin).
    destruct (unspentRows s input) as [|row rest] eqn:E; [reflexivity|]. exfalso.
    assert (unspentRows s input <> []) as Hne by congruence.
    apply unspentRows_nonempty in Hne. destruct Hne as (row' & Hrow & Hk & _).
    destruct (utxo_tx s Hc row' Hrow) as (t & Ht & Htid & _). apply Hfresh.
    unfold utxoKey, inputKey in Hk. injection Hk as Hk _.
    rewrite <- Hk, <- Htid. now apply in_map.
Qed.

Lemma intra_block_spending_witness :
  fst (postBlocks emptyStore ChainInBlock.block) = emptyStore
  /\ snd (postBlocks emptyStore ChainInBlock.block) <> Success.
Proof.
  apply (proj1 (proj2 (intra_block_spending emptyStore ChainInBlock.block
                         reachable_empty))
           (createTestTransaction "tx2" [Input.mk "tx1" 0] [Output.mk "addr2" 100])
           (createTestTransaction "tx1" [] [Output.mk "addr1" 100])
           (Input.mk "tx1" 0)).
  - simpl. auto.
  - simpl. auto.
  - simpl. auto.
  - reflexivity.
Defined.

(** A transaction that spends the output of the transaction just before it in
    the same block: [processBlock] alone applies the block, [POST /blocks]
    refuses it. *)
Lemma intra_block_spending_counterexample :
  snd (processBlock emptyStore ChainInBlock.block) = Ok tt
  /\ postBlocks emptyStore ChainInBlock.block
     = (emptyStore, ValidationFailure InputNotFound).
Proof. vm_compute. split; reflexivity. Qed.

(** ** Double spending *)

Lemma allSpent_unspentRows (s : Store) (input : Input.t) :
  allSpent (inputKey input) s -> unspentRows s input = [].
Proof.
  intros [_ Hall]. destruct (unspentRows s input) as [|row rest] eqn:E; [reflexivity|].
  assert (unspentRows s input <> []) as Hne by congruence.
  apply unspentRows_nonempty in Hne. destruct Hne as (u & Hu & Hk & Hs).
  rewrite (Hall u Hu Hk) in Hs. discriminate.
Qed.

Lemma insertTransaction_allSpent (s s' : Store) (id : string) (h : Z) (key : string * Z) :
  insertTransaction s id h = Ok s' -> allSpent key s -> allSpent key s'.
Proof.
  intros H. apply insertTransaction_Ok in H. destruct H as (b & _ & _ & _ & _ & ->).
  auto.
Qed.

Lemma spendUTXO_allSpent (s s' : Store) (input : Input.t) (txid : string) (key : string * Z) :
  spendUTXO s input txid = Ok s' -> allSpent key s -> allSpent key s'.
Proof.
  intros H [(u & Hu & Hk) Hall]. apply spendUTXO_Ok in H.
  destruct H as (row & _ & _ & _ & ->). split; simpl.
  - exists (if refersTo input u then setSpent true (Some txid) u else u). split.
    + apply in_map_iff. exists u. auto.
    + now destruct (refersTo input u).
  - intros u' Hu' Hk'. apply in_map_iff in Hu'. destruct Hu' as (v & <- & Hv).
    destruct (refersTo input v); [reflexivity | auto].
Qed.

Lemma spendUTXO_spends (s s' : Store) (input : Input.t) (txid : string) :
  spendUTXO s input txid = Ok s' ->
  ~ allSpent (inputKey input) s /\ allSpent (inputKey input) s'.
Proof.
  intros H. pose proof H as H0. apply spendUTXO_Ok in H.
  destruct H as (row & Hrow & Hrefers & Hunspent & ->). split.
  - intros [_ Hall]. apply refersTo_key in Hrefers.
    rewrite (Hall row Hrow Hrefers) in Hunspent. discriminate.
  - split; simpl.
    + exists (setSpent true (Some txid) row). split.
      * apply in_map_iff. exists row. now rewrite Hrefers.
      * now apply refersTo_key in Hrefers.
    + intros u' Hu' Hk'. apply in_map_iff in Hu'. destruct Hu' as (v & <- & Hv).
      destruct (refersTo input v) eqn:Hr; [reflexivity|].
      apply refersTo_key in Hk'. congruence.
Qed.

Lemma createUTXO_allSpent (s s' : Store) (txid : string) (index : Z) (o : Output.t) (h : Z)
    (key : string * Z) :
  createUTXO s txid index o h = Ok s' -> allSpent key s -> allSpent key s'.
Proof.
  intros H [(u & Hu & Hk) Hall]. apply createUTXO_Ok in H.
  destruct H as (Hfresh & _ & ->). split; simpl.
  - exists u. split; [apply in_app_iff; now left | assumption].
  - intros u' Hu' Hk'. apply in_app_iff in Hu'. destruct Hu' as [Hu'|[<-|[]]]; auto.
    exfalso. apply Hfresh. simpl in Hk'. unfold utxoKey in Hk'. simpl in Hk'.
    rewrite Hk', <- Hk. now apply in_map.
Qed.

Lemma createOutputs_allSpent (txid : string) (outputs : list Output.t) (h : Z)
    (key : string * Z) :
  forall s s' index,
    createOutputs s txid index outputs h = Ok s' -> allSpent key s -> allSpent key s'.
Proof.
  induction outputs as [|o outputs IH]; simpl; intros s s' index H Hs.
  - now inversion H; subst.
  - inv_bind H. apply (IH s0 s' (index + 1)); auto.
    now apply (createUTXO_allSpent s s0 txid index o h).
Qed.

(** The keys spent so far ([done]) stay spent, and a successful run never
    spends a key twice. *)
Lemma spendAll_keys (txid : string) (inputs : list Input.t) :
  forall done s s',
    (forall key, In key done -> allSpent key s) ->
    forEach (fun s input => spendUTXO s input txid) inputs s = Ok s' ->
    NoDup (map inputKey inputs)
    /\ (forall key, In key done -> ~ In key (map inputKey inputs))
    /\ (forall key, In key (done ++ map inputKey inputs) -> allSpent key s').
Proof.
  induction inputs as [|i inputs IH]; simpl; intros done s s' Hdone H.
  - inversion H; subst. rewrite app_nil_r.
    split; [constructor|]. split; [intros key _ []|auto].
  - inv_bind H. destruct (spendUTXO_spends s s0 i txid Hs0) as [Hnot Hnow].
    destruct (IH (done ++ [inputKey i]) s0 s') as (Hnd & Hdisj & Hall); auto.
    { intros key Hk. apply in_app_iff in Hk. destruct Hk as [Hk|[<-|[]]]; auto.
      apply (spendUTXO_allSpent s s0 i txid key Hs0). now apply Hdone. }
    split; [|split].
    + constructor; auto. apply (Hdisj (inputKey i)). apply in_app_iff. right. now left.
    + intros key Hk [<-|Hin].
      * apply Hnot. now apply Hdone.
      * apply (Hdisj key); auto. apply in_app_iff. now left.
    + intros key Hk. apply Hall. rewrite <- app_assoc. exact Hk.
Qed.

Lemma processTransactions_keys (h : Z) (txs : list Transaction.t) :
  forall done s s',
    (forall key, In key done -> allSpent key s) ->
    forEach (fun s tx => processTransaction s tx h) txs s = Ok s' ->
    NoDup (map inputKey (flat_map Transaction.inputs txs))
    /\ (forall key, In key done -> ~ In key (map inputKey (flat_map Transaction.inputs txs)))
    /\ (forall key, In key (done ++ map inputKey (flat_map Transaction.inputs txs)) ->
          allSpent key s').
Proof.
  induction txs as [|tx txs IH]; simpl; intros done s s' Hdone H.
  - inversion H; subst. rewrite app_nil_r.
    split; [constructor|]. split; [intros key _ []|auto].
  - inv_bind H. unfold processTransaction in Hs0. inv_bind Hs0. inv_bind Hs0.
    destruct (spendAll_keys (Transaction.id tx) (Transaction.inputs tx) done s1 s2)
      as (Hnd1 & Hdisj1 & Hall1); auto.
    { intros key Hk. apply (insertTransaction_allSpent s s1 _ _ key Hs1). now apply Hdone. }
    destruct (IH (done ++ map inputKey (Transaction.inputs tx)) s0 s')
      as (Hnd2 & Hdisj2 & Hall2); auto.
    { intros key Hk. apply (createOutputs_allSpent _ _ _ key s2 s0 0 Hs0). now apply Hall1. }
    rewrite map_app. split; [|split].
    + apply NoDup_app; auto. intros key Hk. apply Hdisj2. apply in_app_iff. now right.
    + intros key Hk Hin. apply in_app_iff in Hin. destruct Hin as [Hin|Hin].
      * now apply (Hdisj1 key).
      * apply (Hdisj2 key); auto. apply in_app_iff. now left.
    + intros key Hk. apply Hall2. rewrite <- app_assoc. exact Hk.
Qed.

(** An applied block spends each key once, and leaves it spent. *)
Lemma processBlockBody_keys (s s' : Store) (block : Block.t) :
  processBlockBody s block = Ok s' ->
  NoDup (map inputKey (allInputs block))
  /\ forall input, In input (allInputs block) -> allSpent (inputKey input) s'.
Proof.
  intros H. unfold processBlockBody in H. inv_bind H.
  destruct (processTransactions_keys (Block.height block) (Block.transactions block)
              [] s0 s') as (Hnd & _ & Hall); auto.
  { intros key []. }
  split; [exact Hnd|]. intros input Hin. apply Hall. simpl. now apply in_map.
Qed.

Lemma postBlocks_keeps_spent (s s' : Store) (block : Block.t) (key : string * Z) :
  postBlocks s block = (s', Success) -> allSpent key s -> allSpent key s'.
Proof.
  intros H Hs. apply postBlocks_Success in H. destruct H as [_ H].
  unfold processBlockBody in H. inv_bind H.
  apply insertBlock_Ok in Hs0. destruct Hs0 as (-> & _).
  pose proof (fun D => processTransactions_keys (Block.height block)
                (Block.transactions block) [key] _ s' D H) as Hkeys.
  destruct Hkeys as (_ & _ & Hall).
  { intros k [<-|[]]. exact Hs. }
  apply Hall. now left.
Qed.

Lemma submitAll_keeps_spent (bs : list Block.t) (key : string * Z) :
  forall s s', submitAll s bs = Some s' -> allSpent key s -> allSpent key s'.
Proof.
  induction bs as [|b bs IH]; intros s s' H Hs.
  - simpl in H. now injection H as <-.
  - apply submitAll_cons in H. destruct H as (s1 & Hp & H).
    apply (IH s1 s' H). now apply (postBlocks_keeps_spent s s1 b).
Qed.

(** What [processBlock] throws is never a [ValidationError]: the handler
    answers it as an internal error. *)
Lemma bind_Err {A B : Type} (r : result A) (k : A -> result B) (e : error) :
  bind r k = Err e -> r = Err e \/ exists a, r = Ok a /\ k a = Err e.
Proof.
  destruct r as [a|e']; simpl; intros H; [right; eauto | left; now injection H as ->].
Qed.

Lemma forEach_Err {S A : Type} (f : S -> A -> result S) (xs : list A) (e : error) :
  forall s, forEach f xs s = Err e -> exists s0 x, In x xs /\ f s0 x = Err e.
Proof.
  induction xs as [|x xs IH]; simpl; intros s H; [discriminate|].
  apply bind_Err in H. destruct H as [H|(s1 & _ & H)].
  - exists s, x. auto.
  - destruct (IH s1 H) as (s0 & y & Hy & He). exists s0, y. auto.
Qed.

Lemma dataError_reply (e : error) : isDataError e -> replyOf e = InternalServerError.
Proof. intros [d ->]. reflexivity. Qed.

(** Peels the conversions of the parameters off a statement that raised. *)
Ltac refused H :=
  repeat (apply then_Err in H; destruct H as [H|[_ H]];
          [ first [ apply textParameter_Err in H
                  | apply numericParameter_Err in H
                  | apply varchar_Err in H ];
            now apply dataError_reply | ]).

Lemma createOutputs_Err (txid : string) (outputs : list Output.t) (h : Z) (e : error) :
  forall s index, createOutputs s txid index outputs h = Err e ->
    replyOf e = InternalServerError.
Proof.
  induction outputs as [|o outputs IH]; simpl; intros s index H; [discriminate|].
  apply bind_Err in H. destruct H as [H|(s1 & _ & H)]; [|eauto].
  unfold createUTXO in H. refused H.
  destruct (existsb _ (utxos s)); [now injection H as <-|].
  destruct (existsb _ (transactions s)); simpl in H; [discriminate | now injection H as <-].
Qed.

Lemma processTransaction_Err (s : Store) (tx : Transaction.t) (h : Z) (e : error) :
  processTransaction s tx h = Err e -> replyOf e = InternalServerError.
Proof.
  unfold processTransaction. intros H.
  apply bind_Err in H. destruct H as [H|(s1 & _ & H)].
  - unfold insertTransaction in H. refused H.
    destruct (filter _ (blocks s)); [now injection H as <-|].
    destruct (existsb _ (transactions s)); [now injection H as <- | discriminate].
  - apply bind_Err in H. destruct H as [H|(s2 & _ & H)].
    + apply forEach_Err in H. destruct H as (s0 & i & _ & H). unfold spendUTXO in H.
      refused H. destruct (unspentRows s0 i); [now injection H as <- | discriminate].
    + now apply createOutputs_Err in H.
Qed.

Lemma processBlockBody_Err (s : Store) (block : Block.t) (e : error) :
  processBlockBody s block = Err e -> replyOf e = InternalServerError.
Proof.
  unfold processBlockBody. intros H.
  apply bind_Err in H. destruct H as [H|(s1 & _ & H)].
  - unfold insertBlock in H. refused H.
    destruct (existsb _ (blocks s)); [now injection H as <-|].
    destruct (existsb _ (blocks s)); [now injection H as <- | discriminate].
  - apply forEach_Err in H. destruct H as (s0 & tx & _ & H).
    now apply processTransaction_Err in H.
Qed.

Lemma validateTransaction_Err (s : Store) (tx : Transaction.t) (e : error) :
  validateTransaction s tx = Err e ->
  e = ValidationError ValueMismatch
  \/ exists input, In input (Transaction.inputs tx) /\ getInputValue s input = Err e.
Proof.
  unfold validateTransaction.
  destruct (mapM (getInputValue s) (Transaction.inputs tx)) as [vs|e'] eqn:E; simpl.
  - destruct (Transaction.inputs tx); [discriminate|].
    destruct (Number.strictEquals _ _); [discriminate|]. intros [= <-]. now left.
  - intros [= <-]. right. now apply mapM_Err in E.
Qed.

(** A block is answered with "Referenced input ... not found or already
    spent" only when one of its inputs names no unspent row of the store. *)
Lemma postBlocks_InputNotFound (s : Store) (block : Block.t) :
  snd (postBlocks s block) = ValidationFailure InputNotFound ->
  exists tx input, In tx (Block.transactions block) /\ In input (Transaction.inputs tx)
                   /\ unspentRows s input = [].
Proof.
  unfold postBlocks, processBlock.
  destruct (validateBlock s block) as [[]|e] eqn:Hv.
  - destruct (processBlockBody s block) as [s1|e] eqn:Hp; simpl; [discriminate|].
    rewrite (processBlockBody_Err s block e Hp). discriminate.
  - simpl. intros He. destruct e as [m| |c|d]; try discriminate. injection He as ->.
    unfold validateBlock in Hv.
    apply bind_Err in Hv. destruct Hv as [Hv|(_ & _ & Hv)].
    { unfold validateBlockHeight in Hv. destruct (_ =? _); discriminate. }
    apply bind_Err in Hv. destruct Hv as [Hv|(_ & _ & Hv)].
    { unfold validateBlockId in Hv. destruct (_ =? _)%string; discriminate. }
    apply forAll_Err_inv in Hv. destruct Hv as (tx & Htx & Hv).
    apply validateTransaction_Err in Hv. destruct Hv as [Hv|(input & Hin & Hv)]; [discriminate|].
    apply getInputValue_Err in Hv. destruct Hv as [(_ & _ & Hnone)|(d & Hd)]; [|discriminate].
    eauto.
Qed.

(** C6 (as the code has it).  A block with an input whose row is missing or
    spent in the store, as it is once an accepted block has spent it, is
    refused with the store unchanged, by the "Referenced input ... not found
    or already spent" validation error when the height and the id are right,
    the transactions before it validate and the server takes the inputs of
    the transaction as parameters.  A block that refers twice to one row is
    refused with the store unchanged as well: by that validation error only
    if some input of the block names no unspent row of the store, and by the
    internal error when the block passes [validateBlock]. *)
Theorem double_spend_rejected (s : Store) (block : Block.t) :
  (forall tx input,
     In tx (Block.transactions block) ->
     Forall inputAccepted (Transaction.inputs tx) ->
     In input (Transaction.inputs tx) ->
     unspentRows s input = [] ->
     validateTransaction s tx = Err (ValidationError InputNotFound)
     /\ fst (postBlocks s block) = s /\ snd (postBlocks s block) <> Success)
  /\ (forall pre tx post input,
        Block.height block = nextHeight s -> Block.id block = expectedId block ->
        Block.transactions block = pre ++ tx :: post ->
        Forall (fun t => validateTransaction s t = Ok tt) pre ->
        Forall inputAccepted (Transaction.inputs tx) ->
        In input (Transaction.inputs tx) -> unspentRows s input = [] ->
        postBlocks s block = (s, ValidationFailure InputNotFound))
  /\ (forall s0 s1 block0 between input input',
        postBlocks s0 block0 = (s1, Success) -> submitAll s1 between = Some s ->
        In input (allInputs block0) -> inputKey input' = inputKey input ->
        unspentRows s input' = [])
  /\ (~ NoDup (map inputKey (allInputs block)) ->
      fst (postBlocks s block) = s /\ snd (postBlocks s block) <> Success
      /\ (validateBlock s block = Ok tt ->
          postBlocks s block = (s, InternalServerError))
      /\ ((forall input, In input (allInputs block) -> unspentRows s input <> []) ->
          snd (postBlocks s block) <> ValidationFailure InputNotFound)).
Proof.
  split; [|split; [|split]].
  - intros tx input Htx Hacc Hin Hnone.
    pose proof (validateTransaction_unresolved s tx input Hacc Hin Hnone) as Hv.
    split; [exact Hv|]. apply (validateBlock_rejects s block tx Htx). congruence.
  - intros pre tx post input Hh Hid Htxs Hpre Hacc Hin Hnone.
    apply postBlocks_validation_failure.
    apply (validateBlock_first_failure s block pre post tx); auto.
    now apply (validateTransaction_unresolved s tx input).
  - intros s0 s1 block0 between input input' Hp Hsub Hin Hkey.
    apply allSpent_unspentRows. rewrite Hkey.
    apply (submitAll_keeps_spent between _ s1 s Hsub).
    apply postBlocks_Success in Hp. destruct Hp as [_ Hp].
    now apply (processBlockBody_keys s0 s1 block0 Hp).
  - intros Hdup.
    assert (snd (postBlocks s block) <> Success) as Hfail.
    { intros Hok. destruct (postBlocks s block) as [s1 r] eqn:E. simpl in Hok. subst r.
      apply postBlocks_Success in E. destruct E as [_ Hp].
      apply Hdup. now apply (processBlockBody_keys s s1 block Hp). }
    split; [now apply postBlocks_store|]. split; [exact Hfail|]. split.
    + intros Hv. unfold postBlocks, processBlock in *. rewrite Hv in *.
      destruct (processBlockBody s block) as [s1|e] eqn:Hp; simpl in *; [congruence|].
      now rewrite (processBlockBody_Err s block e Hp).
    + intros Hall Hnf. apply postBlocks_InputNotFound in Hnf.
      destruct Hnf as (tx & input & Htx & Hin & Hnone).
      apply (Hall input); [|exact Hnone]. unfold allInputs. apply in_flat_map. eauto.
Qed.

Lemma double_spend_rejected_witness :
  postBlocks DoubleSpend.store2 DoubleSpend.spendAgain
  = (DoubleSpend.store2, ValidationFailure InputNotFound).
Proof.
  apply (proj1 (proj2 (double_spend_rejected DoubleSpend.store2 DoubleSpend.spendAgain))
           [] (createTestTransaction "tx3" [Input.mk "tx1" 0] [Output.mk "addr3" 10]) []
           (Input.mk "tx1" 0)).
  - vm_compute. reflexivity.
  - reflexivity.
  - reflexivity.
  - constructor.
  - repeat constructor.
  - simpl. auto.
  - vm_compute. reflexivity.
Defined.

(** Two references to one unspent row inside one block pass or fail
    [validateBlock] on the sums alone: the block ends in the error
    [spendUTXO] throws, answered as an internal error, or in the sum
    mismatch, not in "Referenced input ... not found or already spent". *)
Lemma double_spend_rejected_counterexample :
  postBlocks DoubleSpend.store1 DoubleSpend.sameTransaction
    = (DoubleSpend.store1, InternalServerError)
  /\ snd (processBlock DoubleSpend.store1 DoubleSpend.sameTransaction) = Err SpendError
  /\ postBlocks DoubleSpend.store1 DoubleSpend.twoTransactions
    = (DoubleSpend.store1, InternalServerError)
  /\ postBlocks DoubleSpend.store1 DoubleSpend.sameTransactionOnce
    = (DoubleSpend.store1, ValidationFailure ValueMismatch).
Proof. vm_compute. repeat split. Qed.

Example double_spend_in_later_block :
  snd (postBlocks DoubleSpend.store1 DoubleSpend.spend) = Success
  /\ postBlocks DoubleSpend.store2 DoubleSpend.spendAgain
     = (DoubleSpend.store2, ValidationFailure InputNotFound).
Proof. vm_compute. split; reflexivity. Qed.

(** * Further properties of the ledger *)

(** ** Rollback and the chain of accepted blocks *)

Lemma consistent_sameLedger (s s' : Store) :
  Consistent s -> Consistent s' -> sameTables s s' -> sameLedger s s'.
Proof.
  intros Hc Hc' Hsame. split; [assumption|]. intros a.
  rewrite (balances_correct s Hc), (balances_correct s' Hc').
  apply unspentSum_same. apply Hsame.
Qed.

Lemma sameLedger_refl (s : Store) : sameLedger s s.
Proof. split; [apply sameTables_refl | reflexivity]. Qed.

Lemma sameLedger_sym (s s' : Store) : sameLedger s s' -> sameLedger s' s.
Proof. intros [H1 H2]. split; [now apply sameTables_sym | now intros a; rewrite H2]. Qed.

Lemma sameLedger_trans (s1 s2 s3 : Store) :
  sameLedger s1 s2 -> sameLedger s2 s3 -> sameLedger s1 s3.
Proof.
  intros [H1 H2] [G1 G2]. split; [now apply (sameTables_trans _ s2)|].
  intros a. now rewrite H2.
Qed.

(** No stored block lies above the current height. *)
Lemma heights_below_current (s : Store) (b : BlockRow.t) :
  In b (blocks s) -> BlockRow.height b <= currentHeight s.
Proof.
  intros Hb. pose proof (heights_below_next s b Hb). pose proof (currentHeight_next s). lia.
Qed.

(** The state a prefix of the accepted blocks leads to. *)
Lemma submitAll_prefix (bs : list Block.t) (k : nat) (s_n : Store) :
  submitAll emptyStore bs = Some s_n -> (k <= List.length bs)%nat ->
  exists s_k,
    submitAll emptyStore (firstn k bs) = Some s_k
    /\ submitAll s_k (skipn k bs) = Some s_n
    /\ Consistent s_k /\ Consistent s_n
    /\ nextHeight s_k = Z.of_nat k + 1
    /\ sameTables (rollbackToHeight s_n (Z.of_nat k)) s_k.
Proof.
  intros Hsub Hk. rewrite <- (firstn_skipn k bs), submitAll_app in Hsub.
  destruct (submitAll emptyStore (firstn k bs)) as [s_k|] eqn:Hfirst; [|discriminate].
  destruct (rollback_chain 0 (firstn k bs) emptyStore s_k emptyStore_consistent Hfirst)
    as (_ & Hck & Hnext); [simpl; contradiction | reflexivity|].
  rewrite length_firstn, Nat.min_l in Hnext by assumption.
  change (nextHeight emptyStore) with 1 in Hnext.
  destruct (rollback_chain (Z.of_nat k) (skipn k bs) s_k s_n Hck Hsub)
    as (Hsame & Hcn & _).
  { intros b Hb. pose proof (heights_below_next s_k b Hb). lia. }
  { lia. }
  exists s_k. split; [reflexivity|]. split; [assumption|]. split; [assumption|].
  split; [assumption|]. split; [lia | assumption].
Qed.





(** X3.  Rollback to the current height, or to any height above it, changes
    nothing, not even a balance row; [POST /rollback] with the current height
    accepts. *)
Theorem rollback_to_current_height (s : Store) :
  reachable s ->
  (forall k, currentHeight s <= k -> rollbackToHeight s k = s)
  /\ postRollback s (currentHeight s) = (s, Success).
Proof.
  intros Hr. pose proof (reachable_consistent s Hr) as Hc.
  assert (forall k, currentHeight s <= k -> rollbackToHeight s k = s) as Hnoop.
  { intros k Hk. apply rollbackToHeight_noop. intros b Hb.
    pose proof (heights_below_current s b Hb). lia. }
  split; [assumption|].
  unfold postRollback, validateRollbackHeight.
  pose proof (currentHeight_nonneg s Hc) as Hn.
  assert ((currentHeight s <? 0) = false) as -> by (apply Z.ltb_ge; lia).
  rewrite Z.ltb_irrefl. rewrite Hnoop by lia. reflexivity.
Qed.

Lemma rollback_to_current_height_witness :
  postRollback (fst (postBlocks emptyStore ScenarioA.block1))
               (currentHeight (fst (postBlocks emptyStore ScenarioA.block1)))
  = (fst (postBlocks emptyStore ScenarioA.block1), Success).
Proof.
  apply (rollback_to_current_height (fst (postBlocks emptyStore ScenarioA.block1))).
  apply reachable_postBlocks, reachable_empty.
Defined.

(** ** The heights of the stored blocks *)

Lemma heightsUpTo_S (n : nat) : heightsUpTo (S n) = heightsUpTo n ++ [Z.of_nat (S n)].
Proof. unfold heightsUpTo. now rewrite seq_S, map_app. Qed.

Lemma heightsUpTo_In (n : nat) (h : Z) : In h (heightsUpTo n) <-> 1 <= h <= Z.of_nat n.
Proof.
  unfold heightsUpTo. rewrite in_map_iff. split.
  - intros (i & <- & Hi). apply in_seq in Hi. lia.
  - intros Hh. exists (Z.to_nat h). split; [lia|]. apply in_seq. lia.
Qed.

Lemma heightsUpTo_length (n : nat) : List.length (heightsUpTo n) = n.
Proof. unfold heightsUpTo. now rewrite length_map, length_seq. Qed.

Lemma firstn_seq_min (m : nat) : forall a n, firstn m (seq a n) = seq a (Nat.min m n).
Proof.
  induction m as [|m IH]; intros a [|n]; simpl; try reflexivity. now rewrite IH.
Qed.

Lemma heightsUpTo_firstn (n m : nat) :
  firstn m (heightsUpTo n) = heightsUpTo (Nat.min m n).
Proof. unfold heightsUpTo. now rewrite firstn_map, firstn_seq_min. Qed.

(** The rows at or below height [k] of a table whose heights are 1, ..., n
    are its first [k] rows. *)
Lemma filter_heights_firstn {A : Type} (height : A -> Z) (k : Z) (l : list A) :
  map height l = heightsUpTo (List.length l) ->
  filter (fun x => negb (k <? height x)) l = firstn (Z.to_nat k) l.
Proof.
  induction l as [|x l IH] using rev_ind; intros H.
  - simpl. now rewrite firstn_nil.
  - rewrite length_app, Nat.add_comm in H. simpl in H.
    rewrite map_app, heightsUpTo_S in H. simpl in H.
    apply app_inj_tail in H. destruct H as [Hl Hx].
    rewrite filter_app, (IH Hl). simpl.
    destruct (k <? height x) eqn:E; simpl.
    + apply Z.ltb_lt in E. rewrite app_nil_r.
      rewrite firstn_app.
      replace (Z.to_nat k - List.length l)%nat with 0%nat by lia.
      simpl. now rewrite app_nil_r.
    + apply Z.ltb_ge in E.
      rewrite !firstn_all2 by (rewrite ?length_app; simpl; lia). reflexivity.
Qed.

Lemma nextHeight_of_heights (s : Store) :
  map BlockRow.height (blocks s) = heightsUpTo (List.length (blocks s)) ->
  nextHeight s = Z.of_nat (List.length (blocks s)) + 1.
Proof.
  intros H. pose proof (maxHeight_spec s) as Hmax. unfold nextHeight.
  destruct (maxHeight s) as [m|].
  - destruct Hmax as [Hin Hall]. rewrite H in Hin. apply heightsUpTo_In in Hin.
    destruct (blocks s) as [|b l] eqn:E using rev_ind; [simpl in Hin; lia|].
    clear IHl. rewrite Forall_forall in Hall.
    assert (In b (l ++ [b])) as Hb by (apply in_app_iff; right; now left).
    pose proof (Hall b Hb) as Hle.
    rewrite length_app, Nat.add_comm in H. simpl in H.
    rewrite map_app, heightsUpTo_S in H. apply app_inj_tail in H. destruct H as [_ Hx].
    simpl in Hx. rewrite length_app in *. simpl in *. lia.
  - now rewrite Hmax.
Qed.

Lemma reachable_heights (s : Store) :
  reachable s -> map BlockRow.height (blocks s) = heightsUpTo (List.length (blocks s)).
Proof.
  induction 1 as [| s block Hr IH Hv | s k Hr IH].
  - reflexivity.
  - pose proof (reachable_consistent s Hr) as Hc.
    unfold processBlock. destruct (processBlockBody s block) as [s'|e] eqn:Hp; simpl; auto.
    assert (postBlocks s block = (s', Success)) as Hpost
      by (apply postBlocks_Success; now split).
    destruct (postBlocks_on_top s s' block Hc Hpost) as (_ & Hh & _ & _ & Hb).
    rewrite Hb, map_app, length_app, Nat.add_comm. simpl. rewrite heightsUpTo_S, IH.
    f_equal. rewrite Hh, (nextHeight_of_heights s IH). f_equal. lia.
  - pose proof (reachable_consistent s Hr) as Hc.
    destruct (rollbackToHeight_consistent s k Hc) as (E & _). cbv zeta in E.
    rewrite E. cbn [blocks setBlocks].
    rewrite (filter_heights_firstn BlockRow.height k (blocks s) IH).
    rewrite <- firstn_map, IH, heightsUpTo_firstn, length_firstn. reflexivity.
Qed.

Lemma currentHeight_of_heights (s : Store) :
  map BlockRow.height (blocks s) = heightsUpTo (List.length (blocks s)) ->
  currentHeight s = Z.of_nat (List.length (blocks s)).
Proof.
  intros H. pose proof (nextHeight_of_heights s H). pose proof (currentHeight_next s). lia.
Qed.

(** X4.  The stored blocks of a ledger have the heights 1, 2, ..., n in the order
    of their rows, without a gap: the current height is the number of
    blocks. *)
Theorem heights_are_contiguous (s : Store) :
  reachable s ->
  map BlockRow.height (blocks s) = heightsUpTo (List.length (blocks s))
  /\ currentHeight s = Z.of_nat (List.length (blocks s))
  /\ forall h, 1 <= h <= currentHeight s <->
               exists b, In b (blocks s) /\ BlockRow.height b = h.
Proof.
  intros Hr. pose proof (reachable_heights s Hr) as H.
  pose proof (currentHeight_of_heights s H) as Hcur.
  split; [assumption|]. split; [assumption|].
  intros h. rewrite Hcur, <- heightsUpTo_In, <- H, in_map_iff.
  split; intros (b & H1 & H2); exists b; auto.
Qed.

Lemma heights_are_contiguous_witness :
  map BlockRow.height
    (blocks (rollbackToHeight
       (fst (postBlocks (fst (postBlocks emptyStore ScenarioA.block1)) ScenarioA.block2)) 1))
  = heightsUpTo (List.length
    (blocks (rollbackToHeight
       (fst (postBlocks (fst (postBlocks emptyStore ScenarioA.block1)) ScenarioA.block2)) 1))).
Proof.
  apply heights_are_contiguous.
  apply reachable_rollbackToHeight, reachable_postBlocks, reachable_postBlocks.
  apply reachable_empty.
Defined.



(** ** Every ledger is the ledger of a chain of accepted blocks *)

Lemma rollbackIds_blocks (ids : list string) (s : Store) :
  blocks (fold_left rollbackTransaction ids s) = blocks s.
Proof.
  revert s. induction ids as [|t ids IH]; simpl; intros s; [reflexivity|].
  now rewrite IH, rollbackTransaction_blocks.
Qed.

Lemma rollbackBlocks_blocks (bs : list BlockRow.t) (s : Store) :
  blocks (fold_left (fun s b => rollbackBlock s (BlockRow.id b) (BlockRow.height b)) bs s)
  = blocks s.
Proof.
  revert s. induction bs as [|b bs IH]; simpl; intros s; [reflexivity|].
  rewrite IH. apply rollbackIds_blocks.
Qed.

Lemma deleteBlocksWhere_same (p : BlockRow.t -> bool) (s s' : Store) :
  sameTables s s' -> sameTables (deleteBlocksWhere p s) (deleteBlocksWhere p s').
Proof.
  intros (Hb & Ht & Hu). unfold deleteBlocksWhere, deleteTransactionsWhere.
  cbn [blocks transactions utxos address_balances setBlocks setTransactions setUtxos].
  rewrite Hb, Ht, Hu. repeat split.
Qed.

(** The rollback reads the three chain tables only. *)
Lemma rollbackToHeight_same (s s' : Store) (k : Z) :
  sameTables s s' -> sameTables (rollbackToHeight s k) (rollbackToHeight s' k).
Proof.
  intros (Hb & Ht & Hu). unfold rollbackToHeight. apply deleteBlocksWhere_same.
  assert (blocksToRemove s k = blocksToRemove s' k) as ->
    by (unfold blocksToRemove; now rewrite Hb).
  destruct (rollbackBlocks_sameRows (blocksToRemove s' k) s s' (conj Ht Hu)) as [Ht' Hu'].
  split; [|split; assumption]. now rewrite !rollbackBlocks_blocks.
Qed.

(** The target height matters through the blocks it selects. *)
Lemma rollbackToHeight_ext (s : Store) (k k' : Z) :
  (forall b, In b (blocks s) -> (k <? BlockRow.height b) = (k' <? BlockRow.height b)) ->
  rollbackToHeight s k = rollbackToHeight s k'.
Proof.
  intros H. unfold rollbackToHeight.
  assert (blocksToRemove s k = blocksToRemove s k') as ->.
  { unfold blocksToRemove. f_equal. now apply filter_ext_in. }
  set (s1 := fold_left _ (blocksToRemove s k') s).
  assert (blocks s1 = blocks s) as Hb1 by apply rollbackBlocks_blocks.
  unfold deleteBlocksWhere.
  assert (filter (fun b => k <? BlockRow.height b) (blocks s1)
          = filter (fun b => k' <? BlockRow.height b) (blocks s1)) as ->
    by (rewrite Hb1; now apply filter_ext_in).
  assert (filter (fun b => negb (k <? BlockRow.height b)) (blocks s1)
          = filter (fun b => negb (k' <? BlockRow.height b)) (blocks s1)) as ->
    by (rewrite Hb1; apply filter_ext_in; intros b Hin; now rewrite (H b Hin)).
  reflexivity.
Qed.

Lemma rollbackToHeight_negative (s : Store) (k : Z) :
  Consistent s -> k <= 0 -> rollbackToHeight s k = rollbackToHeight s 0.
Proof.
  intros Hc Hk. apply rollbackToHeight_ext. intros b Hb.
  pose proof (block_heights_positive s Hc b Hb).
  assert ((k <? BlockRow.height b) = true) as -> by (apply Z.ltb_lt; lia).
  symmetry. apply Z.ltb_lt. lia.
Qed.

Lemma submitAll_nextHeight (bs : list Block.t) (s_n : Store) :
  submitAll emptyStore bs = Some s_n ->
  Consistent s_n /\ nextHeight s_n = Z.of_nat (List.length bs) + 1.
Proof.
  intros Hsub.
  destruct (rollback_chain 0 bs emptyStore s_n emptyStore_consistent Hsub)
    as (_ & Hc & Hnext); [simpl; contradiction | reflexivity|].
  change (nextHeight emptyStore) with 1 in Hnext. split; [assumption | lia].
Qed.

(** Rolling back the ledger of a chain, for any target height: the ledger
    of the first [k] blocks, of none when [k] is negative and of all when [k]
    is above the chain. *)
Lemma rollback_of_chain (bs : list Block.t) (s_n : Store) (k : Z) :
  submitAll emptyStore bs = Some s_n ->
  exists s_k,
    submitAll emptyStore (firstn (Z.to_nat k) bs) = Some s_k
    /\ sameTables (rollbackToHeight s_n k) s_k.
Proof.
  intros Hsub. destruct (submitAll_nextHeight bs s_n Hsub) as [Hcn Hnext].
  destruct (Z_lt_le_dec k 0) as [Hneg|Hpos].
  - rewrite (rollbackToHeight_negative s_n k Hcn) by lia.
    replace (Z.to_nat k) with 0%nat by lia.
    destruct (submitAll_prefix bs 0 s_n Hsub) as (s_k & H1 & _ & _ & _ & _ & H2); [lia|].
    exists s_k. split; assumption.
  - destruct (Z_le_gt_dec k (Z.of_nat (List.length bs))) as [Hle|Hgt].
    + destruct (submitAll_prefix bs (Z.to_nat k) s_n Hsub) as (s_k & H1 & _ & _ & _ & _ & H2);
        [lia|].
      rewrite Z2Nat.id in H2 by assumption. exists s_k. split; assumption.
    + rewrite firstn_all2 by lia. exists s_n. split; [assumption|].
      rewrite rollbackToHeight_noop; [apply sameTables_refl|].
      intros b Hb. pose proof (heights_below_next s_n b Hb). lia.
Qed.

Lemma reachable_history (s : Store) :
  reachable s ->
  exists bs s0, submitAll emptyStore bs = Some s0 /\ sameTables s0 s.
Proof.
  induction 1 as [| s block Hr (bs & s0 & Hsub & Hsame) Hv | s k Hr (bs & s0 & Hsub & Hsame)].
  - exists [], emptyStore. split; [reflexivity | apply sameTables_refl].
  - unfold processBlock. destruct (processBlockBody s block) as [s'|e] eqn:Hp; simpl.
    + pose proof (processBlockBody_same s0 s block Hsame) as Hout. rewrite Hp in Hout.
      destruct (processBlockBody s0 block) as [s0'|e] eqn:Hp0; simpl in Hout; [|contradiction].
      rewrite <- (validateBlock_same s0 s block Hsame) in Hv.
      exists (bs ++ [block]), s0'. split; [|assumption].
      rewrite submitAll_app, Hsub. simpl. unfold postBlocks, processBlock.
      now rewrite Hv, Hp0.
    + exists bs, s0. split; assumption.
  - destruct (rollback_of_chain bs s0 k Hsub) as (s_k & Hk & Hsame').
    exists (firstn (Z.to_nat k) bs), s_k. split; [assumption|].
    apply sameTables_sym. apply (sameTables_trans _ (rollbackToHeight s0 k)); [|assumption].
    apply rollbackToHeight_same. now apply sameTables_sym.
Qed.

(** X6.  Whatever blocks were refused and whatever rollbacks were made on the
    way, a ledger is the ledger of a chain: some blocks, accepted one after
    the other from the empty ledger, give the same block, transaction and
    UTXO rows and the same balance for every address. *)
Theorem ledger_has_history (s : Store) :
  reachable s ->
  exists bs s0,
    submitAll emptyStore bs = Some s0
    /\ blocks s0 = blocks s /\ transactions s0 = transactions s /\ utxos s0 = utxos s
    /\ (forall a, storedBalance s0 a = storedBalance s a)
    /\ Z.of_nat (List.length bs) = currentHeight s.
Proof.
  intros Hr. destruct (reachable_history s Hr) as (bs & s0 & Hsub & Hsame).
  destruct (submitAll_nextHeight bs s0 Hsub) as [Hc0 Hnext].
  destruct (consistent_sameLedger s0 s Hc0 (reachable_consistent s Hr) Hsame)
    as [(Hb & Ht & Hu) Hbal].
  exists bs, s0. split; [assumption|]. split; [assumption|]. split; [assumption|].
  split; [assumption|]. split; [assumption|].
  pose proof (currentHeight_next s0) as H0. pose proof (currentHeight_next s) as H1.
  assert (nextHeight s = nextHeight s0) as E by (unfold nextHeight, maxHeight; now rewrite Hb).
  lia.
Qed.

Lemma ledger_has_history_witness :
  exists bs s0,
    submitAll emptyStore bs = Some s0
    /\ utxos s0
       = utxos (rollbackToHeight
           (fst (postBlocks (fst (postBlocks emptyStore ScenarioA.block1)) swappedBlock)) 5).
Proof.
  destruct (ledger_has_history
              (rollbackToHeight
                 (fst (postBlocks (fst (postBlocks emptyStore ScenarioA.block1)) swappedBlock))
                 5))
    as (bs & s0 & Hsub & _ & _ & Hu & _).
  - apply reachable_rollbackToHeight, reachable_postBlocks, reachable_postBlocks.
    apply reachable_empty.
  - exists bs, s0. split; [exact Hsub | exact Hu].
Defined.

(** ** Rollbacks compose *)



(** ** The rows an accepted block leaves *)

Lemma spendUTXO_tables (s s' : Store) (input : Input.t) (txid : string) :
  spendUTXO s input txid = Ok s' ->
  blocks s' = blocks s /\ transactions s' = transactions s
  /\ utxos s' = map (fun u => markInput txid u input) (utxos s).
Proof.
  intros H. apply spendUTXO_Ok in H. destruct H as (row & _ & _ & _ & ->).
  repeat split.
Qed.

Lemma spendAll_tables (txid : string) (inputs : list Input.t) :
  forall cur cur',
    forEach (fun s input => spendUTXO s input txid) inputs cur = Ok cur' ->
    blocks cur' = blocks cur /\ transactions cur' = transactions cur
    /\ utxos cur' = map (fun u => fold_left (markInput txid) inputs u) (utxos cur).
Proof.
  induction inputs as [|i inputs IH]; simpl; intros cur cur' H.
  - injection H as <-. repeat split. now rewrite map_id.
  - apply bind_Ok in H. destruct H as (c1 & H1 & H2).
    destruct (spendUTXO_tables _ _ _ _ H1) as (Hb & Ht & Hu).
    destruct (IH c1 cur' H2) as (Hb' & Ht' & Hu').
    split; [congruence|]. split; [congruence|]. now rewrite Hu', Hu, map_map.
Qed.

Lemma createOutputs_tables (txid : string) (outputs : list Output.t) (h : Z) :
  forall cur cur' index,
    createOutputs cur txid index outputs h = Ok cur' ->
    blocks cur' = blocks cur /\ transactions cur' = transactions cur
    /\ utxos cur' = utxos cur ++ outputRows txid index outputs h.
Proof.
  induction outputs as [|o outputs IH]; simpl; intros cur cur' index H.
  - injection H as <-. repeat split. now rewrite app_nil_r.
  - apply bind_Ok in H. destruct H as (c1 & H1 & H2).
    apply createUTXO_Ok in H1. destruct H1 as (_ & _ & ->).
    destruct (IH _ cur' _ H2) as (Hb' & Ht' & Hu').
    split; [exact Hb'|]. split; [exact Ht'|].
    rewrite Hu'. simpl. now rewrite <- app_assoc.
Qed.

Lemma processTransaction_tables (cur cur' : Store) (tx : Transaction.t) (h : Z) :
  processTransaction cur tx h = Ok cur' ->
  exists b,
    hd_error (filter (fun b => BlockRow.height b =? h) (blocks cur)) = Some b
    /\ blocks cur' = blocks cur
    /\ transactions cur'
       = transactions cur ++ [TxRow.mk (Transaction.id tx) (BlockRow.id b) h]
    /\ utxos cur'
       = map (spendInputs tx) (utxos cur)
         ++ outputRows (Transaction.id tx) 0 (Transaction.outputs tx) h.
Proof.
  unfold processTransaction. intros H.
  apply bind_Ok in H. destruct H as (c1 & H1 & H).
  apply bind_Ok in H. destruct H as (c2 & H2 & H3).
  apply insertTransaction_Ok in H1. destruct H1 as (b & _ & _ & Hhd & _ & ->).
  destruct (spendAll_tables _ _ _ _ H2) as (Hb2 & Ht2 & Hu2).
  destruct (createOutputs_tables _ _ _ _ _ _ H3) as (Hb3 & Ht3 & Hu3).
  exists b. split; [assumption|]. split; [now rewrite Hb3, Hb2|].
  split; [now rewrite Ht3, Ht2|]. now rewrite Hu3, Hu2.
Qed.

Lemma markInput_other (txid : string) (u : Utxo.t) (input : Input.t) :
  Input.txId input <> Utxo.tx_id u -> markInput txid u input = u.
Proof.
  intros H. unfold markInput, refersTo.
  destruct (String.eqb_spec (Utxo.tx_id u) (Input.txId input)); [congruence|reflexivity].
Qed.

Lemma markInput_tx_id (txid : string) (u : Utxo.t) (input : Input.t) :
  Utxo.tx_id (markInput txid u input) = Utxo.tx_id u.
Proof. unfold markInput. now destruct (refersTo input u). Qed.

Lemma spendInputs_other (tx : Transaction.t) (u : Utxo.t) :
  (forall input, In input (Transaction.inputs tx) -> Input.txId input <> Utxo.tx_id u) ->
  spendInputs tx u = u.
Proof.
  unfold spendInputs. induction (Transaction.inputs tx) as [|i l IH]; simpl; intros H.
  - reflexivity.
  - rewrite markInput_other by (apply H; now left). apply IH. intros j Hj. apply H. now right.
Qed.

Lemma spendBlock_other (txs : list Transaction.t) (u : Utxo.t) :
  (forall tx input, In tx txs -> In input (Transaction.inputs tx) ->
     Input.txId input <> Utxo.tx_id u) ->
  spendBlock txs u = u.
Proof.
  unfold spendBlock. induction txs as [|tx txs IH]; simpl; intros H.
  - reflexivity.
  - rewrite spendInputs_other by (intros i Hi; apply (H tx); auto).
    apply IH. intros tx' i Htx Hi. apply (H tx'); auto.
Qed.

Lemma outputRows_tx_id (txid : string) (outputs : list Output.t) (h : Z) :
  forall index u, In u (outputRows txid index outputs h) -> Utxo.tx_id u = txid.
Proof.
  induction outputs as [|o outputs IH]; simpl; intros index u H; [contradiction|].
  destruct H as [<-|H]; [reflexivity|]. now apply (IH (index + 1)).
Qed.

(** The rows after the transactions [txs], none of which spends an output
    of one of them. *)
Lemma processTransactions_tables (h : Z) (b : BlockRow.t) (txs : list Transaction.t) :
  (forall tx input, In tx txs -> In input (Transaction.inputs tx) ->
     ~ In (Input.txId input) (map Transaction.id txs)) ->
  forall cur cur',
    hd_error (filter (fun b => BlockRow.height b =? h) (blocks cur)) = Some b ->
    forEach (fun s tx => processTransaction s tx h) txs cur = Ok cur' ->
    blocks cur' = blocks cur
    /\ transactions cur'
       = transactions cur
         ++ map (fun tx => TxRow.mk (Transaction.id tx) (BlockRow.id b) h) txs
    /\ utxos cur'
       = map (spendBlock txs) (utxos cur)
         ++ flat_map (fun tx => outputRows (Transaction.id tx) 0 (Transaction.outputs tx) h)
                     txs.
Proof.
  induction txs as [|tx txs IH]; intros Hintra cur cur' Hb H; simpl in H.
  - injection H as <-. simpl. rewrite !app_nil_r. repeat split.
    unfold spendBlock. simpl. now rewrite map_id.
  - apply bind_Ok in H. destruct H as (c1 & H1 & H2).
    destruct (processTransaction_tables _ _ _ _ H1) as (b' & Hhd & Hb1 & Ht1 & Hu1).
    rewrite Hb in Hhd. injection Hhd as <-.
    assert (forall tx' input, In tx' txs -> In input (Transaction.inputs tx') ->
              ~ In (Input.txId input) (map Transaction.id txs)) as Hintra'.
    { intros tx' i Htx Hi Hin. apply (Hintra tx' i); [now right | assumption | now right]. }
    rewrite <- Hb1 in Hb.
    destruct (IH Hintra' c1 cur' Hb H2) as (Hb2 & Ht2 & Hu2).
    split; [congruence|]. split.
    + rewrite Ht2, Ht1. simpl. now rewrite <- app_assoc.
    + rewrite Hu2, Hu1, map_app, map_map. simpl. rewrite <- app_assoc. f_equal. f_equal.
      rewrite <- (map_id (outputRows _ _ _ _)) at 2. apply map_ext_in.
      intros u Hu. apply spendBlock_other. intros tx' i Htx Hi.
      rewrite (outputRows_tx_id _ _ _ _ _ Hu). intros E.
      apply (Hintra tx' i); [now right | assumption | left; now symmetry].
Qed.

Lemma insertBlock_first (s s1 : Store) (id : string) (h : Z) :
  insertBlock s id h = Ok s1 ->
  hd_error (filter (fun b => BlockRow.height b =? h) (blocks s1)) = Some (BlockRow.mk id h).
Proof.
  intros H. apply insertBlock_Ok in H. destruct H as (-> & _ & Hh). simpl.
  rewrite filter_app. simpl. rewrite Z.eqb_refl.
  rewrite filter_none; [reflexivity|].
  intros b Hb. apply Z.eqb_neq. intros E. apply Hh. rewrite <- E. now apply in_map.
Qed.

Lemma processBlockBody_tables (s s' : Store) (block : Block.t) :
  (forall tx input, In tx (Block.transactions block) -> In input (Transaction.inputs tx) ->
     ~ In (Input.txId input) (map Transaction.id (Block.transactions block))) ->
  processBlockBody s block = Ok s' ->
  blocks s' = blocks s ++ [BlockRow.mk (Block.id block) (Block.height block)]
  /\ transactions s' = transactions s ++ blockTxRows block
  /\ utxos s' = map (spendBlock (Block.transactions block)) (utxos s) ++ blockOutputRows block.
Proof.
  intros Hintra H. unfold processBlockBody in H. apply bind_Ok in H. destruct H as (s1 & H1 & H2).
  pose proof (insertBlock_first _ _ _ _ H1) as Hhd.
  destruct (processTransactions_tables _ _ _ Hintra s1 s' Hhd H2) as (Hb & Ht & Hu).
  apply insertBlock_Ok in H1. destruct H1 as (-> & _).
  split; [exact Hb|]. split; [exact Ht | exact Hu].
Qed.

(** The inputs of a block a ledger validated name transactions of the
    ledger, and none of the block. *)
Lemma validated_no_chain (s s' : Store) (block : Block.t) :
  Consistent s -> postBlocks s block = (s', Success) ->
  forall tx input, In tx (Block.transactions block) -> In input (Transaction.inputs tx) ->
    ~ In (Input.txId input) (map Transaction.id (Block.transactions block)).
Proof.
  intros Hc Hp tx input Htx Hi Hin.
  pose proof (postBlocks_consistent s s' block Hc Hp) as Hc'.
  apply postBlocks_Success in Hp. destruct Hp as [Hv Hp].
  apply in_map_iff in Hin. destruct Hin as (tx' & E & Htx').
  apply (processBlockBody_fresh s s' block Hc Hc' Hp tx' Htx').
  rewrite E. now apply (validated_inputs_old s block Hc Hv tx input).
Qed.

(** X8.  What an accepted block leaves in the tables: its row on top of
    [blocks]; one row for each of its transactions, in their order, on top of
    [transactions]; in [utxos] the rows of the store, those its inputs name
    marked spent by the transaction that names them, and on top one unspent
    row for each output, numbered from 0 within its transaction. *)
Theorem accepted_block_rows (s s' : Store) (block : Block.t) :
  reachable s -> postBlocks s block = (s', Success) ->
  blocks s' = blocks s ++ [BlockRow.mk (Block.id block) (Block.height block)]
  /\ transactions s' = transactions s ++ blockTxRows block
  /\ utxos s' = map (spendBlock (Block.transactions block)) (utxos s) ++ blockOutputRows block.
Proof.
  intros Hr Hp. pose proof (reachable_consistent s Hr) as Hc.
  apply processBlockBody_tables.
  - now apply (validated_no_chain s s').
  - now apply postBlocks_Success in Hp.
Qed.

Lemma accepted_block_rows_witness :
  utxos (fst (postBlocks (fst (postBlocks emptyStore ScenarioA.block1)) ScenarioA.block2))
  = map (spendBlock (Block.transactions ScenarioA.block2))
        (utxos (fst (postBlocks emptyStore ScenarioA.block1)))
    ++ blockOutputRows ScenarioA.block2.
Proof.
  destruct (accepted_block_rows
              (fst (postBlocks emptyStore ScenarioA.block1))
              (fst (postBlocks (fst (postBlocks emptyStore ScenarioA.block1)) ScenarioA.block2))
              ScenarioA.block2) as (_ & _ & Hu).
  - apply reachable_postBlocks, reachable_empty.
  - vm_compute. reflexivity.
  - exact Hu.
Defined.

Example accepted_block_rows_scenario :
  utxos (fst (postBlocks (fst (postBlocks emptyStore ScenarioA.block1)) ScenarioA.block2))
  = [Utxo.mk "tx1" 0 "genesis" 1000 true (Some "tx2") 1;
     Utxo.mk "tx2" 0 "alpha" 300 false None 2;
     Utxo.mk "tx2" 1 "beta" 400 false None 2;
     Utxo.mk "tx2" 2 "charlie" 300 false None 2].
Proof. vm_compute. reflexivity. Qed.

(** ** When a validated block is applied *)

Lemma existsb_none {A : Type} (f : A -> bool) (l : list A) :
  (forall x, In x l -> f x = false) -> existsb f l = false.
Proof.
  intros H. destruct (existsb f l) eqn:E; [|reflexivity].
  apply existsb_exists in E. destruct E as (x & Hx & Hf). now rewrite (H x Hx) in Hf.
Qed.

Lemma insertTransaction_succeeds (cur : Store) (id : string) (h : Z) :
  textParameter id = Ok tt -> integerParameter h = Ok tt -> varchar 64 id = Ok tt ->
  (exists b, In b (blocks cur) /\ BlockRow.height b = h) ->
  ~ In id (map TxRow.id (transactions cur)) ->
  exists cur', insertTransaction cur id h = Ok cur'.
Proof.
  intros Hp1 Hp2 Hp3 (b & Hb & Hh) Hid. unfold insertTransaction.
  rewrite Hp1, Hp2, Hp3. simpl.
  destruct (filter (fun b => BlockRow.height b =? h) (blocks cur)) as [|b' rest] eqn:E.
  - assert (In b (filter (fun b => BlockRow.height b =? h) (blocks cur))) as Hin
      by (apply filter_In; split; [assumption | now apply Z.eqb_eq]).
    now rewrite E in Hin.
  - rewrite existsb_none; [eexists; reflexivity|].
    intros t Ht. apply String.eqb_neq. intros E'. apply Hid. rewrite <- E'. now apply in_map.
Qed.

Lemma spendUTXO_succeeds (cur : Store) (input : Input.t) (txid : string) :
  inputAccepted input ->
  (exists u, In u (utxos cur) /\ utxoKey u = inputKey input /\ Utxo.is_spent u = false) ->
  exists cur', spendUTXO cur input txid = Ok cur'.
Proof.
  intros [Hp1 Hp2] H. apply unspentRows_nonempty in H. unfold spendUTXO.
  rewrite Hp1, Hp2. simpl.
  destruct (unspentRows cur input) as [|row rest]; [congruence|]. eexists; reflexivity.
Qed.

Lemma markInput_unrelated (txid : string) (u : Utxo.t) (input : Input.t) :
  utxoKey u <> inputKey input -> markInput txid u input = u.
Proof.
  intros H. unfold markInput. destruct (refersTo input u) eqn:E; [|reflexivity].
  apply refersTo_key in E. contradiction.
Qed.

Lemma spendAll_succeeds (s : Store) (txid : string) (inputs : list Input.t) :
  forall spent cur,
    (forall u, In u (utxos s) -> Utxo.is_spent u = false ->
       ~ In (utxoKey u) spent -> In u (utxos cur)) ->
    (forall i, In i inputs ->
       inputAccepted i
       /\ exists u, In u (utxos s) /\ utxoKey u = inputKey i /\ Utxo.is_spent u = false) ->
    NoDup (map inputKey inputs) ->
    (forall i, In i inputs -> ~ In (inputKey i) spent) ->
    exists cur',
      forEach (fun s input => spendUTXO s input txid) inputs cur = Ok cur'
      /\ forall u, In u (utxos s) -> Utxo.is_spent u = false ->
           ~ In (utxoKey u) (map inputKey inputs ++ spent) -> In u (utxos cur').
Proof.
  induction inputs as [|i inputs IH]; intros spent cur Hav Hvalid Hnd Hdis.
  - exists cur. split; [reflexivity | exact Hav].
  - simpl in Hnd. inversion Hnd as [|? ? Hnotin Hnd']; subst.
    destruct (Hvalid i (or_introl eq_refl)) as (Hacc & u & Hu & Hk & Hs).
    assert (In u (utxos cur)) as Hcur.
    { apply Hav; auto. rewrite Hk. apply Hdis. now left. }
    destruct (spendUTXO_succeeds cur i txid Hacc) as (c1 & H1); [eauto|].
    destruct (spendUTXO_tables _ _ _ _ H1) as (_ & _ & Hu1).
    destruct (IH (inputKey i :: spent) c1) as (cur' & H2 & Hav').
    + intros u' Hu' Hs' Hk'. rewrite Hu1. apply in_map_iff. exists u'. split.
      * apply markInput_unrelated. intros E. apply Hk'. now left.
      * apply Hav; auto. intros Hin. apply Hk'. now right.
    + intros j Hj. apply Hvalid. now right.
    + assumption.
    + intros j Hj [E|Hin].
      * apply Hnotin. rewrite E. now apply in_map.
      * apply (Hdis j); [now right | assumption].
    + exists cur'. split; [simpl; rewrite H1; exact H2|].
      intros u' Hu' Hs' Hk'. apply Hav'; auto. intros Hin. apply Hk'.
      simpl. apply in_app_iff in Hin. destruct Hin as [Hin|[E|Hin]].
      * right. apply in_app_iff. now left.
      * now left.
      * right. apply in_app_iff. now right.
Qed.

Lemma createOutputs_succeeds (txid : string) (outputs : list Output.t) (h : Z) :
  textParameter txid = Ok tt -> varchar 64 txid = Ok tt -> integerParameter h = Ok tt ->
  forall cur index,
    outputsFit index outputs ->
    In txid (map TxRow.id (transactions cur)) ->
    (forall u, In u (utxos cur) -> Utxo.tx_id u = txid -> Utxo.output_index u < index) ->
    exists cur', createOutputs cur txid index outputs h = Ok cur'.
Proof.
  intros Hp1 Hp2 Hp3.
  induction outputs as [|o outputs IH]; intros cur index Hfit Htx Hrows.
  - exists cur. reflexivity.
  - destruct Hfit as [(Hf1 & Hf2 & Hf3 & Hf4) Hfit].
    assert (exists c1, createUTXO cur txid index o h = Ok c1) as (c1 & H1).
    { unfold createUTXO. rewrite Hp1, Hf1, Hf2, Hf3, Hp3, Hp2, Hf4. simpl.
      rewrite existsb_none.
      - assert (existsb (fun t => String.eqb (TxRow.id t) txid) (transactions cur) = true)
          as ->; [|eexists; reflexivity].
        apply in_map_iff in Htx. destruct Htx as (t & E & Ht).
        apply existsb_exists. exists t. split; [assumption | now apply String.eqb_eq].
      - intros u Hu. apply andb_false_iff.
        destruct (String.eqb_spec (Utxo.tx_id u) txid) as [E|E]; [right | now left].
        apply Z.eqb_neq. pose proof (Hrows u Hu E). lia. }
    pose proof H1 as H1'. apply createUTXO_Ok in H1'. destruct H1' as (_ & _ & E1).
    destruct (IH c1 (index + 1)) as (cur' & H2).
    + exact Hfit.
    + now rewrite E1.
    + rewrite E1. simpl. intros u Hu Ht. apply in_app_iff in Hu.
      destruct Hu as [Hu|[<-|[]]]; [pose proof (Hrows u Hu Ht); lia | simpl; lia].
    + exists cur'. simpl. now rewrite H1.
Qed.

Lemma fold_markInput_tx_id (txid : string) (inputs : list Input.t) :
  forall u, Utxo.tx_id (fold_left (markInput txid) inputs u) = Utxo.tx_id u.
Proof.
  induction inputs as [|i inputs IH]; simpl; intros u; [reflexivity|].
  now rewrite IH, markInput_tx_id.
Qed.

Lemma processTransaction_succeeds (s : Store) (h : Z) (spent : list (string * Z))
    (done : list string) (cur : Store) (tx : Transaction.t) :
  Ready s h spent done cur ->
  integerParameter h = Ok tt -> transactionFits tx ->
  ~ In (Transaction.id tx) (map TxRow.id (transactions s)) ->
  ~ In (Transaction.id tx) done ->
  (forall i, In i (Transaction.inputs tx) ->
     inputAccepted i
     /\ exists u, In u (utxos s) /\ utxoKey u = inputKey i /\ Utxo.is_spent u = false) ->
  NoDup (map inputKey (Transaction.inputs tx)) ->
  (forall i, In i (Transaction.inputs tx) -> ~ In (inputKey i) spent) ->
  exists cur',
    processTransaction cur tx h = Ok cur'
    /\ Ready s h (map inputKey (Transaction.inputs tx) ++ spent)
             (done ++ [Transaction.id tx]) cur'.
Proof.
  intros [Hblock Htxs Hav Hrows] Hh (Hf1 & Hf2 & Hf3) Hold Hdone Hvalid Hnd Hdis.
  destruct (insertTransaction_succeeds cur (Transaction.id tx) h Hf1 Hh Hf2 Hblock)
    as (c1 & H1).
  { intros Hin. destruct (Htxs _ Hin); contradiction. }
  pose proof H1 as H1'. apply insertTransaction_Ok in H1'.
  destruct H1' as (b & _ & _ & _ & _ & E1).
  destruct (spendAll_succeeds s (Transaction.id tx) (Transaction.inputs tx) spent c1)
    as (c2 & H2 & Hav2); auto.
  { now rewrite E1. }
  destruct (spendAll_tables _ _ _ _ H2) as (Hb2 & Ht2 & Hu2).
  destruct (createOutputs_succeeds (Transaction.id tx) (Transaction.outputs tx) h
              Hf1 Hf2 Hh c2 0 Hf3)
    as (c3 & H3).
  { rewrite Ht2, E1. simpl. rewrite map_app. apply in_app_iff. right. now left. }
  { intros u Hu Ht. exfalso. rewrite Hu2, E1 in Hu. simpl in Hu.
    apply in_map_iff in Hu. destruct Hu as (u0 & <- & Hu0).
    rewrite fold_markInput_tx_id in Ht. destruct (Hrows u0 Hu0) as [Hin|Hin].
    - apply Hold. now rewrite <- Ht.
    - apply Hdone. now rewrite <- Ht. }
  destruct (createOutputs_tables _ _ _ _ _ _ H3) as (Hb3 & Ht3 & Hu3).
  exists c3. split.
  - unfold processTransaction. rewrite H1. simpl. rewrite H2. simpl. exact H3.
  - constructor.
    + rewrite Hb3, Hb2, E1. exact Hblock.
    + intros id Hin. rewrite Ht3, Ht2, E1 in Hin. simpl in Hin. rewrite map_app in Hin.
      apply in_app_iff in Hin. destruct Hin as [Hin|[<-|[]]].
      * destruct (Htxs id Hin); [now left | right; apply in_app_iff; now left].
      * right. apply in_app_iff. right. now left.
    + intros u Hu Hs Hk. rewrite Hu3. apply in_app_iff. left. now apply Hav2.
    + intros u Hu. rewrite Hu3 in Hu. apply in_app_iff in Hu. destruct Hu as [Hu|Hu].
      * rewrite Hu2, E1 in Hu. simpl in Hu. apply in_map_iff in Hu.
        destruct Hu as (u0 & <- & Hu0). rewrite fold_markInput_tx_id.
        destruct (Hrows u0 Hu0); [now left | right; apply in_app_iff; now left].
      * right. apply in_app_iff. right. left. symmetry.
        now apply (outputRows_tx_id _ _ _ _ _ Hu).
Qed.

Lemma NoDup_app_parts {A : Type} (l1 l2 : list A) :
  NoDup (l1 ++ l2) -> NoDup l1 /\ NoDup l2 /\ forall x, In x l1 -> ~ In x l2.
Proof.
  intros H. split; [now apply NoDup_app_remove_r in H|].
  split; [now apply NoDup_app_remove_l in H|].
  intros x. now apply NoDup_app_disjoint.
Qed.

Lemma processTransactions_succeeds (s : Store) (h : Z) (txs : list Transaction.t) :
  forall spent done cur,
    Ready s h spent done cur ->
    integerParameter h = Ok tt -> Forall transactionFits txs ->
    NoDup (map Transaction.id txs) ->
    (forall tx, In tx txs ->
       ~ In (Transaction.id tx) (map TxRow.id (transactions s))
       /\ ~ In (Transaction.id tx) done) ->
    (forall tx i, In tx txs -> In i (Transaction.inputs tx) ->
       inputAccepted i
       /\ exists u, In u (utxos s) /\ utxoKey u = inputKey i /\ Utxo.is_spent u = false) ->
    NoDup (map inputKey (flat_map Transaction.inputs txs)) ->
    (forall i, In i (flat_map Transaction.inputs txs) -> ~ In (inputKey i) spent) ->
    exists cur', forEach (fun s tx => processTransaction s tx h) txs cur = Ok cur'.
Proof.
  induction txs as [|tx txs IH];
    intros spent done cur Hready Hh Hfit Hids Hnew Hvalid Hkeys Hdis.
  - exists cur. reflexivity.
  - inversion Hfit as [|? ? Hfit1 Hfit']; subst.
    simpl in Hids. inversion Hids as [|? ? Hnotin Hids']; subst.
    simpl in Hkeys. rewrite map_app in Hkeys.
    destruct (NoDup_app_parts _ _ Hkeys) as (Hk1 & Hk2 & Hk12).
    destruct (Hnew tx (or_introl eq_refl)) as [Hold Hdone].
    destruct (processTransaction_succeeds s h spent done cur tx Hready Hh Hfit1 Hold Hdone)
      as (c1 & H1 & Hready1); auto.
    { intros i Hi. apply (Hvalid tx); [now left | assumption]. }
    { intros i Hi. apply Hdis. simpl. apply in_app_iff. now left. }
    destruct (IH _ _ c1 Hready1 Hh Hfit' Hids') as (cur' & H2).
    + intros tx' Htx'. destruct (Hnew tx' (or_intror Htx')) as [Ho Hd].
      split; [assumption|]. intros Hin. apply in_app_iff in Hin.
      destruct Hin as [Hin|[E|[]]]; [contradiction|].
      apply Hnotin. rewrite E. now apply in_map.
    + intros tx' i Htx' Hi. apply (Hvalid tx'); [now right | assumption].
    + assumption.
    + intros i Hi Hin. apply in_app_iff in Hin. destruct Hin as [Hin|Hin].
      * apply (Hk12 (inputKey i) Hin). now apply in_map.
      * apply (Hdis i); [|assumption]. simpl. apply in_app_iff. now right.
    + exists cur'. simpl. rewrite H1. exact H2.
Qed.

Lemma processBlockBody_succeeds (s : Store) (block : Block.t) :
  Consistent s -> validateBlock s block = Ok tt -> applicable s block ->
  exists s', processBlockBody s block = Ok s'.
Proof.
  intros Hc Hv (Hid & Hids & Hnew & Hkeys & Hint & Hfit).
  apply validateBlock_Ok in Hv. destruct Hv as (Hh & Hdigest & Hvalid).
  rewrite Forall_forall in Hvalid.
  assert (insertBlock s (Block.id block) (Block.height block)
          = Ok (setBlocks s (blocks s ++ [BlockRow.mk (Block.id block) (Block.height block)])))
    as H1.
  { unfold insertBlock. rewrite Hint.
    destruct (digest_fits (hashInput block)) as [Hd1 Hd2].
    fold (expectedId block) in Hd1, Hd2. rewrite <- Hdigest in Hd1, Hd2.
    rewrite Hd1, Hd2. simpl. rewrite !existsb_none; [reflexivity| |].
    - intros b Hb. apply Z.eqb_neq. pose proof (heights_below_next s b Hb). lia.
    - intros b Hb. apply String.eqb_neq. intros E. apply Hid. rewrite <- E. now apply in_map. }
  destruct (processTransactions_succeeds s (Block.height block) (Block.transactions block)
              [] [] (setBlocks s (blocks s ++ [BlockRow.mk (Block.id block) (Block.height block)])))
    as (s' & H2); auto.
  - constructor; simpl; auto.
    + exists (BlockRow.mk (Block.id block) (Block.height block)).
      split; [apply in_app_iff; right; now left | reflexivity].
    + intros u Hu. left. destruct (utxo_tx s Hc u Hu) as (t & Ht & E & _).
      rewrite <- E. now apply in_map.
  - intros tx i Htx Hi. split.
    + now apply (validateTransaction_Ok_accepted s tx (Hvalid tx Htx)).
    + apply unspentRows_nonempty.
      now apply (validateTransaction_Ok_inputs s tx (Hvalid tx Htx)).
  - exists s'. unfold processBlockBody. rewrite H1. exact H2.
Qed.

Lemma processBlockBody_applicable (s s' : Store) (block : Block.t) :
  Consistent s -> validateBlock s block = Ok tt -> processBlockBody s block = Ok s' ->
  applicable s block.
Proof.
  intros Hc Hv Hp.
  pose proof (processBlockBody_consistent s s' block Hc Hv Hp) as Hc'.
  destruct (processBlockBody_shape s s' block (utxo_keys_unique s Hc) Hp)
    as (Hid & [_ _ (newRows & _ & _ & Hids & Ht & _)]).
  destruct (processBlockBody_fits s s' block Hp) as (_ & _ & Hint & Hfit).
  split; [assumption|]. split; [|split; [|split; [|split]]]; auto.
  - rewrite <- Hids. pose proof (tx_ids_unique s' Hc') as Hnd.
    rewrite Ht, map_app in Hnd. now apply NoDup_app_remove_l in Hnd.
  - now apply (processBlockBody_fresh s s' block).
  - now apply (processBlockBody_keys s s' block).
Qed.

(** X9.  A block that passed [validateBlock] on a ledger is applied exactly when
    its id is not the id of a stored block, the ids of its transactions are
    pairwise distinct and not stored, no two of its inputs name the same
    output, and the columns take its height, the ids of its transactions and
    the addresses and values of its outputs.  Otherwise a declared key, a
    column or [spendUTXO] refuses it: the reply is the internal server error
    and the store is unchanged.  The block is one on which the embedding
    follows the server: no id or address ends in a blank and the balances
    stay within [BIGINT]. *)
Theorem block_acceptance (s : Store) (block : Block.t) :
  reachable s -> validateBlock s block = Ok tt ->
  tidy block -> withinBigint s block ->
  (snd (postBlocks s block) = Success <-> applicable s block)
  /\ (snd (postBlocks s block) <> Success -> postBlocks s block = (s, InternalServerError)).
Proof.
  intros Hr Hv _ _. pose proof (reachable_consistent s Hr) as Hc.
  unfold postBlocks, processBlock. rewrite Hv.
  destruct (processBlockBody s block) as [s'|e] eqn:Hp; simpl.
  - split; [|congruence]. split; [intros _ | reflexivity].
    now apply (processBlockBody_applicable s s').
  - pose proof (processBlockBody_Err s block e Hp) as He. rewrite He.
    split; [|reflexivity]. split.
    + destruct e; simpl in He; discriminate.
    + intros Ha. destruct (processBlockBody_succeeds s block Hc Hv Ha) as (s' & Hs').
      congruence.
Qed.

Lemma block_acceptance_witness :
  postBlocks ReusedId.store1 ReusedId.block2 = (ReusedId.store1, InternalServerError).
Proof.
  apply (proj2 (block_acceptance ReusedId.store1 ReusedId.block2
                  (reachable_postBlocks _ _ reachable_empty) eq_refl
                  ltac:(repeat constructor) ltac:(vm_compute; discriminate))).
  vm_compute. discriminate.
Defined.

(** A transaction id of 65 characters, an address with the character NUL, the
    value [2 ^ 63]: the block passes [validateBlock] and the column refuses
    it.  The double below [2 ^ 63] is taken. *)
Example block_acceptance_columns :
  let long := "0123456789012345678901234567890123456789012345678901234567890123x" in
  let nul := String (ascii_of_nat 0) "a" in
  validateBlock emptyStore (createTestBlock 1 [createTestTransaction long [] []]) = Ok tt
  /\ postBlocks emptyStore (createTestBlock 1 [createTestTransaction long [] []])
     = (emptyStore, InternalServerError)
  /\ validateBlock emptyStore (mintBlock nul 1) = Ok tt
  /\ postBlocks emptyStore (mintBlock nul 1) = (emptyStore, InternalServerError)
  /\ validateBlock emptyStore (mintBlock "addr1" 9223372036854776000) = Ok tt
  /\ postBlocks emptyStore (mintBlock "addr1" 9223372036854776000)
     = (emptyStore, InternalServerError)
  /\ snd (postBlocks emptyStore (mintBlock "addr1" 9223372036854775000)) = Success.
Proof. vm_compute. repeat split. Qed.


(** ** Negative values *)

(** C10.  Nothing checks the sign of an output value: on the empty ledger the
    block that mints a negative value to an address passes [validateBlock],
    is applied by [processBlock], and leaves that address with the negative
    value as its stored balance, which [getAddressBalance] reads.  The value
    is one the [BIGINT] column and a number hold and the address one the
    [VARCHAR(128)] column takes. *)
Theorem negative_output_accepted (address : string) (value : Z) :
  - safeBound <= value < 0 ->
  textParameter address = Ok tt -> varchar 128 address = Ok tt ->
  validateBlock emptyStore (mintBlock address value) = Ok tt
  /\ snd (processBlock emptyStore (mintBlock address value)) = Ok tt
  /\ snd (postBlocks emptyStore (mintBlock address value)) = Success
  /\ storedBalance (fst (postBlocks emptyStore (mintBlock address value))) address = value
  /\ storedBalance (fst (postBlocks emptyStore (mintBlock address value))) address < 0
  /\ getAddressBalance (fst (postBlocks emptyStore (mintBlock address value))) address
     = Ok (Number.Finite value).
Proof.
  intros Hneg Ha Hl.
  assert (Hv : validateBlock emptyStore (mintBlock address value) = Ok tt).
  { apply validateBlock_Ok. repeat split; repeat constructor. }
  assert (Hb : bigintParameter value = Ok tt).
  { apply bigintParameter_Ok. unfold safeBound in Hneg. lia. }
  assert (Hp : exists s', processBlockBody emptyStore (mintBlock address value) = Ok s'
                          /\ storedBalance s' address = value).
  { unfold processBlockBody, mintBlock, createTestBlock, insertBlock.
    cbn [Block.id Block.height Block.transactions].
    match goal with
    | |- context [textParameter (SHA256.hex ?x)] => destruct (digest_fits x) as [-> ->]
    end.
    cbn. rewrite Ha, Hb, Hl. cbn.
    eexists. split; [reflexivity|]. unfold storedBalance. cbn.
    now rewrite String.eqb_refl. }
  destruct Hp as (s' & Hp & Hbal).
  unfold postBlocks, processBlock. rewrite Hv, Hp. cbn [fst snd].
  rewrite (getAddressBalance_stored _ _ Ha), Hbal.
  rewrite parseFloat_exact by lia.
  repeat split; auto. lia.
Qed.

Lemma negative_output_accepted_witness :
  storedBalance (fst (postBlocks emptyStore (mintBlock "addr1" (-100)))) "addr1" = -100.
Proof.
  destruct (negative_output_accepted "addr1" (-100)) as (_ & _ & _ & H & _).
  - unfold safeBound. lia.
  - reflexivity.
  - reflexivity.
  - exact H.
Defined.

(** ** The outputs of an accepted block *)

Lemma filter_single {A : Type} (p : A -> bool) (l : list A) (x : A) :
  NoDup l -> In x l -> p x = true -> (forall y, In y l -> p y = true -> y = x) ->
  filter p l = [x].
Proof.
  induction l as [|a l IH]; intros Hnd Hin Hp Huniq; [contradiction|].
  inversion Hnd as [|? ? Hnotin Hnd']; subst. simpl.
  destruct (p a) eqn:Ea.
  - assert (a = x) as -> by (apply Huniq; [now left | assumption]).
    f_equal. apply filter_none. intros y Hy. destruct (p y) eqn:Ey; [|reflexivity].
    assert (y = x) as -> by (apply Huniq; [now right | assumption]). contradiction.
  - destruct Hin as [->|Hin]; [congruence|].
    apply IH; auto. intros y Hy. apply Huniq. now right.
Qed.

(** With unique keys, the unspent row an input names is the only row
    [getInputValue] and [spendUTXO] select. *)
Lemma unspentRows_single (s : Store) (input : Input.t) (u : Utxo.t) :
  NoDup (map utxoKey (utxos s)) -> In u (utxos s) -> utxoKey u = inputKey input ->
  Utxo.is_spent u = false -> unspentRows s input = [u].
Proof.
  intros Hnd Hin Hk Hs. unfold unspentRows. apply filter_single; auto.
  - now apply (NoDup_map_NoDup utxoKey).
  - apply andb_true_iff. split; [now apply refersTo_key | now rewrite Hs].
  - intros y Hy Hp. apply andb_true_iff in Hp. destruct Hp as [Hr _].
    apply refersTo_key in Hr. apply (NoDup_key_eq utxoKey (utxos s)); auto. congruence.
Qed.

Lemma outputRows_nth (txid : string) (h : Z) (outputs : list Output.t) :
  forall index n output,
    nth_error outputs n = Some output ->
    In (Utxo.mk txid (index + Z.of_nat n) (Output.address output) (Output.value output)
                false None h)
       (outputRows txid index outputs h).
Proof.
  induction outputs as [|o outputs IH]; intros index [|n] output H; simpl in H; try discriminate.
  - injection H as ->. left. f_equal. lia.
  - right. replace (index + Z.of_nat (S n)) with (index + 1 + Z.of_nat n) by lia.
    now apply IH.
Qed.

Lemma outputsFit_nth (outputs : list Output.t) :
  forall index n output,
    outputsFit index outputs -> nth_error outputs n = Some output ->
    outputFits (index + Z.of_nat n) output.
Proof.
  induction outputs as [|o outputs IH]; intros index [|n] output Hfit H; simpl in H;
    try discriminate; destruct Hfit as [Ho Hfit].
  - injection H as <-. now replace (index + Z.of_nat 0) with index by lia.
  - replace (index + Z.of_nat (S n)) with (index + 1 + Z.of_nat n) by lia. now apply IH.
Qed.

(** X10.  Every output of an accepted block is an unspent row of the store the
    block leaves, under the id of its transaction and its position in the
    transaction, and an input of a later block that names it resolves to its
    value. *)
Theorem outputs_become_spendable (s s' : Store) (block : Block.t) (tx : Transaction.t)
    (n : nat) (output : Output.t) :
  reachable s -> postBlocks s block = (s', Success) ->
  In tx (Block.transactions block) -> nth_error (Transaction.outputs tx) n = Some output ->
  unspentRows s' (Input.mk (Transaction.id tx) (Z.of_nat n))
    = [Utxo.mk (Transaction.id tx) (Z.of_nat n) (Output.address output) (Output.value output)
               false None (Block.height block)]
  /\ getInputValue s' (Input.mk (Transaction.id tx) (Z.of_nat n)) = Ok (Output.value output).
Proof.
  intros Hr Hp Htx Hn. pose proof (reachable_consistent s Hr) as Hc.
  pose proof (postBlocks_consistent s s' block Hc Hp) as Hc'.
  pose proof (validated_no_chain s s' block Hc Hp) as Hintra.
  apply postBlocks_Success in Hp. destruct Hp as [_ Hp].
  destruct (processBlockBody_tables s s' block Hintra Hp) as (_ & _ & Hu).
  destruct (processBlockBody_fits s s' block Hp) as (_ & _ & _ & Hfit).
  rewrite Forall_forall in Hfit. destruct (Hfit tx Htx) as (Hid & _ & Hout).
  destruct (outputsFit_nth _ 0 n output Hout Hn) as (Hindex & _).
  rewrite Z.add_0_l in Hindex.
  set (row := Utxo.mk (Transaction.id tx) (Z.of_nat n) (Output.address output)
                      (Output.value output) false None (Block.height block)).
  assert (unspentRows s' (Input.mk (Transaction.id tx) (Z.of_nat n)) = [row]) as E.
  { apply unspentRows_single; [apply Hc' | | reflexivity | reflexivity].
    rewrite Hu. apply in_app_iff. right. unfold blockOutputRows. apply in_flat_map.
    exists tx. split; [assumption|].
    apply (outputRows_nth (Transaction.id tx) (Block.height block) _ 0 n output Hn). }
  split; [exact E|]. unfold getInputValue. simpl. now rewrite Hid, Hindex, E.
Qed.

Lemma outputs_become_spendable_witness :
  getInputValue (fst (postBlocks (fst (postBlocks emptyStore ScenarioA.block1))
                                 ScenarioA.block2))
                (Input.mk "tx2" 1)
  = Ok 400.
Proof.
  apply (outputs_become_spendable
           (fst (postBlocks emptyStore ScenarioA.block1))
           (fst (postBlocks (fst (postBlocks emptyStore ScenarioA.block1)) ScenarioA.block2))
           ScenarioA.block2
           (createTestTransaction "tx2" [Input.mk "tx1" 0]
              [Output.mk "alpha" 300; Output.mk "beta" 400; Output.mk "charlie" 300])
           1 (Output.mk "beta" 400)).
  - apply reachable_postBlocks, reachable_empty.
  - vm_compute. reflexivity.
  - left. reflexivity.
  - reflexivity.
Defined.

(** ** What a block does to the unspent values *)

Lemma markInput_spent_stays (t : string) (u : Utxo.t) (i : Input.t) :
  Utxo.is_spent u = true -> Utxo.is_spent (markInput t u i) = true.
Proof. unfold markInput. now destruct (refersTo i u). Qed.

Lemma fold_mark_spent_stays (t : string) (inputs : list Input.t) :
  forall u, Utxo.is_spent u = true -> Utxo.is_spent (fold_left (markInput t) inputs u) = true.
Proof.
  induction inputs as [|i inputs IH]; simpl; intros u H; [assumption|].
  now apply IH, markInput_spent_stays.
Qed.

Lemma fold_mark_named (t : string) (inputs : list Input.t) :
  forall u, existsb (fun i => refersTo i u) inputs = true ->
            Utxo.is_spent (fold_left (markInput t) inputs u) = true.
Proof.
  induction inputs as [|i inputs IH]; simpl; intros u H; [discriminate|].
  destruct (refersTo i u) eqn:E.
  - apply fold_mark_spent_stays. unfold markInput. now rewrite E.
  - simpl in H. unfold markInput at 2. rewrite E. now apply IH.
Qed.

Lemma fold_mark_unnamed (t : string) (inputs : list Input.t) :
  forall u, existsb (fun i => refersTo i u) inputs = false ->
            fold_left (markInput t) inputs u = u.
Proof.
  induction inputs as [|i inputs IH]; simpl; intros u H; [reflexivity|].
  apply orb_false_iff in H. destruct H as [E H].
  unfold markInput at 2. rewrite E. now apply IH.
Qed.

Lemma spendBlock_spent_stays (txs : list Transaction.t) :
  forall u, Utxo.is_spent u = true -> Utxo.is_spent (spendBlock txs u) = true.
Proof.
  unfold spendBlock. induction txs as [|tx txs IH]; simpl; intros u H; [assumption|].
  now apply IH, fold_mark_spent_stays.
Qed.

Lemma spendBlock_named (txs : list Transaction.t) :
  forall u, existsb (fun i => refersTo i u) (flat_map Transaction.inputs txs) = true ->
            Utxo.is_spent (spendBlock txs u) = true.
Proof.
  induction txs as [|tx txs IH]; simpl; intros u H; [discriminate|].
  rewrite existsb_app in H. change (spendBlock (tx :: txs) u)
    with (spendBlock txs (spendInputs tx u)).
  destruct (existsb (fun i => refersTo i u) (Transaction.inputs tx)) eqn:E.
  - apply spendBlock_spent_stays. now apply fold_mark_named.
  - simpl in H. unfold spendInputs. rewrite fold_mark_unnamed by assumption. now apply IH.
Qed.

Lemma spendBlock_unnamed (txs : list Transaction.t) :
  forall u, existsb (fun i => refersTo i u) (flat_map Transaction.inputs txs) = false ->
            spendBlock txs u = u.
Proof.
  induction txs as [|tx txs IH]; simpl; intros u H; [reflexivity|].
  rewrite existsb_app in H. apply orb_false_iff in H. destruct H as [E H].
  change (spendBlock (tx :: txs) u) with (spendBlock txs (spendInputs tx u)).
  unfold spendInputs. rewrite fold_mark_unnamed by assumption. now apply IH.
Qed.

Lemma sumZ_map_sub {A : Type} (f g : A -> Z) (l : list A) :
  sumZ (map (fun x => f x - g x) l) = sumZ (map f l) - sumZ (map g l).
Proof. induction l as [|x l IH]; simpl; lia. Qed.

Lemma sumZ_flat_map {A B : Type} (f : B -> Z) (g : A -> list B) (l : list A) :
  sumZ (map f (flat_map g l)) = sumZ (map (fun x => sumZ (map f (g x))) l).
Proof.
  induction l as [|x l IH]; simpl; [reflexivity|]. now rewrite map_app, sumZ_app, IH.
Qed.

(** The weight [w] of the unspent rows, after the inputs of the
    transactions have been spent. *)
Lemma unspent_after_spend (w : Utxo.t -> Z) (txs : list Transaction.t) (l : list Utxo.t) :
  sumZ (map (fun u => if negb (Utxo.is_spent u) then w u else 0) (map (spendBlock txs) l))
  = sumZ (map (fun u => if negb (Utxo.is_spent u) then w u else 0) l)
    - sumZ (map w (filter (fun u => negb (Utxo.is_spent u)
                                    && existsb (fun i => refersTo i u)
                                               (flat_map Transaction.inputs txs)) l)).
Proof.
  rewrite map_map, sumZ_map_filter_guard, <- sumZ_map_sub. apply sumZ_map_ext_in.
  intros u _. destruct (Utxo.is_spent u) eqn:Es.
  - rewrite spendBlock_spent_stays by assumption. reflexivity.
  - destruct (existsb (fun i => refersTo i u) (flat_map Transaction.inputs txs)) eqn:En.
    + rewrite spendBlock_named by assumption. simpl. lia.
    + rewrite spendBlock_unnamed by assumption. rewrite Es. simpl. lia.
Qed.

Lemma outputRows_weight (w : Utxo.t -> Z) (w' : Output.t -> Z) (txid : string) (h : Z) :
  (forall index o,
     w (Utxo.mk txid index (Output.address o) (Output.value o) false None h) = w' o) ->
  forall outputs index,
    sumZ (map (fun u => if negb (Utxo.is_spent u) then w u else 0)
              (outputRows txid index outputs h))
    = sumZ (map w' outputs).
Proof.
  intros Hw. induction outputs as [|o outputs IH]; simpl; intros index; [reflexivity|].
  now rewrite Hw, IH.
Qed.

(** The weight of the unspent rows a block leaves: what was there, less the
    rows its inputs name, plus its outputs. *)
Lemma unspent_after_block (w : Utxo.t -> Z) (w' : Output.t -> Z) (s s' : Store)
    (block : Block.t) :
  (forall txid index o h,
     w (Utxo.mk txid index (Output.address o) (Output.value o) false None h) = w' o) ->
  utxos s' = map (spendBlock (Block.transactions block)) (utxos s) ++ blockOutputRows block ->
  sumZ (map (fun u => if negb (Utxo.is_spent u) then w u else 0) (utxos s'))
  = sumZ (map (fun u => if negb (Utxo.is_spent u) then w u else 0) (utxos s))
    - sumZ (map w (namedRows s block))
    + sumZ (map w' (flat_map Transaction.outputs (Block.transactions block))).
Proof.
  intros Hw ->. rewrite map_app, sumZ_app, unspent_after_spend. unfold namedRows, allInputs.
  f_equal. unfold blockOutputRows. rewrite !sumZ_flat_map. apply sumZ_map_ext_in.
  intros tx _. apply outputRows_weight. intros index o. apply Hw.
Qed.

Lemma contribution_guard (a : string) (u : Utxo.t) :
  contribution a u = if negb (Utxo.is_spent u) then owned a u else 0.
Proof.
  unfold contribution, ownedUnspent, owned.
  destruct (String.eqb (Utxo.address u) a), (Utxo.is_spent u); reflexivity.
Qed.

Lemma unspentSum_guard (s : Store) (a : string) :
  unspentSum s a
  = sumZ (map (fun u => if negb (Utxo.is_spent u) then owned a u else 0) (utxos s)).
Proof.
  rewrite unspentSum_contribution. apply sumZ_map_ext_in. intros u _. apply contribution_guard.
Qed.

Lemma received_guard (block : Block.t) (a : string) :
  received block a
  = sumZ (map (fun o => if String.eqb (Output.address o) a then Output.value o else 0)
              (flat_map Transaction.outputs (Block.transactions block))).
Proof. unfold received. apply sumZ_map_filter_guard. Qed.

Lemma balance_after_block (s s' : Store) (block : Block.t) (a : string) :
  Consistent s -> postBlocks s block = (s', Success) ->
  storedBalance s' a
  = storedBalance s a + received block a - sumZ (map (owned a) (namedRows s block)).
Proof.
  intros Hc Hp. pose proof (postBlocks_consistent s s' block Hc Hp) as Hc'.
  pose proof (validated_no_chain s s' block Hc Hp) as Hintra.
  apply postBlocks_Success in Hp. destruct Hp as [_ Hp].
  destruct (processBlockBody_tables s s' block Hintra Hp) as (_ & _ & Hu).
  rewrite (balances_correct s' Hc'), (balances_correct s Hc), !unspentSum_guard.
  rewrite (unspent_after_block (owned a)
             (fun o => if String.eqb (Output.address o) a then Output.value o else 0)
             s s' block); [|reflexivity|assumption].
  rewrite received_guard. lia.
Qed.

(** The rows the inputs name, one for each input. *)
Lemma named_rows_by_input (w : Utxo.t -> Z) (s : Store) (inputs : list Input.t) :
  NoDup (map utxoKey (utxos s)) ->
  NoDup (map inputKey inputs) ->
  (forall i, In i inputs ->
     exists u, In u (utxos s) /\ utxoKey u = inputKey i /\ Utxo.is_spent u = false) ->
  sumZ (map w (filter (fun u => negb (Utxo.is_spent u)
                                && existsb (fun i => refersTo i u) inputs) (utxos s)))
  = sumZ (map (fun i => match unspentRows s i with
                        | u :: _ => w u
                        | [] => 0
                        end) inputs).
Proof.
  intros Hkeys. induction inputs as [|i inputs IH]; intros Hnd Hvalid.
  - simpl. rewrite filter_none; [reflexivity|]. intros u _. apply andb_false_r.
  - simpl in Hnd. inversion Hnd as [|? ? Hnotin Hnd']; subst.
    destruct (Hvalid i (or_introl eq_refl)) as (ui & Hui & Hk & Hs).
    simpl. rewrite (unspentRows_single s i ui Hkeys Hui Hk Hs).
    rewrite <- IH; [|assumption | intros j Hj; apply Hvalid; now right].
    rewrite !sumZ_map_filter_guard.
    rewrite (sumZ_map_change_one
               (fun u => if negb (Utxo.is_spent u)
                            && existsb (fun i => refersTo i u) inputs then w u else 0)
               (fun u => if negb (Utxo.is_spent u)
                            && (refersTo i u || existsb (fun i => refersTo i u) inputs)
                         then w u else 0)
               (utxos s) ui).
    + assert (refersTo i ui = true) as -> by now apply refersTo_key.
      assert (existsb (fun j => refersTo j ui) inputs = false) as ->.
      { apply existsb_none. intros j Hj. destruct (refersTo j ui) eqn:E; [|reflexivity].
        apply refersTo_key in E. exfalso. apply Hnotin. rewrite <- Hk, E. now apply in_map. }
      rewrite Hs. simpl. lia.
    + now apply (NoDup_map_NoDup utxoKey).
    + assumption.
    + intros x Hx Hne. assert (refersTo i x = false) as ->; [|reflexivity].
      destruct (refersTo i x) eqn:E; [|reflexivity]. apply refersTo_key in E.
      exfalso. apply Hne. apply (NoDup_key_eq utxoKey (utxos s)); auto. congruence.
Qed.

Lemma validated_inputs_unspent (s : Store) (block : Block.t) :
  validateBlock s block = Ok tt ->
  forall i, In i (allInputs block) ->
    exists u, In u (utxos s) /\ utxoKey u = inputKey i /\ Utxo.is_spent u = false.
Proof.
  intros Hv i Hi. apply validateBlock_Ok in Hv. destruct Hv as (_ & _ & Hvalid).
  rewrite Forall_forall in Hvalid. apply in_flat_map in Hi. destruct Hi as (tx & Htx & Hi).
  apply unspentRows_nonempty. now apply (validateTransaction_Ok_inputs s tx (Hvalid tx Htx)).
Qed.

(** X11.  An accepted block moves the balance of an address by what its outputs
    pay to the address less the value of the unspent rows of the address
    that its inputs name, one row for each input; the balance of an address
    that neither receives an output nor owns a named row stays. *)
Theorem balance_change (s s' : Store) (block : Block.t) (address : string) :
  reachable s -> postBlocks s block = (s', Success) ->
  storedBalance s' address
    = storedBalance s address + received block address
      - sumZ (map (owned address) (namedRows s block))
  /\ sumZ (map (owned address) (namedRows s block))
     = sumZ (map (fun i => match unspentRows s i with
                           | u :: _ => owned address u
                           | [] => 0
                           end) (allInputs block))
  /\ ((forall tx o, In tx (Block.transactions block) -> In o (Transaction.outputs tx) ->
         Output.address o <> address) ->
      (forall u, In u (namedRows s block) -> Utxo.address u <> address) ->
      storedBalance s' address = storedBalance s address).
Proof.
  intros Hr Hp. pose proof (reachable_consistent s Hr) as Hc.
  pose proof (balance_after_block s s' block address Hc Hp) as Hbal.
  split; [assumption|]. split.
  - pose proof Hp as Hp'. apply postBlocks_Success in Hp'. destruct Hp' as [Hv Hbody].
    apply named_rows_by_input; [apply Hc | | now apply validated_inputs_unspent].
    now apply (processBlockBody_keys s s' block).
  - intros Hout Hin. rewrite Hbal, received_guard.
    rewrite !sumZ_map_zero; [lia | |].
    + intros u Hu. unfold owned. destruct (String.eqb_spec (Utxo.address u) address) as [E|E];
        [|reflexivity]. now destruct (Hin u Hu).
    + intros o Ho. apply in_flat_map in Ho. destruct Ho as (tx & Htx & Ho).
      destruct (String.eqb_spec (Output.address o) address) as [E|E]; [|reflexivity].
      now destruct (Hout tx o Htx Ho).
Qed.

Lemma balance_change_witness :
  storedBalance
    (fst (postBlocks (fst (postBlocks emptyStore ScenarioA.block1)) ScenarioA.block2))
    "genesis"
  = storedBalance (fst (postBlocks emptyStore ScenarioA.block1)) "genesis"
    + received ScenarioA.block2 "genesis"
    - sumZ (map (owned "genesis")
                (namedRows (fst (postBlocks emptyStore ScenarioA.block1)) ScenarioA.block2)).
Proof.
  destruct (balance_change
              (fst (postBlocks emptyStore ScenarioA.block1))
              (fst (postBlocks (fst (postBlocks emptyStore ScenarioA.block1)) ScenarioA.block2))
              ScenarioA.block2 "genesis") as (H & _).
  - apply reachable_postBlocks, reachable_empty.
  - vm_compute. reflexivity.
  - exact H.
Defined.

Example balance_change_scenario :
  received ScenarioA.block2 "genesis" = 0
  /\ sumZ (map (owned "genesis")
               (namedRows (fst (postBlocks emptyStore ScenarioA.block1)) ScenarioA.block2))
     = 1000
  /\ received ScenarioA.block2 "beta" = 400.
Proof. vm_compute. repeat split. Qed.

(** ** Value is created by transactions without inputs only *)

Lemma mapM_getInputValue (s : Store) (tx : Transaction.t) (vs : list Z) :
  mapM (getInputValue s) (Transaction.inputs tx) = Ok vs -> vs = inputValues s tx.
Proof.
  unfold inputValues. intros H. apply mapM_Ok in H.
  induction H as [|i v inputs vs Hi _ IH]; [reflexivity|].
  simpl. rewrite <- IH. f_equal. apply getInputValue_Ok in Hi.
  destruct Hi as (_ & row & rest & -> & ->). reflexivity.
Qed.

(** What the inputs of a transaction that validates are worth, when its sums
    are exact. *)
Lemma validateTransaction_Ok_sum (s : Store) (tx : Transaction.t) :
  validateTransaction s tx = Ok tt -> exactSums s tx ->
  sumZ (inputValues s tx)
  = match Transaction.inputs tx with
    | [] => 0
    | _ :: _ => sumZ (map Output.value (Transaction.outputs tx))
    end.
Proof.
  intros H [Hin Hout]. destruct (Transaction.inputs tx) as [|i l] eqn:Ei.
  - unfold inputValues. now rewrite Ei.
  - destruct (validateTransaction_Ok_resolves s tx H) as (vs & Hvs).
    pose proof (mapM_getInputValue s tx vs Hvs) as ->.
    assert (Transaction.inputs tx <> []) as Hne by congruence.
    rewrite (validateTransaction_resolved s tx _ Hne Hvs) in H.
    rewrite (sum_exact _ Hin), (sum_exact _ Hout) in H.
    destruct (Number.strictEquals _ _) eqn:E in H; [|discriminate].
    now apply strictEquals_Finite in E.
Qed.

Lemma totalUnspent_guard (s : Store) :
  totalUnspent s
  = sumZ (map (fun u => if negb (Utxo.is_spent u) then Utxo.value u else 0) (utxos s)).
Proof. unfold totalUnspent. apply sumZ_map_filter_guard. Qed.

(** X12.  An accepted block whose transactions have exact sums (the magnitudes
    of the input values and of the output values of each add up to at most
    [2 ^ 53]) changes the value of all unspent rows by what its transactions
    without inputs create: the other transactions spend exactly what they
    pay. *)
Theorem value_is_conserved (s s' : Store) (block : Block.t) :
  reachable s -> postBlocks s block = (s', Success) ->
  (forall tx, In tx (Block.transactions block) -> exactSums s tx) ->
  totalUnspent s' = totalUnspent s + minted block.
Proof.
  intros Hr Hp Hexact. pose proof (reachable_consistent s Hr) as Hc.
  pose proof (validated_no_chain s s' block Hc Hp) as Hintra.
  apply postBlocks_Success in Hp. destruct Hp as [Hv Hp].
  destruct (processBlockBody_tables s s' block Hintra Hp) as (_ & _ & Hu).
  rewrite !totalUnspent_guard.
  rewrite (unspent_after_block Utxo.value Output.value s s' block); [|reflexivity|assumption].
  unfold namedRows.
  rewrite (named_rows_by_input Utxo.value s (allInputs block));
    [| apply Hc | now apply (processBlockBody_keys s s' block)
     | now apply validated_inputs_unspent].
  unfold allInputs, minted. rewrite !sumZ_flat_map.
  apply validateBlock_Ok in Hv. destruct Hv as (_ & _ & Hvalid).
  rewrite Forall_forall in Hvalid.
  rewrite (sumZ_map_ext_in _
             (fun tx => match Transaction.inputs tx with
                        | [] => 0
                        | _ :: _ => sumZ (map Output.value (Transaction.outputs tx))
                        end) (Block.transactions block))
    by (intros tx Htx; apply validateTransaction_Ok_sum; [now apply Hvalid | now apply Hexact]).
  assert (forall l : list Transaction.t,
            sumZ (map (fun tx => sumZ (map Output.value (Transaction.outputs tx))) l)
            - sumZ (map (fun tx => match Transaction.inputs tx with
                                   | [] => 0
                                   | _ :: _ => sumZ (map Output.value (Transaction.outputs tx))
                                   end) l)
            = sumZ (map (fun tx => match Transaction.inputs tx with
                                   | [] => sumZ (map Output.value (Transaction.outputs tx))
                                   | _ :: _ => 0
                                   end) l)) as Hsplit.
  { intros l. rewrite <- sumZ_map_sub. apply sumZ_map_ext_in. intros tx _.
    destruct (Transaction.inputs tx); lia. }
  pose proof (Hsplit (Block.transactions block)). lia.
Qed.

Lemma value_is_conserved_witness :
  totalUnspent (fst (postBlocks (fst (postBlocks emptyStore ScenarioA.block1))
                                ScenarioA.block2))
  = totalUnspent (fst (postBlocks emptyStore ScenarioA.block1)) + minted ScenarioA.block2.
Proof.
  apply (value_is_conserved
           (fst (postBlocks emptyStore ScenarioA.block1))
           (fst (postBlocks (fst (postBlocks emptyStore ScenarioA.block1)) ScenarioA.block2))
           ScenarioA.block2).
  - apply reachable_postBlocks, reachable_empty.
  - vm_compute. reflexivity.
  - intros tx [<-|[]]. split; vm_compute; discriminate.
Defined.

(** Beyond [2 ^ 53] an accepted block can lower the value of the unspent
    rows without a transaction that has no inputs. *)
Example value_is_conserved_bound :
  snd (postBlocks Rounding.store1 Rounding.block2) = Success
  /\ minted Rounding.block2 = 0
  /\ totalUnspent Rounding.store2 = totalUnspent Rounding.store1 - 2
  /\ inputValues Rounding.store1 Rounding.tx2 = [9007199254740992; 1; 1].
Proof. vm_compute. repeat split. Qed.

Example value_is_conserved_scenario :
  minted ScenarioA.block1 = 1000 /\ minted ScenarioA.block2 = 0
  /\ totalUnspent (fst (postBlocks (fst (postBlocks emptyStore ScenarioA.block1))
                                   ScenarioA.block2)) = 1000.
Proof. vm_compute. repeat split. Qed.

(** ** The order of the transactions of a block *)









Example transaction_order_scenario :
  snd (postBlocks emptyStore
         (Block.mk (Block.id TwoMints.block) 1
            [createTestTransaction "b" [] [Output.mk "y" 5];
             createTestTransaction "a" [] [Output.mk "x" 10]])) = Success.
Proof. vm_compute. reflexivity. Qed.

(** ** The rollback request *)

Lemma trimStart_append (ws s : string) :
  stringForall isWhiteSpace ws = true -> trimStart (ws ++ s) = trimStart s.
Proof.
  induction ws as [|c ws IH]; simpl; intros H; [reflexivity|].
  apply andb_true_iff in H. destruct H as [-> H]. now apply IH.
Qed.

(** One step of reading a numeral: the next character, its digit, and the
    number so far. *)
Ltac read_digit :=
  cbn [NilEmpty.string_of_uint String.append leadingDigits];
  match goal with
  | |- context [digitValue ?c] =>
      let v := eval vm_compute in (digitValue c) in change (digitValue c) with v
  end;
  cbn [fold_left Pos.of_uint_acc Pos.of_uint].

(** The digits of a numeral, read after a positive number [p]. *)
Lemma leadingDigits_acc (d : Decimal.uint) (rest : string) :
  leadingDigits rest = [] ->
  forall p,
    fold_left (fun n d => 10 * n + d) (leadingDigits (NilEmpty.string_of_uint d ++ rest))
              (Z.pos p)
    = Z.pos (Pos.of_uint_acc d p).
Proof.
  intros Hrest. induction d as [|d IH|d IH|d IH|d IH|d IH|d IH|d IH|d IH|d IH|d IH];
    intros p; [simpl; now rewrite Hrest | | | | | | | | | |];
    read_digit; rewrite <- IH; f_equal; lia.
Qed.

Lemma leadingDigits_uint (d : Decimal.uint) (rest : string) :
  leadingDigits rest = [] ->
  fold_left (fun n d => 10 * n + d) (leadingDigits (NilEmpty.string_of_uint d ++ rest)) 0
  = Z.of_uint d.
Proof.
  intros Hrest. unfold Z.of_uint.
  induction d as [|d IH|d IH|d IH|d IH|d IH|d IH|d IH|d IH|d IH|d IH];
    [simpl; now rewrite Hrest | read_digit; exact IH | | | | | | | | |];
    read_digit; cbn [Z.of_N]; now rewrite <- (leadingDigits_acc d rest Hrest).
Qed.

(** A numeral starts with a digit: nothing is trimmed, no sign is read, and
    there are digits to read. *)
Lemma parseInt_numeral (d : Decimal.uint) (rest : string) :
  d <> Decimal.Nil -> leadingDigits rest = [] ->
  parseInt (NilEmpty.string_of_uint d ++ rest) = Some (Z.of_uint d).
Proof.
  intros Hd Hrest. rewrite <- (leadingDigits_uint d rest Hrest).
  destruct d; [contradiction | | | | | | | | | |]; reflexivity.
Qed.

Lemma decimal_numeral (n : Z) :
  0 <= n ->
  exists d, d <> Decimal.Nil /\ decimal n = NilEmpty.string_of_uint d /\ Z.of_uint d = n.
Proof.
  intros Hn. unfold decimal. pose proof (DecimalZ.of_to n) as Hround.
  destruct n as [|p|p]; [| |lia].
  - exists (Decimal.D0 Decimal.Nil). repeat split. discriminate.
  - simpl in *. exists (Pos.to_uint p). split; [apply Unsigned.to_uint_nonnil|].
    split; [|assumption].
    destruct (Pos.to_uint p) eqn:E; [now apply Unsigned.to_uint_nonnil in E | | | | | | | | | |];
      reflexivity.
Qed.

Lemma parseInt_decimal_string (n : Z) (ws rest : string) :
  0 <= n -> stringForall isWhiteSpace ws = true -> leadingDigits rest = [] ->
  parseInt (ws ++ decimal n ++ rest) = Some n.
Proof.
  intros Hn Hws Hrest. destruct (decimal_numeral n Hn) as (d & Hd & -> & <-).
  unfold parseInt. rewrite trimStart_append by assumption.
  exact (parseInt_numeral d rest Hd Hrest).
Qed.

(** X14.  The handler reads a number the way it is written: the decimal numeral
    of a height, as a template literal prints it, is parsed back to the
    height, also after white space and before anything that is not a digit,
    and the request is the rollback to that height. *)
Theorem rollback_query_round_trip (s : Store) (n : Z) (ws rest : string) :
  0 <= n <= 9007199254740991 ->
  stringForall isWhiteSpace ws = true -> leadingDigits rest = [] ->
  parseInt (ws ++ decimal n ++ rest) = Some n
  /\ postRollbackQuery s (Some (ws ++ decimal n ++ rest)%string) = postRollback s n.
Proof.
  intros [Hn _] Hws Hrest.
  pose proof (parseInt_decimal_string n ws rest Hn Hws Hrest) as Hparse.
  split; [assumption|]. unfold postRollbackQuery.
  destruct (ws ++ decimal n ++ rest)%string as [|c str] eqn:E; [discriminate|].
  now rewrite Hparse.
Qed.

Lemma rollback_query_round_trip_witness :
  postRollbackQuery (fst (postBlocks emptyStore ScenarioA.block1)) (Some " 0abc")
  = postRollback (fst (postBlocks emptyStore ScenarioA.block1)) 0.
Proof.
  apply (rollback_query_round_trip (fst (postBlocks emptyStore ScenarioA.block1)) 0 " " "abc").
  - lia.
  - reflexivity.
  - reflexivity.
Defined.

Example parseInt_examples :
  parseInt "12" = Some 12 /\ parseInt "  42abc" = Some 42 /\ parseInt "+7" = Some 7
  /\ parseInt "-3" = Some (-3) /\ parseInt "1e3" = Some 1 /\ parseInt "0x10" = Some 0
  /\ parseInt "abc" = None /\ parseInt "" = None /\ parseInt " " = None
  /\ parseInt "-" = None /\ parseInt "007" = Some 7.
Proof. vm_compute. repeat split. Qed.



Example rollback_request_examples :
  snd (postRollbackQuery (fst (postBlocks emptyStore ScenarioA.block1)) (Some "1")) = Success
  /\ snd (postRollbackQuery (fst (postBlocks emptyStore ScenarioA.block1)) (Some "2"))
     = ValidationFailure RollbackAboveCurrent
  /\ snd (postRollbackQuery (fst (postBlocks emptyStore ScenarioA.block1)) (Some "-1"))
     = BadRequest
  /\ snd (postRollbackQuery (fst (postBlocks emptyStore ScenarioA.block1)) (Some "one"))
     = BadRequest
  /\ snd (postRollbackQuery (fst (postBlocks emptyStore ScenarioA.block1)) None) = BadRequest.
Proof. vm_compute. repeat split. Qed.

(** ** The balance request *)

Lemma storedBalance_missing (s : Store) (address : string) :
  (forall r, In r (address_balances s) -> Balance.address r <> address) ->
  storedBalance s address = 0.
Proof.
  intros H. unfold storedBalance. rewrite filter_none; [reflexivity|].
  intros r Hr. apply String.eqb_neq. now apply H.
Qed.

(** X16.  [GET /balance/:address] refuses the empty address, answers the
    internal server error for an address the server does not take as a
    parameter, and answers every other address with the stored balance read
    as a double: 0 for an address without a balance row and, on a ledger,
    the sum of the values of the unspent rows the address owns, exactly so up
    to [2 ^ 53].  The reader of [database.ts] returns the same. *)
Theorem balance_request (s : Store) (address : string) :
  getBalance s EmptyString = InvalidAddress
  /\ (address <> EmptyString -> textParameter address <> Ok tt ->
      getBalance s address = BalanceFailure)
  /\ (address <> EmptyString -> textParameter address = Ok tt ->
      getBalance s address
        = BalanceOf address (Number.parseFloat (storedBalance s address))
      /\ ((forall r, In r (address_balances s) -> Balance.address r <> address) ->
          getBalance s address = BalanceOf address (Number.Finite 0))
      /\ (reachable s ->
          getBalance s address
            = BalanceOf address (Number.parseFloat (unspentSum s address))
          /\ (Z.abs (unspentSum s address) <= safeBound ->
              getBalance s address
                = BalanceOf address (Number.Finite (unspentSum s address)))))
  /\ Database.getAddressBalance s address = getAddressBalance s address.
Proof.
  split; [reflexivity|]. split; [|split; [|apply getAddressBalance_database]].
  - intros Hne Hbad. destruct (getAddressBalance_refused s address Hbad) as (e & E & _).
    destruct address; [congruence|]. unfold getBalance. now rewrite E.
  - intros Hne Hok.
    assert (getBalance s address
            = BalanceOf address (Number.parseFloat (storedBalance s address))) as H.
    { destruct address; [congruence|]. unfold getBalance.
      now rewrite (getAddressBalance_stored s _ Hok). }
    split; [exact H|]. split.
    + intros Hmiss. now rewrite H, storedBalance_missing.
    + intros Hr. rewrite H, (balances_correct s (reachable_consistent s Hr)).
      split; [reflexivity|]. intros Hb. now rewrite parseFloat_exact.
Qed.

Lemma balance_request_witness :
  getBalance (fst (postBlocks emptyStore ScenarioA.block1)) "genesis"
  = BalanceOf "genesis" (Number.Finite 1000).
Proof.
  destruct (balance_request (fst (postBlocks emptyStore ScenarioA.block1)) "genesis")
    as (_ & _ & H & _).
  destruct H as (_ & _ & H); [discriminate | reflexivity|].
  destruct H as (_ & H); [apply reachable_postBlocks, reachable_empty|].
  apply H. vm_compute. discriminate.
Defined.

(** Two mints of [2 ^ 53] and 1 to one address: the table holds
    [2 ^ 53 + 1] and the request reads [2 ^ 53].  An address with the
    character NUL is answered with the internal server error. *)
Example balance_request_examples :
  let s := fst (postBlocks emptyStore
                  (createTestBlock 1
                     [createTestTransaction "tx1" []
                        [Output.mk "a" 9007199254740992; Output.mk "a" 1]])) in
  storedBalance s "a" = 9007199254740993
  /\ getBalance s "a" = BalanceOf "a" (Number.Finite 9007199254740992)
  /\ getBalance s (String (ascii_of_nat 0) "a") = BalanceFailure.
Proof. vm_compute. repeat split. Qed.

(** ** What the rows of a ledger refer to *)

(** X17.  On a ledger the ids of blocks and of transactions and the keys of UTXO
    rows are unique; every transaction row names a stored block and carries
    its height; every UTXO row names a stored transaction and carries its
    height; a row is unspent exactly when it names no spender; and the
    spender a row names is a stored transaction of a strictly later block. *)
Theorem ledger_integrity (s : Store) :
  reachable s ->
  NoDup (map BlockRow.id (blocks s))
  /\ NoDup (map TxRow.id (transactions s))
  /\ NoDup (map utxoKey (utxos s))
  /\ (forall t, In t (transactions s) ->
        exists b, In b (blocks s) /\ TxRow.block_id t = BlockRow.id b
                  /\ TxRow.block_height t = BlockRow.height b)
  /\ (forall u, In u (utxos s) ->
        exists t, In t (transactions s) /\ TxRow.id t = Utxo.tx_id u
                  /\ TxRow.block_height t = Utxo.block_height u)
  /\ (forall u, In u (utxos s) -> (Utxo.is_spent u = false <-> Utxo.spent_in_tx u = None))
  /\ (forall u t, In u (utxos s) -> Utxo.spent_in_tx u = Some t ->
        exists r, In r (transactions s) /\ TxRow.id r = t
                  /\ Utxo.block_height u < TxRow.block_height r).
Proof.
  intros Hr. pose proof (reachable_consistent s Hr) as Hc.
  split; [apply Hc|]. split; [apply Hc|]. split; [apply Hc|].
  split; [apply Hc|]. split; [apply Hc|]. split.
  - intros u Hu. split; [now apply (unspent_clear s Hc)|].
    intros Hnone. destruct (Utxo.is_spent u) eqn:Es; [|reflexivity].
    destruct (spent_later s Hc u Hu Es) as (t & _ & E & _). congruence.
  - intros u t Hu Ht. destruct (Utxo.is_spent u) eqn:Es.
    + destruct (spent_later s Hc u Hu Es) as (r & Hr' & E & Hlt).
      exists r. split; [assumption|]. split; [congruence | assumption].
    + rewrite (unspent_clear s Hc u Hu Es) in Ht. discriminate.
Qed.

Lemma ledger_integrity_witness :
  NoDup (map utxoKey
    (utxos (rollbackToHeight
       (fst (postBlocks (fst (postBlocks emptyStore ScenarioA.block1)) ScenarioA.block2)) 1))).
Proof.
  destruct (ledger_integrity
    (rollbackToHeight
       (fst (postBlocks (fst (postBlocks emptyStore ScenarioA.block1)) ScenarioA.block2)) 1))
    as (_ & _ & H & _).
  - apply reachable_rollbackToHeight, reachable_postBlocks, reachable_postBlocks.
    apply reachable_empty.
  - exact H.
Defined.

(** ** Balance rows are never removed *)

Lemma updateAddressBalance_keeps (s : Store) (address : string) (d : Z) (a : string) :
  In a (map Balance.address (address_balances s)) ->
  In a (map Balance.address (address_balances (updateAddressBalance s address d))).
Proof.
  unfold updateAddressBalance. simpl. rewrite upsertBalance_addresses.
  destruct (existsb _ _); [auto|]. intros H. apply in_app_iff. now left.
Qed.

Lemma fold_left_keeps {A : Type} (P : Store -> Prop) (f : Store -> A -> Store) (l : list A) :
  (forall s x, P s -> P (f s x)) -> forall s, P s -> P (fold_left f l s).
Proof. intros H. induction l as [|x l IH]; simpl; intros s Hs; auto. Qed.

Lemma forEach_keeps {A : Type} (P : Store -> Prop) (f : Store -> A -> result Store)
    (l : list A) :
  (forall s x s', P s -> f s x = Ok s' -> P s') ->
  forall s s', P s -> forEach f l s = Ok s' -> P s'.
Proof.
  intros H. apply forEach_invariant. intros s x s' _. apply H.
Qed.

Lemma rollbackTransaction_keeps (s : Store) (t : string) (a : string) :
  In a (map Balance.address (address_balances s)) ->
  In a (map Balance.address (address_balances (rollbackTransaction s t))).
Proof.
  intros H. unfold rollbackTransaction.
  match goal with
  | |- context [deleteTransactionsWhere ?p ?s3] =>
      change (address_balances (deleteTransactionsWhere p s3)) with (address_balances s3)
  end.
  apply (fold_left_keeps (fun s => In a (map Balance.address (address_balances s)))).
  - intros s0 u Hs0. now apply updateAddressBalance_keeps.
  - cbn [address_balances setUtxos].
    apply (fold_left_keeps (fun s => In a (map Balance.address (address_balances s))));
      [|assumption].
    intros s0 u Hs0. now apply updateAddressBalance_keeps.
Qed.

Lemma rollbackToHeight_keeps (s : Store) (k : Z) (a : string) :
  In a (map Balance.address (address_balances s)) ->
  In a (map Balance.address (address_balances (rollbackToHeight s k))).
Proof.
  intros H. unfold rollbackToHeight, deleteBlocksWhere.
  match goal with
  | |- context [deleteTransactionsWhere ?p (setBlocks ?s1 ?bs)] =>
      change (address_balances (deleteTransactionsWhere p (setBlocks s1 bs)))
        with (address_balances s1)
  end.
  apply (fold_left_keeps (fun s => In a (map Balance.address (address_balances s))));
    [|assumption].
  intros s0 b Hs0. unfold rollbackBlock.
  apply (fold_left_keeps (fun s => In a (map Balance.address (address_balances s))));
    [|assumption].
  intros s1 t Hs1. now apply rollbackTransaction_keeps.
Qed.

Lemma processBlockBody_keeps (s s' : Store) (block : Block.t) (a : string) :
  processBlockBody s block = Ok s' ->
  In a (map Balance.address (address_balances s)) ->
  In a (map Balance.address (address_balances s')).
Proof.
  unfold processBlockBody. intros H Ha.
  apply bind_Ok in H. destruct H as (s1 & H1 & H2).
  apply insertBlock_Ok in H1. destruct H1 as (-> & _).
  revert H2. apply (forEach_keeps (fun s => In a (map Balance.address (address_balances s))));
    [|exact Ha].
  clear. intros s tx s' Hs H. unfold processTransaction in H.
  apply bind_Ok in H. destruct H as (c1 & H1 & H).
  apply bind_Ok in H. destruct H as (c2 & H2 & H3).
  apply insertTransaction_Ok in H1. destruct H1 as (b & _ & _ & _ & _ & ->).
  assert (In a (map Balance.address (address_balances c2))) as Hc2.
  { revert H2. apply (forEach_keeps (fun s => In a (map Balance.address (address_balances s))));
      [|exact Hs].
    intros s0 i s0' Hs0 Hsp. apply spendUTXO_Ok in Hsp. destruct Hsp as (row & _ & _ & _ & ->).
    now apply updateAddressBalance_keeps. }
  clear H2 Hs. revert c2 s' Hc2 H3. generalize 0.
  induction (Transaction.outputs tx) as [|o outs IH]; simpl; intros index c2 s' Hc2 H.
  - now injection H as <-.
  - apply bind_Ok in H. destruct H as (c3 & H3 & H4).
    apply createUTXO_Ok in H3. destruct H3 as (_ & _ & ->).
    eapply IH; [|exact H4]. apply updateAddressBalance_keeps. exact Hc2.
Qed.

(** X18.  No request removes a row of [address_balances]: an address that has a
    row keeps one through every block, accepted or refused, and through
    every rollback, where its balance may come down to 0. *)
Theorem balance_rows_stay (s : Store) (address : string) :
  In address (map Balance.address (address_balances s)) ->
  (forall block,
     In address (map Balance.address (address_balances (fst (postBlocks s block)))))
  /\ (forall targetHeight,
        In address (map Balance.address (address_balances (rollbackToHeight s targetHeight))))
  /\ (forall heightNum,
        In address (map Balance.address (address_balances (fst (postRollback s heightNum))))).
Proof.
  intros H. split; [|split].
  - intros block. unfold postBlocks, processBlock.
    destruct (validateBlock s block); [|exact H].
    destruct (processBlockBody s block) as [s'|e] eqn:Hp; [|exact H].
    now apply (processBlockBody_keeps s s' block).
  - intros k. now apply rollbackToHeight_keeps.
  - intros n. unfold postRollback. destruct (n <? 0); [exact H|].
    destruct (validateRollbackHeight s n); [|exact H]. now apply rollbackToHeight_keeps.
Qed.

Lemma balance_rows_stay_witness :
  In "genesis"
     (map Balance.address
          (address_balances (rollbackToHeight (fst (postBlocks emptyStore ScenarioA.block1)) 0))).
Proof.
  destruct (balance_rows_stay (fst (postBlocks emptyStore ScenarioA.block1)) "genesis")
    as (_ & H & _).
  - vm_compute. left. reflexivity.
  - apply H.
Defined.

(** ** Submitting the blocks again after a rollback *)



(** ** The ledger as a function of the chain *)

Lemma markInput_key (t : string) (u : Utxo.t) (i : Input.t) :
  utxoKey (markInput t u i) = utxoKey u.
Proof. unfold markInput. now destruct (refersTo i u). Qed.

Lemma markInput_unspent_form (t : string) (u : Utxo.t) (i : Input.t) :
  setSpent false None (markInput t u i) = setSpent false None u.
Proof. unfold markInput. now destruct (refersTo i u). Qed.

Lemma spendBlock_keeps (P : Utxo.t -> Utxo.t -> Prop) (txs : list Transaction.t) :
  (forall u, P u u) -> (forall u v w, P u v -> P v w -> P u w) ->
  (forall t u i, P u (markInput t u i)) ->
  forall u, P u (spendBlock txs u).
Proof.
  intros Hrefl Htrans Hstep. unfold spendBlock.
  induction txs as [|tx txs IH]; simpl; intros u; [apply Hrefl|].
  apply (Htrans _ (spendInputs tx u)); [|apply IH].
  unfold spendInputs. generalize u. clear IH u.
  induction (Transaction.inputs tx) as [|i l IHl]; simpl; intros u; [apply Hrefl|].
  apply (Htrans _ (markInput (Transaction.id tx) u i)); [apply Hstep | apply IHl].
Qed.

Lemma spendBlock_key (txs : list Transaction.t) (u : Utxo.t) :
  utxoKey (spendBlock txs u) = utxoKey u.
Proof.
  apply (spendBlock_keeps (fun u v => utxoKey v = utxoKey u)); try congruence.
  intros t u0 i. apply markInput_key.
Qed.

Lemma spendBlock_unspent_form (txs : list Transaction.t) (u : Utxo.t) :
  setSpent false None (spendBlock txs u) = setSpent false None u.
Proof.
  apply (spendBlock_keeps (fun u v => setSpent false None v = setSpent false None u));
    try congruence.
  intros t u0 i. apply markInput_unspent_form.
Qed.

Lemma refersTo_same_key (i : Input.t) (u v : Utxo.t) :
  utxoKey u = utxoKey v -> refersTo i u = refersTo i v.
Proof. unfold utxoKey, refersTo. now intros [= -> ->]. Qed.

Lemma spendBlock_is_spent (txs : list Transaction.t) (u : Utxo.t) :
  Utxo.is_spent (spendBlock txs u)
  = Utxo.is_spent u || existsb (fun i => refersTo i u) (flat_map Transaction.inputs txs).
Proof.
  destruct (Utxo.is_spent u) eqn:Es; simpl.
  - now apply spendBlock_spent_stays.
  - destruct (existsb (fun i => refersTo i u) (flat_map Transaction.inputs txs)) eqn:En.
    + now apply spendBlock_named.
    + now rewrite spendBlock_unnamed.
Qed.

Lemma outputRows_unspent (txid : string) (outputs : list Output.t) (h : Z) :
  forall index u, In u (outputRows txid index outputs h) ->
    Utxo.is_spent u = false /\ setSpent false None u = u.
Proof.
  induction outputs as [|o outputs IH]; simpl; intros index u H; [contradiction|].
  destruct H as [<-|H]; [split; reflexivity|]. now apply (IH (index + 1)).
Qed.

Lemma blockOutputRows_In (block : Block.t) (u : Utxo.t) :
  In u (blockOutputRows block) ->
  In (Utxo.tx_id u) (map Transaction.id (Block.transactions block))
  /\ Utxo.is_spent u = false /\ setSpent false None u = u.
Proof.
  unfold blockOutputRows. intros H. apply in_flat_map in H. destruct H as (tx & Htx & Hu).
  split; [|now apply (outputRows_unspent _ _ _ _ _ Hu)].
  rewrite (outputRows_tx_id _ _ _ _ _ Hu). now apply in_map.
Qed.

Lemma existsb_same {A : Type} (f g : A -> bool) (l : list A) :
  (forall x, f x = g x) -> existsb f l = existsb g l.
Proof. intros H. induction l as [|x l IH]; simpl; [reflexivity|]. now rewrite H, IH. Qed.

Lemma map_id_in {A : Type} (f : A -> A) (l : list A) :
  (forall x, In x l -> f x = x) -> map f l = l.
Proof. intros H. rewrite <- (map_id l) at 2. now apply map_ext_in. Qed.

(** The tables after a chain of accepted blocks, by induction on the chain. *)
Lemma chain_tables (bs : list Block.t) :
  forall s,
    submitAll emptyStore bs = Some s ->
    blocks s = chainBlockRows bs
    /\ transactions s = chainTxRows bs
    /\ map (setSpent false None) (utxos s) = chainOutputRows bs
    /\ (forall u, In u (utxos s) -> Utxo.is_spent u = namedBy bs u)
    /\ (forall i, In i (flat_map allInputs bs) ->
          exists u, In u (utxos s) /\ utxoKey u = inputKey i).
Proof.
  induction bs as [|b bs IH] using rev_ind; intros s Hsub.
  - injection Hsub as <-. repeat split; try reflexivity; simpl; contradiction.
  - rewrite submitAll_app in Hsub.
    destruct (submitAll emptyStore bs) as [s0|] eqn:Hbs; [|discriminate].
    apply submitAll_cons in Hsub. destruct Hsub as (s1 & Hp & [= ->]).
    destruct (IH s0 eq_refl) as (Hb0 & Ht0 & Hu0 & Hs0 & Hi0).
    assert (Consistent s0) as Hc0.
    { apply reachable_consistent. apply (submitAll_reachable bs emptyStore); auto.
      apply reachable_empty. }
    pose proof (validated_no_chain s0 s b Hc0 Hp) as Hintra.
    pose proof Hp as Hp'. apply postBlocks_Success in Hp'. destruct Hp' as [Hv Hbody].
    pose proof (processBlockBody_consistent s0 s b Hc0 Hv Hbody) as Hc.
    destruct (processBlockBody_tables s0 s b Hintra Hbody) as (Hb & Ht & Hu).
    assert (forall u0 i, In u0 (utxos s0) -> In i (allInputs b) \/ True ->
              forall u, In u (blockOutputRows b) -> utxoKey u <> utxoKey u0) as Hnew.
    { intros u0 i Hu0' _ u Hnewrow E.
      destruct (blockOutputRows_In b u Hnewrow) as (Hid & _).
      apply in_map_iff in Hid. destruct Hid as (tx & Hid & Htx).
      apply (processBlockBody_fresh s0 s b Hc0 Hc Hbody tx Htx).
      destruct (utxo_tx s0 Hc0 u0 Hu0') as (t & Hin & Eid & _).
      rewrite Hid. unfold utxoKey in E. injection E as -> _. rewrite <- Eid. now apply in_map. }
    split; [|split; [|split; [|split]]].
    + rewrite Hb, Hb0. unfold chainBlockRows. now rewrite map_app.
    + rewrite Ht, Ht0. unfold chainTxRows. rewrite flat_map_app. simpl. now rewrite app_nil_r.
    + rewrite Hu, map_app, map_map.
      rewrite (map_ext _ (setSpent false None) (spendBlock_unspent_form _)), Hu0.
      rewrite (map_id_in (setSpent false None) (blockOutputRows b))
        by (intros u Hin; now apply (blockOutputRows_In b u Hin)).
      unfold chainOutputRows. rewrite flat_map_app. simpl. now rewrite app_nil_r.
    + intros u Hin. unfold namedBy. rewrite flat_map_app, existsb_app. simpl.
      rewrite app_nil_r. rewrite Hu in Hin. apply in_app_iff in Hin. destruct Hin as [Hin|Hin].
      * apply in_map_iff in Hin. destruct Hin as (u0 & <- & Hin0).
        rewrite spendBlock_is_spent, (Hs0 u0 Hin0). unfold namedBy, allInputs.
        f_equal; apply existsb_same; intros i; apply refersTo_same_key;
          symmetry; apply spendBlock_key.
      * destruct (blockOutputRows_In b u Hin) as (Hid & -> & _). symmetry.
        apply orb_false_iff. split; apply existsb_none; intros i Hi;
          destruct (refersTo i u) eqn:E; try reflexivity; exfalso;
          apply refersTo_key in E.
        -- destruct (Hi0 i Hi) as (u0 & Hu0' & Hk).
           apply (Hnew u0 i Hu0' (or_intror I) u Hin). congruence.
        -- apply in_flat_map in Hi. destruct Hi as (tx & Htx & Hi).
           apply (Hintra tx i Htx Hi). unfold utxoKey, inputKey in E.
           injection E as E _. now rewrite <- E.
    + intros i Hi. rewrite flat_map_app in Hi. simpl in Hi. rewrite app_nil_r in Hi.
      apply in_app_iff in Hi. destruct Hi as [Hi|Hi].
      * destruct (Hi0 i Hi) as (u0 & Hu0' & Hk). exists (spendBlock (Block.transactions b) u0).
        split; [|now rewrite spendBlock_key].
        rewrite Hu. apply in_app_iff. left. now apply in_map.
      * destruct (validated_inputs_unspent s0 b Hv i Hi) as (u0 & Hu0' & Hk & _).
        exists (spendBlock (Block.transactions b) u0).
        split; [|now rewrite spendBlock_key].
        rewrite Hu. apply in_app_iff. left. now apply in_map.
Qed.

(** X20.  The tables hold the chain and nothing else.  After the blocks [bs] were
    accepted one after the other from the empty ledger, [blocks] lists them
    and [transactions] lists their transactions, in their order; [utxos]
    has one row for each output of each transaction, in their order; and a
    row is marked spent exactly when an input of the chain names it. *)
Theorem ledger_of_chain (bs : list Block.t) (s : Store) :
  submitAll emptyStore bs = Some s ->
  blocks s = chainBlockRows bs
  /\ transactions s = chainTxRows bs
  /\ map (setSpent false None) (utxos s) = chainOutputRows bs
  /\ (forall u, In u (utxos s) -> Utxo.is_spent u = namedBy bs u)
  /\ (forall u, In u (utxos s) -> Utxo.is_spent u = false -> In u (chainOutputRows bs)).
Proof.
  intros Hsub. destruct (chain_tables bs s Hsub) as (Hb & Ht & Hu & Hs & _).
  split; [assumption|]. split; [assumption|]. split; [assumption|]. split; [assumption|].
  intros u Hin Hun. rewrite <- Hu. apply in_map_iff. exists u. split; [|assumption].
  apply setSpent_same; [assumption|].
  apply (unspent_clear s); [|assumption|assumption].
  apply reachable_consistent. apply (submitAll_reachable bs emptyStore); auto.
  apply reachable_empty.
Qed.

Lemma ledger_of_chain_witness :
  exists s,
    submitAll emptyStore [ScenarioA.block1; ScenarioA.block2] = Some s
    /\ map (setSpent false None) (utxos s)
       = chainOutputRows [ScenarioA.block1; ScenarioA.block2].
Proof.
  destruct (submitAll emptyStore [ScenarioA.block1; ScenarioA.block2]) as [s|] eqn:E;
    [|vm_compute in E; discriminate].
  destruct (ledger_of_chain [ScenarioA.block1; ScenarioA.block2] s E) as (_ & _ & Hu & _).
  exists s. split; [reflexivity | exact Hu].
Defined.

(** ** The rows the inputs of a block name *)

Lemma fold_mark_one (t : string) (inputs : list Input.t) (i : Input.t) :
  NoDup (map inputKey inputs) -> In i inputs ->
  forall u, utxoKey u = inputKey i ->
    fold_left (markInput t) inputs u = setSpent true (Some t) u.
Proof.
  induction inputs as [|j inputs IH]; intros Hnd Hin u Hk; [contradiction|].
  simpl in Hnd. inversion Hnd as [|? ? Hnotin Hnd']; subst. simpl.
  destruct Hin as [->|Hin].
  - assert (markInput t u i = setSpent true (Some t) u) as ->.
    { unfold markInput. now rewrite (proj2 (refersTo_key i u) Hk). }
    apply fold_mark_unnamed. apply existsb_none. intros k Hkin.
    destruct (refersTo k (setSpent true (Some t) u)) eqn:E; [|reflexivity].
    apply refersTo_key in E. rewrite utxoKey_setSpent, Hk in E.
    exfalso. apply Hnotin. rewrite E. now apply in_map.
  - rewrite markInput_unrelated; [now apply IH|].
    intros E. apply Hnotin. rewrite <- E, Hk. now apply in_map.
Qed.

Lemma spendBlock_one (txs : list Transaction.t) (tx : Transaction.t) (i : Input.t) :
  NoDup (map inputKey (flat_map Transaction.inputs txs)) ->
  In tx txs -> In i (Transaction.inputs tx) ->
  forall u, utxoKey u = inputKey i ->
    spendBlock txs u = setSpent true (Some (Transaction.id tx)) u.
Proof.
  induction txs as [|tx' txs IH]; intros Hnd Htx Hi u Hk; [contradiction|].
  simpl in Hnd. rewrite map_app in Hnd.
  destruct (NoDup_app_parts _ _ Hnd) as (Hnd1 & Hnd2 & Hdis).
  change (spendBlock (tx' :: txs) u) with (spendBlock txs (spendInputs tx' u)).
  destruct Htx as [->|Htx].
  - unfold spendInputs. rewrite (fold_mark_one _ _ i Hnd1 Hi u Hk).
    apply spendBlock_unnamed. apply existsb_none. intros k Hkin.
    destruct (refersTo k (setSpent true (Some (Transaction.id tx)) u)) eqn:E; [|reflexivity].
    apply refersTo_key in E. rewrite utxoKey_setSpent, Hk in E.
    exfalso. apply (Hdis (inputKey i)); [now apply in_map|]. rewrite E. now apply in_map.
  - unfold spendInputs. rewrite fold_mark_unnamed; [now apply (IH Hnd2 Htx Hi)|].
    apply existsb_none. intros k Hkin. destruct (refersTo k u) eqn:E; [|reflexivity].
    apply refersTo_key in E. exfalso. apply (Hdis (inputKey k)); [now apply in_map|].
    rewrite <- E, Hk. apply in_map. apply in_flat_map. exists tx. split; assumption.
Qed.

(** X21.  Every input of an accepted block named one unspent row of the store;
    the block leaves that row marked spent by the transaction of the input,
    with everything else in the row as it was, and the input names no
    unspent row any more. *)
Theorem inputs_are_marked (s s' : Store) (block : Block.t) (tx : Transaction.t)
    (input : Input.t) :
  reachable s -> postBlocks s block = (s', Success) ->
  In tx (Block.transactions block) -> In input (Transaction.inputs tx) ->
  exists u,
    unspentRows s input = [u]
    /\ In (setSpent true (Some (Transaction.id tx)) u) (utxos s')
    /\ unspentRows s' input = [].
Proof.
  intros Hr Hp Htx Hi. pose proof (reachable_consistent s Hr) as Hc.
  pose proof (validated_no_chain s s' block Hc Hp) as Hintra.
  apply postBlocks_Success in Hp. destruct Hp as [Hv Hbody].
  destruct (processBlockBody_tables s s' block Hintra Hbody) as (_ & _ & Hu).
  destruct (processBlockBody_keys s s' block Hbody) as [Hnd Hspent].
  assert (In input (allInputs block)) as Hall
    by (apply in_flat_map; exists tx; split; assumption).
  destruct (validated_inputs_unspent s block Hv input Hall) as (u & Hin & Hk & Hs).
  exists u. split; [|split].
  - apply unspentRows_single; auto. apply Hc.
  - rewrite <- (spendBlock_one (Block.transactions block) tx input Hnd Htx Hi u Hk).
    rewrite Hu. apply in_app_iff. left. now apply in_map.
  - apply allSpent_unspentRows. now apply Hspent.
Qed.

Lemma inputs_are_marked_witness :
  exists u,
    unspentRows (fst (postBlocks emptyStore ScenarioA.block1)) (Input.mk "tx1" 0) = [u]
    /\ In (setSpent true (Some "tx2") u)
          (utxos (fst (postBlocks (fst (postBlocks emptyStore ScenarioA.block1))
                                  ScenarioA.block2))).
Proof.
  destruct (inputs_are_marked
              (fst (postBlocks emptyStore ScenarioA.block1))
              (fst (postBlocks (fst (postBlocks emptyStore ScenarioA.block1)) ScenarioA.block2))
              ScenarioA.block2
              (createTestTransaction "tx2" [Input.mk "tx1" 0]
                 [Output.mk "alpha" 300; Output.mk "beta" 400; Output.mk "charlie" 300])
              (Input.mk "tx1" 0)) as (u & H1 & H2 & _).
  - apply reachable_postBlocks, reachable_empty.
  - vm_compute. reflexivity.
  - left. reflexivity.
  - left. reflexivity.
  - exists u. split; [exact H1 | exact H2].
Defined.

(** ** What undoing one transaction does *)



(** Undone out of order: "tx1" is undone while its output is spent by "tx2",
    and the balance of the owner goes below what it owns. *)
Example undo_transaction_out_of_order :
  utxos (rollbackTransaction DoubleSpend.store2 "tx1")
    = [Utxo.mk "tx2" 0 "addr2" 10 false None 2]
  /\ storedBalance DoubleSpend.store2 "addr1" = 0
  /\ storedBalance (rollbackTransaction DoubleSpend.store2 "tx1") "addr1" = -10
  /\ unspentSum (rollbackTransaction DoubleSpend.store2 "tx1") "addr1" = 0.
Proof. vm_compute. repeat split. Qed.

(** ** The life of a UTXO row *)




(** ** The replies to a block *)

Lemma validateTransaction_errors (s : Store) (tx : Transaction.t) (e : error) :
  validateTransaction s tx = Err e ->
  e = ValidationError InputNotFound \/ e = ValidationError ValueMismatch
  \/ (isDataError e
      /\ exists input, In input (Transaction.inputs tx) /\ ~ inputAccepted input).
Proof.
  intros H. apply validateTransaction_Err in H. destruct H as [->|(input & Hin & H)]; [auto|].
  pose proof H as H0. apply getInputValue_Err in H. destruct H as [(-> & _)|Hd]; [auto|].
  right. right. split; [exact Hd|]. exists input. split; [exact Hin|].
  intros [H1 H2]. unfold getInputValue in H0. rewrite H1, H2 in H0. simpl in H0.
  destruct Hd as [d ->]. destruct (unspentRows s input); discriminate.
Qed.

Lemma validateBlock_errors (s : Store) (block : Block.t) (e : error) :
  validateBlock s block = Err e ->
  (e = ValidationError InvalidHeight /\ Block.height block <> nextHeight s)
  \/ (e = ValidationError InvalidBlockId /\ Block.height block = nextHeight s
      /\ Block.id block <> expectedId block)
  \/ ((e = ValidationError InputNotFound \/ e = ValidationError ValueMismatch
       \/ (isDataError e
           /\ exists tx input, In tx (Block.transactions block)
                               /\ In input (Transaction.inputs tx)
                               /\ ~ inputAccepted input))
      /\ Block.height block = nextHeight s /\ Block.id block = expectedId block
      /\ exists tx, In tx (Block.transactions block) /\ validateTransaction s tx = Err e).
Proof.
  unfold validateBlock. intros H.
  destruct (validateBlockHeight s (Block.height block)) as [[]|e1] eqn:E1; simpl in H.
  - apply validateBlockHeight_Ok in E1.
    destruct (validateBlockId block) as [[]|e2] eqn:E2; simpl in H.
    + apply validateBlockId_Ok in E2. right. right.
      apply forAll_Err_inv in H. destruct H as (tx & Htx & He).
      split; [|eauto].
      destruct (validateTransaction_errors s tx e He) as [->|[->|(Hd & input & Hin & Hno)]];
        auto.
      right. right. split; [exact Hd|]. eauto.
    + injection H as <-. right. left. unfold validateBlockId in E2.
      destruct (String.eqb_spec (Block.id block) (expectedId block)) as [Eid|Eid];
        [discriminate|]. injection E2 as <-. auto.
  - injection H as <-. left. unfold validateBlockHeight in E1.
    destruct (Z.eqb_spec (Block.height block) (currentHeight s + 1)) as [Eh|Eh];
      [discriminate|]. injection E1 as <-. split; [reflexivity|].
    now rewrite <- currentHeight_next.
Qed.

(** X24.  [POST /blocks] answers success, one of the four validation messages of
    a block, or the internal server error, never a bad request.  The checks
    are made in order: the height message exactly when the height is not
    the next one; the id message exactly when the height is right and the
    id is not the recomputed one; an input or value message only when both
    are right and a transaction fails its check; the internal server error
    only for a block that passed [validateBlock], or that has the right
    height and id and an input the server does not take as a parameter.  Any
    reply but success leaves the store as it is. *)
Theorem block_request_replies (s : Store) (block : Block.t) :
  (snd (postBlocks s block) = Success
   \/ snd (postBlocks s block) = ValidationFailure InvalidHeight
   \/ snd (postBlocks s block) = ValidationFailure InvalidBlockId
   \/ snd (postBlocks s block) = ValidationFailure InputNotFound
   \/ snd (postBlocks s block) = ValidationFailure ValueMismatch
   \/ snd (postBlocks s block) = InternalServerError)
  /\ (snd (postBlocks s block) = ValidationFailure InvalidHeight
      <-> Block.height block <> nextHeight s)
  /\ (snd (postBlocks s block) = ValidationFailure InvalidBlockId
      <-> Block.height block = nextHeight s /\ Block.id block <> expectedId block)
  /\ (forall m, (m = InputNotFound \/ m = ValueMismatch) ->
        snd (postBlocks s block) = ValidationFailure m ->
        Block.height block = nextHeight s /\ Block.id block = expectedId block
        /\ exists tx, In tx (Block.transactions block)
                      /\ validateTransaction s tx = Err (ValidationError m))
  /\ (snd (postBlocks s block) = InternalServerError ->
      validateBlock s block = Ok tt
      \/ (Block.height block = nextHeight s /\ Block.id block = expectedId block
          /\ exists tx input, In tx (Block.transactions block)
                              /\ In input (Transaction.inputs tx)
                              /\ ~ inputAccepted input))
  /\ (snd (postBlocks s block) <> Success -> fst (postBlocks s block) = s).
Proof.
  assert (snd (postBlocks s block) <> Success -> fst (postBlocks s block) = s) as Hstore
    by apply postBlocks_store.
  unfold postBlocks, processBlock in *.
  destruct (validateBlock s block) as [[]|e] eqn:Hv.
  - pose proof (proj1 (validateBlock_Ok s block) Hv) as (Hh & Hid & _).
    destruct (processBlockBody s block) as [s'|e] eqn:Hp; simpl.
    + split; [auto|]. split; [split; [discriminate | contradiction]|].
      split; [split; [discriminate | intros [_ H]; contradiction]|].
      split; [intros m _ H; discriminate|]. split; [auto | congruence].
    + rewrite (processBlockBody_Err s block e Hp).
      split; [auto 10|]. split; [split; [discriminate | contradiction]|].
      split; [split; [discriminate | intros [_ H]; contradiction]|].
      split; [intros m _ H; discriminate|]. split; [auto | reflexivity].
  - simpl. destruct (validateBlock_errors s block e Hv)
      as [[-> Hh]|[(-> & Hh & Hid)|(He & Hh & Hid & tx & Htx & Hfail)]]; simpl.
    + split; [auto|]. split; [split; auto|].
      split; [split; [discriminate | intros [H _]; contradiction]|].
      split; [intros m [->| ->] H; discriminate|]. split; [discriminate | reflexivity].
    + split; [auto|]. split; [split; [discriminate | contradiction]|].
      split; [split; auto|].
      split; [intros m [->| ->] H; discriminate|]. split; [discriminate | reflexivity].
    + assert (forall m, replyOf e = ValidationFailure m -> e = ValidationError m) as Hm.
      { intros m H. destruct He as [->|[->|([d ->] & _)]]; simpl in H; congruence. }
      split; [destruct He as [->|[->|([d ->] & _)]]; simpl; auto 10|].
      split; [split; [intros H; apply Hm in H;
                      destruct He as [->|[->|([d ->] & _)]]; congruence | contradiction]|].
      split; [split; [intros H; apply Hm in H;
                      destruct He as [->|[->|([d ->] & _)]]; congruence
                     | intros [_ H]; contradiction]|].
      split; [|split; [|reflexivity]].
      * intros m _ H. apply Hm in H. subst e. split; [assumption|]. split; [assumption|].
        exists tx. split; assumption.
      * intros H. right. destruct He as [->|[->|(_ & Hbad)]]; try discriminate. auto.
Qed.

Example block_request_parameters :
  postBlocks DoubleSpend.store1
    (createTestBlock 2 [createTestTransaction "tx2" [Input.mk "tx1" 2147483648]
                          [Output.mk "addr2" 10]])
  = (DoubleSpend.store1, InternalServerError)
  /\ postBlocks DoubleSpend.store1
       (createTestBlock 2 [createTestTransaction "tx2" [Input.mk "tx1" 2147483647]
                             [Output.mk "addr2" 10]])
     = (DoubleSpend.store1, ValidationFailure InputNotFound).
Proof. vm_compute. split; reflexivity. Qed.

(** ** Reading a balance after an update *)


(** After the updates [2 ^ 53] and 1 the table holds [2 ^ 53 + 1] and
    [getAddressBalance] reads [2 ^ 53]. *)
Example balance_update_rounds :
  let s := updateAddressBalance (updateAddressBalance emptyStore "a" 9007199254740992) "a" 1 in
  storedBalance s "a" = 9007199254740993
  /\ getAddressBalance s "a" = Ok (Number.Finite 9007199254740992).
Proof. vm_compute. split; reflexivity. Qed.

(** ** What [processBlock] can throw *)








Example processBlock_throws_examples :
  snd (processBlock ReusedId.store1 ReusedId.block1) = Err (DatabaseError blocks_pkey)
  /\ snd (processBlock ReusedId.store1 (createTestBlock 1 [])) = Err (DatabaseError blocks_height_key)
  /\ snd (processBlock ReusedId.store1 ReusedId.block2) = Err (DatabaseError transactions_pkey)
  /\ snd (processBlock DoubleSpend.store1 DoubleSpend.sameTransaction) = Err SpendError
  /\ snd (processBlock emptyStore (mintBlock "addr1" (-10000000000000000000)))
     = Err (DataError numeric_value_out_of_range)
  /\ snd (processBlock emptyStore (mintBlock "addr1" 1000000000000000000000))
     = Err (DataError invalid_text_representation)
  /\ snd (processBlock emptyStore
            (createTestBlock 1
               [createTestTransaction
                  "0123456789012345678901234567890123456789012345678901234567890123x"
                  [] [Output.mk "addr1" 1]]))
     = Err (DataError string_data_right_truncation).
Proof. vm_compute. repeat split. Qed.

(** ** Block ids across heights *)

(** The id of a block does not separate the height from the transaction
    ids: here the tenth block passes [validateBlock] on the ledger of the
    first nine, carries the id of the first, and is refused by the primary
    key of [blocks]. *)
Example block_id_collision :
  hashInput IdCollision.block10 = hashInput (IdCollision.mint 1 "0a")
  /\ option_map (fun s => validateBlock s IdCollision.block10)
       (submitAll emptyStore IdCollision.chain) = Some (Ok tt)
  /\ option_map (fun s => snd (processBlock s IdCollision.block10))
       (submitAll emptyStore IdCollision.chain) = Some (Err (DatabaseError blocks_pkey))
  /\ option_map (fun s => snd (postBlocks s IdCollision.block10))
       (submitAll emptyStore IdCollision.chain) = Some InternalServerError.
Proof. vm_compute. repeat split. Qed.
